(** * figma-web-import: the style/geometry to layer-tree engine

    A shallow embedding of the converters of the repository
    ([color-utils.ts], [style-parser.ts], [dom-to-layer.ts]) together with
    the properties of its specification that are checked against them.

    Conventions of the embedding.
    - A JavaScript string is a [string] (one [ascii] per code unit).
    - A JavaScript number is a [num]: an exact rational, one of the two
      infinities, or NaN.  Rounding to binary64 and the sign of zero are
      not represented; every finite operation is exact.
    - A regular expression literal is a [Regex.regex] term run by a
      backtracking matcher that follows the priorities of the ECMAScript
      matcher (leftmost start, alternatives in order, greedy quantifiers).
    - What the code reads from the browser (computed styles, bounding
      boxes, inner text, the outcome of a canvas rasterisation) is a field
      of the element it is read from. *)

From Stdlib Require Import String Ascii List ZArith QArith Qround Qabs Bool Lia Lqa PeanoNat Sorted Permutation.
Import ListNotations.
Open Scope string_scope.
Open Scope nat_scope.

Set Implicit Arguments.

(* ================================================================== *)
(** * The JavaScript runtime: strings *)
(* ================================================================== *)

Module Js.

Definition chr (n : nat) : ascii := ascii_of_nat n.

(** The double quote and the single quote, by code. *)
Definition dquote : ascii := chr 34.
Definition squote : ascii := chr 39.

Definition code (c : ascii) : nat := nat_of_ascii c.

Definition inRange (lo hi : nat) (c : ascii) : bool :=
  (lo <=? code c) && (code c <=? hi).

Definition isDigit (c : ascii) : bool := inRange 48 57 c.
Definition isLower (c : ascii) : bool := inRange 97 122 c.
Definition isUpper (c : ascii) : bool := inRange 65 90 c.
Definition isAlpha (c : ascii) : bool := isLower c || isUpper c.
Definition isHexDigit (c : ascii) : bool :=
  isDigit c || inRange 97 102 c || inRange 65 70 c.

(** [\w]: letters, digits and the underscore. *)
Definition isWordChar (c : ascii) : bool :=
  isAlpha c || isDigit c || (code c =? 95).

(** [\s] and the white space of [trim], restricted to one-byte code units:
    TAB, LF, VT, FF, CR, SPACE and the no-break space. *)
Definition isSpace (c : ascii) : bool :=
  inRange 9 13 c || (code c =? 32) || (code c =? 160).

Definition lowerChar (c : ascii) : ascii :=
  if isUpper c then chr (code c + 32) else c.
Definition upperChar (c : ascii) : ascii :=
  if isLower c then chr (code c - 32) else c.

Fixpoint toLowerCase (s : string) : string :=
  match s with
  | EmptyString => EmptyString
  | String c s' => String (lowerChar c) (toLowerCase s')
  end.

Fixpoint rev_onto (s acc : string) : string :=
  match s with
  | EmptyString => acc
  | String c s' => rev_onto s' (String c acc)
  end.
Definition srev (s : string) : string := rev_onto s EmptyString.

Fixpoint trimStart (s : string) : string :=
  match s with
  | String c s' => if isSpace c then trimStart s' else s
  | EmptyString => EmptyString
  end.
Definition trimEnd (s : string) : string := srev (trimStart (srev s)).
Definition trim (s : string) : string := trimEnd (trimStart s).

Definition isEmpty (s : string) : bool :=
  match s with EmptyString => true | _ => false end.

(** Truthiness of a string: the empty string is the only falsy one. *)
Definition truthy (s : string) : bool := negb (isEmpty s).

Definition startsWith (s pre : string) : bool := String.prefix pre s.

Fixpoint drop (n : nat) (s : string) : string :=
  match n, s with
  | O, _ => s
  | S n', String _ s' => drop n' s'
  | S _, EmptyString => EmptyString
  end.

Fixpoint take (n : nat) (s : string) : string :=
  match n, s with
  | S n', String c s' => String c (take n' s')
  | _, _ => EmptyString
  end.

Definition endsWith (s suf : string) : bool :=
  (String.length suf <=? String.length s) &&
  String.eqb (drop (String.length s - String.length suf) s) suf.

(** [s.indexOf(pat)]: the first index at which [pat] occurs. *)
Fixpoint indexOfFrom (i : nat) (s pat : string) : option nat :=
  if String.prefix pat s then Some i
  else match s with
       | EmptyString => None
       | String _ s' => indexOfFrom (S i) s' pat
       end.
Definition indexOf (s pat : string) : option nat := indexOfFrom 0 s pat.

Definition includes (s pat : string) : bool :=
  match indexOf s pat with Some _ => true | None => false end.

(** [s.substring(a, b)]: both bounds are clamped to [0, length] and swapped
    when [a > b]. *)
Definition substring (s : string) (a b : Z) : string :=
  let len := Z.of_nat (String.length s) in
  let a' := Z.min (Z.max a 0) len in
  let b' := Z.min (Z.max b 0) len in
  let lo := Z.min a' b' in
  let hi := Z.max a' b' in
  take (Z.to_nat (hi - lo)) (drop (Z.to_nat lo) s).

(** [s.substring(a)]. *)
Definition substringFrom (s : string) (a : nat) : string := drop a s.

(** [s.replace(pat, rep)] with a string pattern: the first occurrence only. *)
Definition replaceStr (s pat rep : string) : string :=
  match indexOf s pat with
  | Some i => take i s ++ rep ++ drop (i + String.length pat) s
  | None => s
  end.

(** [s[i]], [None] for [undefined]. *)
Definition charAt (s : string) (i : nat) : option ascii := String.get i s.

Definition str1 (c : ascii) : string := String c EmptyString.

Definition inList (x : string) (l : list string) : bool :=
  existsb (String.eqb x) l.

End Js.

(* ================================================================== *)
(** * The JavaScript runtime: numbers *)
(* ================================================================== *)

(** A number: an exact rational kept in lowest terms, an infinity, or NaN. *)
Inductive num : Type :=
| Fin (q : Q)
| PInf
| NInf
| NaN.

Module Num.

Definition ofZ (z : Z) : num := Fin (inject_Z z).
Definition ofNat (n : nat) : num := ofZ (Z.of_nat n).
Definition frac (a : Z) (b : positive) : num := Fin (Qred (a # b)).

Definition zero : num := ofZ 0.
Definition one : num := ofZ 1.

Definition qsign (q : Q) : comparison := (Qnum q ?= 0)%Z.

Definition neg (x : num) : num :=
  match x with
  | Fin q => Fin (Qred (- q))
  | PInf => NInf
  | NInf => PInf
  | NaN => NaN
  end.

Definition add (x y : num) : num :=
  match x, y with
  | NaN, _ | _, NaN => NaN
  | Fin a, Fin b => Fin (Qred (a + b))
  | PInf, NInf | NInf, PInf => NaN
  | PInf, _ | _, PInf => PInf
  | NInf, _ | _, NInf => NInf
  end.

Definition sub (x y : num) : num := add x (neg y).

Definition inf_of_sign (c : comparison) : num :=
  match c with Gt => PInf | Lt => NInf | Eq => NaN end.

Definition sign (x : num) : comparison :=
  match x with
  | Fin q => qsign q
  | PInf => Gt
  | NInf => Lt
  | NaN => Eq
  end.

Definition mulsign (a b : comparison) : comparison :=
  match a, b with
  | Eq, _ | _, Eq => Eq
  | Gt, Gt | Lt, Lt => Gt
  | _, _ => Lt
  end.

Definition mul (x y : num) : num :=
  match x, y with
  | NaN, _ | _, NaN => NaN
  | Fin a, Fin b => Fin (Qred (a * b))
  | _, _ => inf_of_sign (mulsign (sign x) (sign y))
  end.

(** Division; a finite non-zero number over zero is an infinity of the
    sign of the dividend, as for a positive zero divisor. *)
Definition div (x y : num) : num :=
  match x, y with
  | NaN, _ | _, NaN => NaN
  | Fin a, Fin b =>
      match qsign b with
      | Eq => inf_of_sign (qsign a)
      | _ => Fin (Qred (a / b))
      end
  | Fin _, _ => zero
  | _, Fin b =>
      match qsign b with
      | Eq => x
      | s => inf_of_sign (mulsign (sign x) s)
      end
  | _, _ => NaN
  end.

(** [x <= y], [x < y]: false as soon as one side is NaN. *)
Definition leb (x y : num) : bool :=
  match x, y with
  | NaN, _ | _, NaN => false
  | Fin a, Fin b => Qle_bool a b
  | NInf, _ => true
  | _, PInf => true
  | _, _ => false
  end.

Definition ltb (x y : num) : bool :=
  match x, y with
  | NaN, _ | _, NaN => false
  | Fin a, Fin b => negb (Qle_bool b a)
  | NInf, NInf | PInf, PInf => false
  | NInf, _ => true
  | _, PInf => true
  | _, _ => false
  end.

Definition gtb (x y : num) : bool := ltb y x.
Definition geb (x y : num) : bool := leb y x.

(** [x === y] on numbers. *)
Definition eqb (x y : num) : bool :=
  match x, y with
  | Fin a, Fin b => Qeq_bool a b
  | PInf, PInf | NInf, NInf => true
  | _, _ => false
  end.

Definition isNaN (x : num) : bool :=
  match x with NaN => true | _ => false end.

(** Truthiness: 0 and NaN are falsy. *)
Definition truthy (x : num) : bool :=
  match x with
  | NaN => false
  | Fin q => negb (Qeq_bool q 0)
  | _ => true
  end.

(** [x || d]. *)
Definition orElse (x d : num) : num := if truthy x then x else d.

(** [Math.max(x, y)] and [Math.min(x, y)]: NaN when an argument is NaN. *)
Definition max (x y : num) : num :=
  match x, y with
  | NaN, _ | _, NaN => NaN
  | _, _ => if leb x y then y else x
  end.

Definition min (x y : num) : num :=
  match x, y with
  | NaN, _ | _, NaN => NaN
  | _, _ => if leb x y then x else y
  end.

(** [Math.max(...l)] is -Infinity on the empty list, [Math.min(...l)] is
    +Infinity. *)
Definition maxList (l : list num) : num := fold_left max l NInf.
Definition minList (l : list num) : num := fold_left min l PInf.

Definition abs (x : num) : num :=
  match x with
  | Fin q => Fin (Qred (Qabs q))
  | PInf | NInf => PInf
  | NaN => NaN
  end.

(** [Math.round]: the nearest integer, halves going up. *)
Definition round (x : num) : num :=
  match x with
  | Fin q => ofZ (Qfloor (q + (1 # 2)))
  | _ => x
  end.

(** [x % y]: the remainder has the sign of the dividend. *)
Definition rem (x y : num) : num :=
  match x, y with
  | Fin a, Fin b =>
      match qsign b with
      | Eq => NaN
      | _ => Fin (Qred (a - inject_Z (Qfloor (Qabs a / Qabs b)) * Qabs b * (if Qle_bool 0 a then 1 else -1)))
      end
  | Fin _, (PInf | NInf) => x
  | _, _ => NaN
  end.

(** The proposition "a finite number within [lo, hi]". *)
Definition within (lo hi : Q) (x : num) : Prop :=
  match x with
  | Fin q => (lo <= q /\ q <= hi)%Q
  | _ => False
  end.

End Num.

Declare Scope num_scope.
Delimit Scope num_scope with num.
Bind Scope num_scope with num.
Infix "+" := Num.add : num_scope.
Infix "-" := Num.sub : num_scope.
Infix "*" := Num.mul : num_scope.
Infix "/" := Num.div : num_scope.
Infix "<=?" := Num.leb : num_scope.
Infix "<?" := Num.ltb : num_scope.
Infix ">?" := Num.gtb (at level 70) : num_scope.
Infix "=?" := Num.eqb : num_scope.


(* ================================================================== *)
(** * The JavaScript runtime: [parseFloat] and [parseInt] *)
(* ================================================================== *)

Module Parse.

Import Js.

(** The longest prefix of decimal digits, and what follows it. *)
Fixpoint spanDigits (s : string) : string * string :=
  match s with
  | String c s' =>
      if isDigit c then let (d, r) := spanDigits s' in (String c d, r)
      else (EmptyString, s)
  | EmptyString => (EmptyString, EmptyString)
  end.

Definition digitVal (c : ascii) : Z := Z.of_nat (code c - 48).

Definition hexVal (c : ascii) : Z :=
  if isDigit c then Z.of_nat (code c - 48)
  else if inRange 97 102 c then Z.of_nat (code c - 87)
  else Z.of_nat (code c - 55).

Fixpoint digitsValue (acc : Z) (s : string) : Z :=
  match s with
  | String c s' => digitsValue (10 * acc + digitVal c)%Z s'
  | EmptyString => acc
  end.

Definition pow10 (n : nat) : Z := Z.pow 10 (Z.of_nat n).

(** [m * 10^e] as a rational. *)
Definition scale10 (m : Z) (e : Z) : Q :=
  if (0 <=? e)%Z then inject_Z (m * Z.pow 10 e)
  else Qred (m # Z.to_pos (Z.pow 10 (- e))).

(** An optional sign: its factor and the remaining text. *)
Definition readSign (s : string) : Z * string :=
  match s with
  | String "+" s' => (1%Z, s')
  | String "-" s' => ((-1)%Z, s')
  | _ => (1%Z, s)
  end.

(** The exponent part [e[+-]ddd], read only when it is complete. *)
Definition readExponent (s : string) : Z :=
  match s with
  | String c s' =>
      if (code c =? 101) || (code c =? 69) then
        let (sg, s'') := readSign s' in
        let (d, _) := spanDigits s'' in
        if isEmpty d then 0%Z else (sg * digitsValue 0 d)%Z
      else 0%Z
  | EmptyString => 0%Z
  end.

(** [parseFloat(s)]: leading white space is skipped and the longest prefix
    that is a decimal literal is read; NaN when there is none. *)
Definition parseFloat (s : string) : num :=
  let (sg, s1) := readSign (trimStart s) in
  if String.prefix "Infinity" s1 then (if (sg <? 0)%Z then NInf else PInf)
  else
    let (ip, s2) := spanDigits s1 in
    let '(fp, s3) :=
      match s2 with
      | String "." s2' => spanDigits s2'
      | _ => (EmptyString, s2)
      end in
    if isEmpty ip && isEmpty fp then NaN
    else
      let mant := (digitsValue 0 ip * pow10 (String.length fp) + digitsValue 0 fp)%Z in
      let e := (readExponent s3 - Z.of_nat (String.length fp))%Z in
      Fin (Qred (scale10 (sg * mant) e)).

(** [parseInt(s, 10)]: [None] stands for NaN. *)
Definition parseInt10 (s : string) : option Z :=
  let (sg, s1) := readSign (trimStart s) in
  let (d, _) := spanDigits s1 in
  if isEmpty d then None else Some (sg * digitsValue 0 d)%Z.

Fixpoint spanHex (s : string) : string * string :=
  match s with
  | String c s' =>
      if isHexDigit c then let (d, r) := spanHex s' in (String c d, r)
      else (EmptyString, s)
  | EmptyString => (EmptyString, EmptyString)
  end.

Fixpoint hexValue (acc : Z) (s : string) : Z :=
  match s with
  | String c s' => hexValue (16 * acc + hexVal c)%Z s'
  | EmptyString => acc
  end.

(** [parseInt(s, 16)]. *)
Definition parseInt16 (s : string) : option Z :=
  let (sg, s1) := readSign (trimStart s) in
  let s2 := if String.prefix "0x" s1 || String.prefix "0X" s1 then drop 2 s1 else s1 in
  let (d, _) := spanHex s2 in
  if isEmpty d then None else Some (sg * hexValue 0 d)%Z.

Definition numOfInt (o : option Z) : num :=
  match o with Some z => Num.ofZ z | None => NaN end.

End Parse.

(* ================================================================== *)
(** * The JavaScript runtime: regular expressions *)
(* ================================================================== *)

Module Regex.

Import Js.

Inductive regex : Type :=
| Eps                                  (* the empty pattern *)
| Class (p : ascii -> bool)            (* one code unit of a class *)
| Seq (r1 r2 : regex)
| Alt (r1 r2 : regex)                  (* r1|r2, r1 tried first *)
| Star (r : regex)                     (* r*, greedy *)
| Cap (n : nat) (r : regex)            (* the n-th capturing group *)
| Bol                                  (* ^ *)
| Eol                                  (* $ *)
| WordB.                               (* \b *)

(** The matcher state: the code unit before the current position, the text
    from the current position on, and the groups captured so far. *)
Record mstate : Type := MState {
  prev : option ascii;
  rest : string;
  caps : list (nat * string)
}.

Definition consumed (st0 st1 : mstate) : string :=
  take (String.length (rest st0) - String.length (rest st1)) (rest st0).

Definition isWordOpt (o : option ascii) : bool :=
  match o with Some c => isWordChar c | None => false end.

Definition nextChar (st : mstate) : option ascii :=
  match rest st with String c _ => Some c | EmptyString => None end.

Section Matcher.
Variable A : Type.

(** Backtracking matcher in continuation-passing style.  An iteration of
    a star that consumes nothing is rejected, as in ECMAScript. *)
Fixpoint run (r : regex) (st : mstate) (k : mstate -> option A)
  {struct r} : option A :=
  match r with
  | Eps => k st
  | Class p =>
      match rest st with
      | String c s' =>
          if p c then k (MState (Some c) s' (caps st)) else None
      | EmptyString => None
      end
  | Seq r1 r2 => run r1 st (fun st1 => run r2 st1 k)
  | Alt r1 r2 =>
      match run r1 st k with
      | Some x => Some x
      | None => run r2 st k
      end
  | Star r1 =>
      (fix loop (fuel : nat) (st0 : mstate) {struct fuel} : option A :=
         match fuel with
         | O => k st0
         | S fuel' =>
             match run r1 st0 (fun st1 =>
                       if String.length (rest st1) <? String.length (rest st0)
                       then loop fuel' st1 else None) with
             | Some x => Some x
             | None => k st0
             end
         end) (S (String.length (rest st))) st
  | Cap n r1 =>
      run r1 st (fun st1 =>
        k (MState (prev st1) (rest st1) ((n, consumed st st1) :: caps st1)))
  | Bol => match prev st with None => k st | Some _ => None end
  | Eol => match rest st with EmptyString => k st | _ => None end
  | WordB =>
      if xorb (isWordOpt (prev st)) (isWordOpt (nextChar st)) then k st
      else None
  end.
End Matcher.

(** The result of a successful match: where it starts, the text matched
    and the captured groups. *)
Record mresult : Type := MResult {
  index : nat;
  matched : string;
  groups : list (nat * string);
  remainder : string
}.

Definition matchHere (r : regex) (i : nat) (p : option ascii) (s : string)
  : option mresult :=
  let st0 := MState p s [] in
  run r st0 (fun st1 =>
    Some (MResult i (consumed st0 st1) (caps st1) (rest st1))).

(** The leftmost match at or after the current position. *)
Fixpoint searchFrom (r : regex) (i : nat) (p : option ascii) (s : string)
  : option mresult :=
  match matchHere r i p s with
  | Some m => Some m
  | None =>
      match s with
      | String c s' => searchFrom r (S i) (Some c) s'
      | EmptyString => None
      end
  end.

(** [s.match(r)] for a pattern without the [g] flag. *)
Definition exec (r : regex) (s : string) : option mresult :=
  searchFrom r 0 None s.

(** [r.test(s)]. *)
Definition test (r : regex) (s : string) : bool :=
  match exec r s with Some _ => true | None => false end.

(** [m[n]] for [n >= 1]: [None] is [undefined] (the group did not take
    part in the match). *)
Fixpoint lookup (n : nat) (l : list (nat * string)) : option string :=
  match l with
  | (k, v) :: l' => if k =? n then Some v else lookup n l'
  | [] => None
  end.
Definition group (m : mresult) (n : nat) : option string := lookup n (groups m).
Definition groupOr (m : mresult) (n : nat) : string :=
  match group m n with Some v => v | None => EmptyString end.

Definition lastChar (p : option ascii) (s : string) : option ascii :=
  match srev s with String c _ => Some c | EmptyString => p end.

(** [s.match(r)] for a pattern with the [g] flag: every match, left to
    right; after an empty match the search resumes one code unit later. *)
Fixpoint matchAllFrom (fuel : nat) (r : regex) (p : option ascii) (s : string)
  : list string :=
  match fuel with
  | O => []
  | S fuel' =>
      match searchFrom r 0 p s with
      | None => []
      | Some m =>
          let skip := index m + String.length (matched m) in
          if isEmpty (matched m) then
            match drop (index m) s with
            | String c s' =>
                matched m :: matchAllFrom fuel' r (Some c) s'
            | EmptyString => [matched m]
            end
          else
            matched m ::
              matchAllFrom fuel' r (lastChar p (take skip s)) (drop skip s)
      end
  end.
Definition matchAll (r : regex) (s : string) : list string :=
  matchAllFrom (S (String.length s)) r None s.

(** [s.replace(r, rep)] without the [g] flag: the first match only. *)
Definition replace (r : regex) (s rep : string) : string :=
  match exec r s with
  | Some m => take (index m) s ++ rep ++ remainder m
  | None => s
  end.

(** [s.replace(r, rep)] with the [g] flag. *)
Fixpoint replaceAllFrom (fuel : nat) (r : regex) (p : option ascii)
  (s rep : string) : string :=
  match fuel with
  | O => s
  | S fuel' =>
      match searchFrom r 0 p s with
      | None => s
      | Some m =>
          let skip := index m + String.length (matched m) in
          if isEmpty (matched m) then
            match drop (index m) s with
            | String c s' =>
                take (index m) s ++ rep ++ String c (replaceAllFrom fuel' r (Some c) s' rep)
            | EmptyString => take (index m) s ++ rep
            end
          else
            take (index m) s ++ rep ++
              replaceAllFrom fuel' r (lastChar p (take skip s)) (drop skip s) rep
      end
  end.
Definition replaceAll (r : regex) (s rep : string) : string :=
  replaceAllFrom (S (String.length s)) r None s rep.

(** ** Pattern combinators *)

Definition ch (c : ascii) : regex := Class (Ascii.eqb c).
(** A letter under the [i] flag. *)
Definition chi (c : ascii) : regex :=
  Class (fun x => Ascii.eqb (lowerChar x) (lowerChar c)).

Fixpoint lit (s : string) : regex :=
  match s with
  | EmptyString => Eps
  | String c EmptyString => ch c
  | String c s' => Seq (ch c) (lit s')
  end.
Fixpoint liti (s : string) : regex :=
  match s with
  | EmptyString => Eps
  | String c EmptyString => chi c
  | String c s' => Seq (chi c) (liti s')
  end.

Definition opt (r : regex) : regex := Alt r Eps.          (* r? *)
Definition plus (r : regex) : regex := Seq r (Star r).    (* r+ *)

Fixpoint seqs (l : list regex) : regex :=
  match l with
  | [] => Eps
  | [r] => r
  | r :: l' => Seq r (seqs l')
  end.

Fixpoint alts (l : list regex) : regex :=
  match l with
  | [] => Class (fun _ => false)
  | [r] => r
  | r :: l' => Alt r (alts l')
  end.

(** [r{0,n}], greedy. *)
Fixpoint upto (n : nat) (r : regex) : regex :=
  match n with
  | O => Eps
  | S n' => opt (Seq r (upto n' r))
  end.

Fixpoint times (n : nat) (r : regex) : regex :=
  match n with
  | O => Eps
  | S n' => Seq r (times n' r)
  end.

(** [r{lo,hi}]. *)
Definition rep (lo hi : nat) (r : regex) : regex :=
  Seq (times lo r) (upto (hi - lo) r).

Definition digit : regex := Class isDigit.           (* \d *)
Definition space : regex := Class isSpace.           (* \s *)
Definition word : regex := Class isWordChar.         (* \w *)
Definition hexdigit : regex := Class isHexDigit.     (* [a-fA-F0-9] *)
Definition oneOf (s : string) : regex :=
  Class (fun c => includes s (str1 c)).
Definition noneOf (p : ascii -> bool) : regex := Class (fun c => negb (p c)).

(** [\d+(?:\.\d+)?] *)
Definition decimal : regex :=
  Seq (plus digit) (opt (Seq (ch ".") (plus digit))).

End Regex.

(* ================================================================== *)
(** * Data model ([types/layer-meta.ts]) *)
(* ================================================================== *)

(** [RGBA].  The declared shape is four numbers; [ProtoMember key] is the
    one other value [parseColor] can hand back: [Object.prototype[key]],
    which the [in] test of the named-colour table lets through.  It has
    no [r], [g], [b] or [a] property. *)
Inductive RGBA : Type :=
| Rgba (r g b a : num)
| ProtoMember (key : string).

(** [color.a], [None] for [undefined]; likewise for the other channels. *)
Definition channels (c : RGBA) : list (option num) :=
  match c with
  | Rgba r g b a => [Some r; Some g; Some b; Some a]
  | ProtoMember _ => [None; None; None; None]
  end.

Definition alphaOf (c : RGBA) : option num :=
  match c with Rgba _ _ _ a => Some a | ProtoMember _ => None end.

Definition opaqueBlack : RGBA := Rgba (Num.ofZ 0) (Num.ofZ 0) (Num.ofZ 0) (Num.ofZ 1).

Record GradientStop : Type := mkStop {
  position : num;
  color : RGBA
}.

Inductive ScaleMode : Type := FILL | FIT | CROP | TILE.

Inductive GradientType : Type := GRADIENT_LINEAR | GRADIENT_RADIAL.

(** [Paint]: every paint the converters build has [opacity: 1] and
    [visible: true]; these two constant fields are left out. *)
Inductive Paint : Type :=
| SOLID (color : RGBA)
| GRADIENT (type : GradientType) (gradientStops : list GradientStop)
           (angle : option num)
| IMAGE (imageUrl : string) (scaleMode : ScaleMode).

Inductive ShadowType : Type := DROP_SHADOW | INNER_SHADOW.

Record ShadowEffect : Type := mkShadow {
  shadowType : ShadowType;
  shadowColor : RGBA;
  offsetX : num;
  offsetY : num;
  radius : num;
  spread : num;
  shadowVisible : bool
}.

(* ================================================================== *)
(** * [converters/color-utils.ts] *)
(* ================================================================== *)

Module ColorUtils.

Import Js Regex.

Definition hslToRgb (h s l : num) : num * num * num :=
  let s := (s / Num.ofZ 100)%num in
  let l := (l / Num.ofZ 100)%num in
  let c := ((Num.one - Num.abs (Num.ofZ 2 * l - Num.one)) * s)%num in
  let x := (c * (Num.one - Num.abs (Num.rem (h / Num.ofZ 60) (Num.ofZ 2) - Num.one)))%num in
  let m := (l - c / Num.ofZ 2)%num in
  let '(r, g, b) :=
    if (h <? Num.ofZ 60)%num then (c, x, Num.zero)
    else if (h <? Num.ofZ 120)%num then (x, c, Num.zero)
    else if (h <? Num.ofZ 180)%num then (Num.zero, c, x)
    else if (h <? Num.ofZ 240)%num then (Num.zero, x, c)
    else if (h <? Num.ofZ 300)%num then (x, Num.zero, c)
    else (c, Num.zero, x) in
  ((r + m)%num, (g + m)%num, (b + m)%num).

Definition dec (n : Z) (d : positive) : num := Num.frac n d.

(** The own properties of [namedColors]. *)
Definition namedColors : list (string * RGBA) :=
  let c r g b a := Rgba r g b a in
  let o := Num.ofZ 0 in
  let i := Num.ofZ 1 in
  let h := dec 502 1000 in
  [ ("white", c i i i i);
    ("black", c o o o i);
    ("red", c i o o i);
    ("green", c o h o i);
    ("blue", c o o i i);
    ("gray", c h h h i);
    ("grey", c h h h i);
    ("yellow", c i i o i);
    ("orange", c i (dec 647 1000) o i);
    ("purple", c h o h i);
    ("pink", c i (dec 753 1000) (dec 796 1000) i);
    ("cyan", c o i i i);
    ("magenta", c i o i i);
    ("brown", c (dec 647 1000) (dec 165 1000) (dec 165 1000) i);
    ("navy", c o o h i);
    ("teal", c o h h i);
    ("silver", c (dec 753 1000) (dec 753 1000) (dec 753 1000) i);
    ("maroon", c h o o i);
    ("olive", c h h o i);
    ("lime", c o i o i);
    ("aqua", c o i i i);
    ("fuchsia", c i o i i);
    ("transparent", c o o o o) ].

(** The property names every object literal inherits from
    [Object.prototype]. *)
Definition objectPrototypeKeys : list string :=
  [ "constructor"; "__defineGetter__"; "__defineSetter__"; "hasOwnProperty";
    "__lookupGetter__"; "__lookupSetter__"; "isPrototypeOf";
    "propertyIsEnumerable"; "toString"; "valueOf"; "__proto__";
    "toLocaleString" ].

Fixpoint ownLookup (k : string) (t : list (string * RGBA)) : option RGBA :=
  match t with
  | (k', v) :: t' => if String.eqb k k' then Some v else ownLookup k t'
  | [] => None
  end.

(** [k in namedColors] followed by [namedColors[k]]: the [in] operator
    also answers true for inherited properties. *)
Definition namedColorsGet (k : string) : option RGBA :=
  match ownLookup k namedColors with
  | Some v => Some v
  | None => if inList k objectPrototypeKeys then Some (ProtoMember k) else None
  end.

Definition clamp01 (value : num) : num :=
  Num.max (Num.ofZ 0) (Num.min (Num.ofZ 1) value).

Definition parseFloat := Parse.parseFloat.

(** [/rgba?\(\s*(\d+(?:\.\d+)?)\s*,\s*(\d+(?:\.\d+)?)\s*,\s*(\d+(?:\.\d+)?)\s*(?:,\s*(\d+(?:\.\d+)?)(%?))?\s*\)/] *)
Definition reRgbaComma : regex :=
  seqs [ lit "rgb"; opt (ch "a"); ch "("; Star space;
         Cap 1 decimal; Star space; ch ","; Star space;
         Cap 2 decimal; Star space; ch ","; Star space;
         Cap 3 decimal; Star space;
         opt (seqs [ch ","; Star space; Cap 4 decimal; Cap 5 (opt (ch "%"))]);
         Star space; ch ")" ].

(** [/rgba?\(\s*(\d+(?:\.\d+)?)\s+(\d+(?:\.\d+)?)\s+(\d+(?:\.\d+)?)\s*(?:\/\s*(\d+(?:\.\d+)?)(%?))?\s*\)/] *)
Definition reRgbaSpace : regex :=
  seqs [ lit "rgb"; opt (ch "a"); ch "("; Star space;
         Cap 1 decimal; plus space;
         Cap 2 decimal; plus space;
         Cap 3 decimal; Star space;
         opt (seqs [ch "/"; Star space; Cap 4 decimal; Cap 5 (opt (ch "%"))]);
         Star space; ch ")" ].

(** [/hsla?\((\d+),\s*(\d+)%,\s*(\d+)%(?:,\s*([\d.]+))?\)/] *)
Definition reHsl : regex :=
  seqs [ lit "hsl"; opt (ch "a"); ch "(";
         Cap 1 (plus digit); ch ","; Star space;
         Cap 2 (plus digit); ch "%"; ch ","; Star space;
         Cap 3 (plus digit); ch "%";
         opt (seqs [ch ","; Star space;
                    Cap 4 (plus (Class (fun c => isDigit c || Ascii.eqb c ".")))]);
         ch ")" ].

(** [/^#([a-fA-F0-9]{3,8})$/] *)
Definition reHex : regex :=
  seqs [ Bol; ch "#"; Cap 1 (rep 3 8 hexdigit); Eol ].

(** The alpha of the two [rgb()] branches: 1 when the fourth group is
    absent, the number divided by 100 when followed by a percent sign. *)
Definition rgbAlpha (m : mresult) : num :=
  match group m 4 with
  | Some g4 =>
      let alpha := parseFloat g4 in
      if String.eqb (groupOr m 5) "%" then (alpha / Num.ofZ 100)%num else alpha
  | None => Num.ofZ 1
  end.

Definition rgbOfMatch (m : mresult) : RGBA :=
  Rgba (clamp01 (parseFloat (groupOr m 1) / Num.ofZ 255)%num)
       (clamp01 (parseFloat (groupOr m 2) / Num.ofZ 255)%num)
       (clamp01 (parseFloat (groupOr m 3) / Num.ofZ 255)%num)
       (clamp01 (rgbAlpha m)).

Definition hexPair (c1 c2 : ascii) : num :=
  (Parse.numOfInt (Parse.parseInt16 (String c1 (String c2 EmptyString)))
   / Num.ofZ 255)%num.

Definition parseHexColor (hex : string) : RGBA :=
  match hex with
  | String x (String y (String z EmptyString)) =>
      Rgba (hexPair x x) (hexPair y y) (hexPair z z) (Num.ofZ 1)
  | String x (String y (String z (String w EmptyString))) =>
      Rgba (hexPair x x) (hexPair y y) (hexPair z z) (hexPair w w)
  | String r1 (String r2 (String g1 (String g2 (String b1 (String b2
      EmptyString))))) =>
      Rgba (hexPair r1 r2) (hexPair g1 g2) (hexPair b1 b2) (Num.ofZ 1)
  | String r1 (String r2 (String g1 (String g2 (String b1 (String b2
      (String a1 (String a2 EmptyString))))))) =>
      Rgba (hexPair r1 r2) (hexPair g1 g2) (hexPair b1 b2) (hexPair a1 a2)
  | _ => opaqueBlack
  end.

Definition isContextKeyword (cssColor : string) : bool :=
  String.eqb cssColor "currentColor" || String.eqb cssColor "inherit" ||
  String.eqb cssColor "initial" || String.eqb cssColor "unset".

Definition isTransparentLiteral (cssColor : string) : bool :=
  String.eqb cssColor "transparent" || String.eqb cssColor "rgba(0, 0, 0, 0)".

Definition hslOfMatch (m : mresult) : RGBA :=
  let '(r, g, b) := hslToRgb (parseFloat (groupOr m 1))
                             (parseFloat (groupOr m 2))
                             (parseFloat (groupOr m 3)) in
  Rgba r g b (match group m 4 with
              | Some g4 => parseFloat g4
              | None => Num.ofZ 1
              end).

(** [parseColor(cssColor, fallbackColor?)]. *)
Definition parseColor (cssColor : string) (fallbackColor : option RGBA) : RGBA :=
  if isContextKeyword cssColor then
    match fallbackColor with Some f => f | None => opaqueBlack end
  else if isTransparentLiteral cssColor then
    Rgba (Num.ofZ 0) (Num.ofZ 0) (Num.ofZ 0) (Num.ofZ 0)
  else
    match exec reRgbaComma cssColor with
    | Some m => rgbOfMatch m
    | None =>
    match exec reRgbaSpace cssColor with
    | Some m => rgbOfMatch m
    | None =>
    match exec reHsl cssColor with
    | Some m => hslOfMatch m
    | None =>
    match exec reHex cssColor with
    | Some m => parseHexColor (groupOr m 1)
    | None =>
    match namedColorsGet (toLowerCase cssColor) with
    | Some v => v
    | None => opaqueBlack
    end end end end end.

(** [extractBalancedParens(str, startIndex)]: the loop leaves [i] one past
    the parenthesis that closes depth 1, or at the end of the string. *)
Fixpoint balancedEnd (s : string) (depth i : nat) : nat :=
  match depth with
  | O => i
  | S _ =>
      match s with
      | EmptyString => i
      | String c s' =>
          let d1 := if Ascii.eqb c "(" then S depth else depth in
          let d2 := if Ascii.eqb c ")" then d1 - 1 else d1 in
          balancedEnd s' d2 (S i)
      end
  end.

Definition extractBalancedParens (str : string) (startIndex : nat) : string :=
  let i := balancedEnd (drop startIndex str) 1 startIndex in
  substring str (Z.of_nat startIndex) (Z.of_nat i - 1).

(** [/(\d+)deg/] *)
Definition reAngle : regex := seqs [ Cap 1 (plus digit); lit "deg" ].

Definition parseGradientAngle (content : string) : num :=
  match exec reAngle content with
  | Some m => Parse.numOfInt (Parse.parseInt10 (groupOr m 1))
  | None =>
      if includes content "to right" then Num.ofZ 90
      else if includes content "to left" then Num.ofZ 270
      else if includes content "to bottom" then Num.ofZ 180
      else if includes content "to top" then Num.ofZ 0
      else Num.ofZ 180
  end.

(** The number of leading code units of [s] that satisfy [p]. *)
Fixpoint spanLen (p : ascii -> bool) (s : string) : nat :=
  match s with
  | String c s' => if p c then S (spanLen p s') else O
  | EmptyString => O
  end.

(** [while (i < str.length && p(str[i])) i++] *)
Definition skipWhile (p : ascii -> bool) (str : string) (i : nat) : nat :=
  i + spanLen p (drop i str).

(** [/^(rgba?|hsla?)\(/] *)
Definition reColorFunc : regex :=
  seqs [ Bol; Cap 1 (Alt (Seq (lit "rgb") (opt (ch "a")))
                         (Seq (lit "hsl") (opt (ch "a")))); ch "(" ].

(** [/^(#[a-fA-F0-9]+|\w+)/] *)
Definition reColorToken : regex :=
  seqs [ Bol; Cap 1 (Alt (Seq (ch "#") (plus hexdigit)) (plus word)) ].

Definition extractColorValue (str : string) (startPos : nat) : string :=
  let i := skipWhile isSpace str startPos in
  match exec reColorFunc (substringFrom str i) with
  | Some funcMatch =>
      let funcStart := i + String.length (matched funcMatch) in
      let j := balancedEnd (drop funcStart str) 1 funcStart in
      substring str (Z.of_nat i) (Z.of_nat j)
  | None =>
      match exec reColorToken (substringFrom str i) with
      | Some m => groupOr m 1
      | None => EmptyString
      end
  end.

(** [/^[^,]+,\s*/] *)
Definition reLeadingPart : regex :=
  seqs [ Bol; plus (noneOf (Ascii.eqb ",")); ch ","; Star space ].

(** [/^(\d+(?:\.\d+)?%?)/] *)
Definition rePosition : regex :=
  seqs [ Bol; Cap 1 (Seq decimal (opt (ch "%"))) ].

(** A stop as the scanning loop pushes it: [None] is a stop carrying the
    [_autoGenerated] mark (its position field then holds -1). *)
Definition rawStop : Type := (option num * RGBA)%type.

(** The scanning loop of [parseGradientStops]; every round consumes a
    non-empty colour value, so the length of the text bounds the rounds. *)
Fixpoint scanStops (fuel : nat) (colorPart : string) (i : nat) : list rawStop :=
  match fuel with
  | O => []
  | S fuel' =>
      let i := skipWhile (fun c => isSpace c || Ascii.eqb c ",") colorPart i in
      if String.length colorPart <=? i then []
      else
        let colorValue := extractColorValue colorPart i in
        if isEmpty colorValue then []
        else
          let i := i + String.length colorValue in
          let i := skipWhile isSpace colorPart i in
          let '(position, i) :=
            match exec rePosition (substringFrom colorPart i) with
            | Some posMatch =>
                let posStr := groupOr posMatch 1 in
                (Some (if endsWith posStr "%"
                       then (parseFloat posStr / Num.ofZ 100)%num
                       else parseFloat posStr),
                 i + String.length (matched posMatch))
            | None => (None, i)
            end in
          (position, parseColor colorValue None) :: scanStops fuel' colorPart i
  end.

Definition isAuto (s : rawStop) : bool :=
  match fst s with None => true | Some _ => false end.

(** The normalisation pass: with more than one stop and at least one
    marked stop, a marked stop at index [idx] takes
    [idx / (stops.length - 1)]. *)
Fixpoint normalizeFrom (idx len : nat) (stops : list rawStop) : list GradientStop :=
  match stops with
  | [] => []
  | (Some p, c) :: t => mkStop p c :: normalizeFrom (S idx) len t
  | (None, c) :: t =>
      mkStop (Num.ofNat idx / Num.ofNat (len - 1))%num c
        :: normalizeFrom (S idx) len t
  end.

Definition unnormalized (s : rawStop) : GradientStop :=
  match s with
  | (Some p, c) => mkStop p c
  | (None, c) => mkStop (Num.ofZ (-1)) c
  end.

Definition normalizeStops (stops : list rawStop) : list GradientStop :=
  if (1 <? List.length stops) && existsb isAuto stops
  then normalizeFrom 0 (List.length stops) stops
  else map unnormalized stops.

Definition parseGradientStops (content : string) : list GradientStop :=
  let colorPart := replace reLeadingPart content "" in
  normalizeStops (scanStops (S (String.length colorPart)) colorPart 0).

Inductive GradientKind : Type := linear | radial.

Record Gradient : Type := mkGradient {
  gradType : GradientKind;
  stops : list GradientStop;
  gradAngle : option num
}.

Definition parseGradient (cssGradient : string) : option Gradient :=
  match indexOf cssGradient "linear-gradient(" with
  | Some linearStart =>
      let content := extractBalancedParens cssGradient (linearStart + 16) in
      Some (mkGradient linear (parseGradientStops content)
                       (Some (parseGradientAngle content)))
  | None =>
      match indexOf cssGradient "radial-gradient(" with
      | Some radialStart =>
          let content := extractBalancedParens cssGradient (radialStart + 16) in
          Some (mkGradient radial (parseGradientStops content) None)
      | None => None
      end
  end.

(** [color.a <= 0]; the comparison is false on [undefined]. *)
Definition isTransparent (color : RGBA) : bool :=
  match alphaOf color with
  | Some a => (a <=? Num.ofZ 0)%num
  | None => false
  end.

Definition numChar (c : ascii) : bool := isDigit c || Ascii.eqb c ".".
Definition sepChar (c : ascii) : bool :=
  Ascii.eqb c "," || isSpace c || Ascii.eqb c "/".

(** [(0|0?\.0+|0%)] *)
Definition reZeroAlpha : regex :=
  alts [ ch "0";
         seqs [ opt (ch "0"); ch "."; plus (ch "0") ];
         lit "0%" ].

(** [/rgba?\([\d.]+[,\s/]+[\d.]+[,\s/]+[\d.]+[,\s/]+(0|0?\.0+|0%)\)/] *)
Definition reTransparentRgba : regex :=
  seqs [ lit "rgb"; opt (ch "a"); ch "(";
         plus (Class numChar); plus (Class sepChar);
         plus (Class numChar); plus (Class sepChar);
         plus (Class numChar); plus (Class sepChar);
         Cap 1 reZeroAlpha; ch ")" ].

(** [/rgba?\([^)]+\/\s*(0|0?\.0+|0%)\)/] *)
Definition reTransparentSlash : regex :=
  seqs [ lit "rgb"; opt (ch "a"); ch "(";
         plus (noneOf (Ascii.eqb ")")); ch "/"; Star space;
         Cap 1 reZeroAlpha; ch ")" ].

(** [/\s+/g] *)
Definition reSpaces : regex := plus space.

Definition isTransparentColorString (cssColor : string) : bool :=
  if isEmpty cssColor then true
  else
    let normalized := replaceAll reSpaces (toLowerCase cssColor) "" in
    if String.eqb normalized "transparent" then true
    else if test reTransparentRgba normalized then true
    else if test reTransparentSlash normalized then true
    else if String.eqb normalized "rgba(0,0,0,0)" then true
    else if startsWith normalized "rgba(" && endsWith normalized ",0)" then true
    else false.

End ColorUtils.

(* ================================================================== *)
(** * Data model, continued *)
(* ================================================================== *)

Inductive StrokePosition : Type := INSIDE | OUTSIDE | CENTER_STROKE.

Record StrokeConfig : Type := mkStroke {
  strokeColor : RGBA;
  weight : num;
  strokePosition : StrokePosition;
  dashPattern : option (list num);
  individualWeights : option (num * num * num * num)  (* top right bottom left *)
}.

Inductive BlurType : Type := LAYER_BLUR | BACKGROUND_BLUR.

Inductive Effect : Type :=
| Shadow (e : ShadowEffect)
| Blur (type : BlurType) (blurRadius : num).

Inductive LineHeight : Type :=
| Px (value : num)
| AUTO.

Inductive LayoutMode : Type := HORIZONTAL | VERTICAL.
Inductive PrimaryAlign : Type := P_MIN | P_CENTER | P_MAX | P_SPACE_BETWEEN.
Inductive CounterAlign : Type := C_MIN | C_CENTER | C_MAX | C_BASELINE.
Inductive SizingMode : Type := FIXED | AUTO_SIZE.

Record AutoLayoutConfig : Type := mkAutoLayout {
  mode : LayoutMode;
  primaryAxisAlignItems : PrimaryAlign;
  counterAxisAlignItems : CounterAlign;
  paddingTop : num;
  paddingRight : num;
  paddingBottom : num;
  paddingLeft : num;
  itemSpacing : num;
  primaryAxisSizingMode : SizingMode;
  counterAxisSizingMode : SizingMode;
  wrap : option bool;
  counterAxisStretch : option bool
}.

(** A computed-style snapshot: the value read for each property name, the
    empty string for a property that is not set. *)
Definition CSSStyleDeclaration : Type := string -> string.

Fixpoint styleLookup (l : list (string * string)) (prop : string) : string :=
  match l with
  | (k, v) :: l' => if String.eqb k prop then v else styleLookup l' prop
  | [] => EmptyString
  end.

(** The snapshot holding exactly the listed declarations. *)
Definition styleOf (l : list (string * string)) : CSSStyleDeclaration :=
  styleLookup l.

(* ================================================================== *)
(** * [converters/style-parser.ts] *)
(* ================================================================== *)

Module StyleParser.

Import Js Regex ColorUtils.

(** The first truthy string of [a || b || c || d]. *)
Definition orStr (a b : string) : string := if truthy a then a else b.

(** The state of the comma-splitting loops: the pieces pushed so far, the
    current piece and the parenthesis depth. *)
Fixpoint splitTopLevel (keepEmpty : bool) (s : string) (current : string)
  (parenDepth : Z) : list string * string :=
  match s with
  | EmptyString => ([], current)
  | String char s' =>
      let d1 := if Ascii.eqb char "(" then (parenDepth + 1)%Z else parenDepth in
      let d2 := if Ascii.eqb char ")" then (d1 - 1)%Z else d1 in
      if Ascii.eqb char "," && (d2 =? 0)%Z then
        let '(pieces, last) := splitTopLevel keepEmpty s' EmptyString d2 in
        if keepEmpty || truthy (trim current)
        then (trim current :: pieces, last)
        else (pieces, last)
      else splitTopLevel keepEmpty s' (current ++ str1 char) d2
  end.

Definition finishSplit (r : list string * string) : list string :=
  let '(pieces, current) := r in
  if truthy (trim current) then pieces ++ [trim current] else pieces.

(** [splitBackgroundImages]: a piece ended by a comma is kept only when it
    is not blank. *)
Definition splitBackgroundImages (bgImage : string) : list string :=
  finishSplit (splitTopLevel false bgImage EmptyString 0).

(** [splitShadows]: a piece ended by a comma is always kept. *)
Definition splitShadows (boxShadow : string) : list string :=
  finishSplit (splitTopLevel true boxShadow EmptyString 0).

Definition isQuote (c : ascii) : bool :=
  Ascii.eqb c dquote || Ascii.eqb c squote.

(** [/url\([QQ]?([^QQ)\s]+)[QQ]?\)/], where [QQ] stands for the two
    quote characters, single and double. *)
Definition reUrl : regex :=
  seqs [ lit "url("; opt (Class isQuote);
         Cap 1 (plus (noneOf (fun c => isQuote c || Ascii.eqb c ")" || isSpace c)));
         opt (Class isQuote); ch ")" ].

Section Environment.

(** [new URL(imageUrl, document.baseURI || window.location.href).href];
    [None] when there is no [document] or the constructor throws, in
    which case the original text is kept. *)
Variable resolveURL : string -> option string.

Definition resolveImageUrl (imageUrl : string) : string :=
  if startsWith imageUrl "data:" then imageUrl
  else match resolveURL imageUrl with
       | Some href => href
       | None => imageUrl
       end.

(** The paint pushed for one entry of [background-image], if any. *)
Definition backgroundImagePaint (styles : CSSStyleDeclaration)
  (singleBg : string) : option Paint :=
  let trimmedBg := trim singleBg in
  if includes trimmedBg "url(" then
    match exec reUrl trimmedBg with
    | Some urlMatch =>
        if truthy (groupOr urlMatch 1) then
          let bgSize := styles "backgroundSize" in
          let scaleMode := if String.eqb bgSize "contain" then FIT else FILL in
          Some (IMAGE (resolveImageUrl (groupOr urlMatch 1)) scaleMode)
        else None
    | None => None
    end
  else
    match parseGradient trimmedBg with
    | Some gradient =>
        Some (GRADIENT (match gradType gradient with
                        | linear => GRADIENT_LINEAR
                        | radial => GRADIENT_RADIAL
                        end)
                       (stops gradient) (gradAngle gradient))
    | None => None
    end.

Fixpoint filterMap {A B : Type} (f : A -> option B) (l : list A) : list B :=
  match l with
  | [] => []
  | x :: l' =>
      match f x with
      | Some y => y :: filterMap f l'
      | None => filterMap f l'
      end
  end.

(** The fills pushed by the [background-image] block. *)
Definition backgroundImageFills (styles : CSSStyleDeclaration) : list Paint :=
  let bgImage := styles "backgroundImage" in
  if truthy bgImage && negb (String.eqb bgImage "none") then
    filterMap (backgroundImagePaint styles) (splitBackgroundImages bgImage)
  else [].

(** The fills pushed by the [background-color] block. *)
Definition backgroundColorFills (styles : CSSStyleDeclaration) : list Paint :=
  let textColor := parseColor (styles "color") None in
  let bgColor := styles "backgroundColor" in
  if truthy bgColor && negb (isTransparentColorString bgColor) then
    let color := parseColor bgColor (Some textColor) in
    if negb (isTransparent color) then [SOLID color] else []
  else [].

(** [parseBackground(styles)]: the image block runs first, the colour
    block second, both pushing onto the same array. *)
Definition parseBackground (styles : CSSStyleDeclaration) : list Paint :=
  backgroundImageFills styles ++ backgroundColorFills styles.

End Environment.

(** [parseFloat(x) || 0] *)
Definition floatOr0 (s : string) : num :=
  Num.orElse (Parse.parseFloat s) (Num.ofZ 0).

Definition parseBorder (styles : CSSStyleDeclaration) : option StrokeConfig :=
  let textColor := parseColor (styles "color") None in
  let topWidth := floatOr0 (styles "borderTopWidth") in
  let rightWidth := floatOr0 (styles "borderRightWidth") in
  let bottomWidth := floatOr0 (styles "borderBottomWidth") in
  let leftWidth := floatOr0 (styles "borderLeftWidth") in
  let maxWidth := Num.maxList [topWidth; rightWidth; bottomWidth; leftWidth] in
  if (maxWidth >? Num.ofZ 0)%num then
    let colorStr := orStr (styles "borderTopColor")
                      (orStr (styles "borderRightColor")
                         (orStr (styles "borderBottomColor")
                                (styles "borderLeftColor"))) in
    let borderStyle := orStr (styles "borderTopStyle")
                         (orStr (styles "borderRightStyle")
                            (orStr (styles "borderBottomStyle")
                                   (styles "borderLeftStyle"))) in
    if truthy colorStr && negb (String.eqb borderStyle "none") then
      let color := parseColor colorStr (Some textColor) in
      if negb (isTransparent color) then
        let allSame := ((topWidth =? rightWidth) && (rightWidth =? bottomWidth)
                        && (bottomWidth =? leftWidth))%num in
        Some (mkStroke color maxWidth INSIDE
                (if String.eqb borderStyle "dashed"
                 then Some [(maxWidth * Num.ofZ 2)%num; maxWidth] else None)
                (if allSame then None
                 else Some (topWidth, rightWidth, bottomWidth, leftWidth)))
      else None
    else None
  else None.

(** [/rgba?\s*\([^)]+\)/] *)
Definition reShadowRgba : regex :=
  seqs [ lit "rgb"; opt (ch "a"); Star space; ch "(";
         plus (noneOf (Ascii.eqb ")")); ch ")" ].

(** [/#[a-fA-F0-9]{3,8}/] *)
Definition reShadowHex : regex := Seq (ch "#") (rep 3 8 hexdigit).

(** [/\b(transparent|white|black|red|green|blue|gray|grey)\b/i] *)
Definition reShadowNamed : regex :=
  seqs [ WordB;
         Cap 1 (alts (map liti ["transparent"; "white"; "black"; "red";
                                "green"; "blue"; "gray"; "grey"]));
         WordB ].

(** [/-?\d+(?:\.\d+)?(?:px)?/g] *)
Definition reShadowNumber : regex :=
  seqs [ opt (ch "-"); decimal; opt (lit "px") ].

(** The colour-extraction step shared by the shadow parsers: the colour
    found (the default is black at a quarter alpha) and the text left once
    the colour token is removed. *)
Definition extractShadowColor (cleanShadow : string) : RGBA * string :=
  let default := Rgba (Num.ofZ 0) (Num.ofZ 0) (Num.ofZ 0) (Num.frac 25 100) in
  match exec reShadowRgba cleanShadow with
  | Some rgbaMatch =>
      (parseColor (matched rgbaMatch) None,
       trim (replaceStr cleanShadow (matched rgbaMatch) ""))
  | None =>
      match exec reShadowHex cleanShadow with
      | Some hexMatch =>
          (parseColor (matched hexMatch) None,
           trim (replaceStr cleanShadow (matched hexMatch) ""))
      | None =>
          match exec reShadowNamed cleanShadow with
          | Some namedMatch =>
              (parseColor (matched namedMatch) None,
               trim (replaceStr cleanShadow (matched namedMatch) ""))
          | None => (default, cleanShadow)
          end
      end
  end.

(** The numeric tokens of the remaining text, in order. *)
Definition shadowNumbers (cleanShadow : string) : list num :=
  map Parse.parseFloat (matchAll reShadowNumber cleanShadow).

(** [numbers[i] || 0] *)
Definition nthOr0 (numbers : list num) (i : nat) : num :=
  Num.orElse (nth i numbers NaN) (Num.ofZ 0).

Definition parseSingleShadow (shadowStr : string) : option ShadowEffect :=
  let isInset := includes shadowStr "inset" in
  let cleanShadow := trim (replaceStr shadowStr "inset" "") in
  let '(color, cleanShadow) := extractShadowColor cleanShadow in
  let numbers := shadowNumbers cleanShadow in
  if List.length numbers <? 2 then None
  else
    Some (mkShadow (if isInset then INNER_SHADOW else DROP_SHADOW)
                   color
                   (nthOr0 numbers 0) (nthOr0 numbers 1)
                   (nthOr0 numbers 2) (nthOr0 numbers 3)
                   true).

Definition shadowEffects (entries : list string) : list Effect :=
  map Shadow (filterMap parseSingleShadow entries).

Definition parseBoxShadow (styles : CSSStyleDeclaration) : list Effect :=
  let boxShadow := styles "boxShadow" in
  if isEmpty boxShadow || String.eqb boxShadow "none" then []
  else shadowEffects (splitShadows boxShadow).

(** [parseFloat(fontSize) || 16] *)
Definition fontSizeOr16 (fontSize : string) : num :=
  Num.orElse (Parse.parseFloat fontSize) (Num.ofZ 16).

Definition parseLineHeight (lineHeight fontSize : string) : LineHeight :=
  if String.eqb lineHeight "normal" then
    let fs := fontSizeOr16 fontSize in
    Px (Num.round (fs * Num.frac 12 10 * Num.ofZ 100) / Num.ofZ 100)%num
  else
    let lh := Parse.parseFloat lineHeight in
    if Num.isNaN lh then AUTO
    else if includes lineHeight "px" then Px lh
    else
      let fs := fontSizeOr16 fontSize in
      Px (lh * fs)%num.

Definition parseOpacity (styles : CSSStyleDeclaration) : num :=
  let opacity := Parse.parseFloat (styles "opacity") in
  if Num.isNaN opacity then Num.ofZ 1 else opacity.

Definition isVisible (styles : CSSStyleDeclaration) : bool :=
  negb (String.eqb (styles "display") "none") &&
  negb (String.eqb (styles "visibility") "hidden") &&
  (parseOpacity styles >? Num.ofZ 0)%num.

Definition parseJustifyContent (justify : string) : PrimaryAlign :=
  if String.eqb justify "center" then P_CENTER
  else if String.eqb justify "flex-end" || String.eqb justify "end" then P_MAX
  else if String.eqb justify "space-between" || String.eqb justify "space-around"
          || String.eqb justify "space-evenly" then P_SPACE_BETWEEN
  else P_MIN.

Definition parseAlignItems (align : string) : CounterAlign :=
  if String.eqb align "center" then C_CENTER
  else if String.eqb align "flex-end" || String.eqb align "end" then C_MAX
  else if String.eqb align "baseline" then C_BASELINE
  else C_MIN.

(** [s.split(/\s+/)]: the pieces between runs of white space, the empty
    pieces at both ends included. *)
Fixpoint splitSpacesAux (s : string) (current : string) (inRun : bool)
  : list string :=
  match s with
  | EmptyString => [current]
  | String c s' =>
      if isSpace c then
        if inRun then splitSpacesAux s' current true
        else current :: splitSpacesAux s' EmptyString true
      else splitSpacesAux s' (current ++ str1 c) false
  end.
Definition splitSpaces (s : string) : list string :=
  splitSpacesAux s EmptyString false.

Definition parseGap (gap : string) : num :=
  if isEmpty gap || String.eqb gap "normal" then Num.ofZ 0
  else floatOr0 (hd EmptyString (splitSpaces gap)).

Definition parseGridJustifyContent (justify : string) : PrimaryAlign :=
  if String.eqb justify "center" then P_CENTER
  else if String.eqb justify "end" || String.eqb justify "flex-end" then P_MAX
  else if String.eqb justify "space-between" then P_SPACE_BETWEEN
  else P_MIN.

Definition parseGridAlignItems (align : string) : CounterAlign :=
  if String.eqb align "center" then C_CENTER
  else if String.eqb align "end" || String.eqb align "flex-end" then C_MAX
  else if String.eqb align "baseline" then C_BASELINE
  else C_MIN.

Definition parseGridAsAutoLayout (styles : CSSStyleDeclaration)
  : option AutoLayoutConfig :=
  let gridTemplateColumns := styles "gridTemplateColumns" in
  let columnCount :=
    if truthy gridTemplateColumns && negb (String.eqb gridTemplateColumns "none")
    then List.length (filter (fun v => truthy v && negb (String.eqb v "none"))
                             (splitSpaces gridTemplateColumns))
    else 1 in
  let isHorizontal := 1 <? columnCount in
  let columnGap := floatOr0 (styles "columnGap") in
  let rowGap := floatOr0 (styles "rowGap") in
  let gap := floatOr0 (styles "gap") in
  let itemSpacing := if isHorizontal then Num.orElse columnGap gap
                     else Num.orElse rowGap gap in
  let alignContent := styles "alignContent" in
  Some (mkAutoLayout
          (if isHorizontal then HORIZONTAL else VERTICAL)
          (parseGridJustifyContent
             (orStr (styles "justifyContent") (styles "justifyItems")))
          (parseGridAlignItems
             (if truthy alignContent && negb (String.eqb alignContent "normal")
                 && negb (String.eqb alignContent "stretch")
              then alignContent else styles "alignItems"))
          (floatOr0 (styles "paddingTop")) (floatOr0 (styles "paddingRight"))
          (floatOr0 (styles "paddingBottom")) (floatOr0 (styles "paddingLeft"))
          itemSpacing AUTO_SIZE AUTO_SIZE (Some isHorizontal) None).

Definition isBlockDisplay (display : string) : bool :=
  inList display ["block"; "list-item"; "flow-root"; "table";
                  "table-row-group"; "table-row"].

Definition parseAutoLayout (styles : CSSStyleDeclaration)
  : option AutoLayoutConfig :=
  let display := styles "display" in
  let flexDirection := styles "flexDirection" in
  let position := styles "position" in
  if String.eqb position "absolute" || String.eqb position "fixed" then None
  else if String.eqb display "grid" || String.eqb display "inline-grid" then
    parseGridAsAutoLayout styles
  else
    let paddingTop := floatOr0 (styles "paddingTop") in
    let paddingRight := floatOr0 (styles "paddingRight") in
    let paddingBottom := floatOr0 (styles "paddingBottom") in
    let paddingLeft := floatOr0 (styles "paddingLeft") in
    if String.eqb display "flex" || String.eqb display "inline-flex" then
      let isVertical := String.eqb flexDirection "column"
                        || String.eqb flexDirection "column-reverse" in
      let alignItems := styles "alignItems" in
      let isStretch := String.eqb alignItems "stretch" in
      Some (mkAutoLayout
              (if isVertical then VERTICAL else HORIZONTAL)
              (parseJustifyContent (styles "justifyContent"))
              (parseAlignItems alignItems)
              paddingTop paddingRight paddingBottom paddingLeft
              (parseGap (styles "gap")) AUTO_SIZE AUTO_SIZE
              (Some (String.eqb (styles "flexWrap") "wrap"))
              (if isStretch then Some true else None))
    else if isBlockDisplay display then
      let counterAlign :=
        if String.eqb (styles "textAlign") "center" then C_CENTER else C_MIN in
      Some (mkAutoLayout VERTICAL P_MIN counterAlign
              paddingTop paddingRight paddingBottom paddingLeft
              (Num.ofZ 0) AUTO_SIZE AUTO_SIZE None None)
    else if String.eqb display "inline-block" || String.eqb display "inline"
            || String.eqb display "table-cell" then
      Some (mkAutoLayout HORIZONTAL P_MIN C_CENTER
              paddingTop paddingRight paddingBottom paddingLeft
              (Num.ofZ 0) AUTO_SIZE AUTO_SIZE None None)
    else None.

End StyleParser.

(* ================================================================== *)
(** * The layer tree and the DOM it is built from *)
(* ================================================================== *)

Inductive LayerType : Type := FRAME | TEXT | RECTANGLE | ELLIPSE | GROUP.

Local Set Warnings "-register-all".

(** [LayerMeta].  The fields that the builder only writes and never reads
    back ([name], [effects], [cornerRadius], [clipsContent], [characters],
    [textStyles], [textSegments], [flexGrow], [rotation], [imageUrl] and
    the [id] and [className] of [sourceElement]) are not represented.
    [isAbsolutelyPositioned] is [false] where the source leaves it
    [undefined]; [zIndex], [svgString] and [sourceTag] (the [tagName] of
    [sourceElement]) are [None] where the source leaves them
    [undefined]. *)
Module Layer.
Inductive LayerMeta : Type := mk {
  type : LayerType;
  x : num;
  y : num;
  width : num;
  height : num;
  fills : list Paint;
  strokes : option StrokeConfig;
  opacity : num;
  visible : bool;
  autoLayout : option AutoLayoutConfig;
  isAbsolutelyPositioned : bool;
  zIndex : option Z;
  children : list LayerMeta;
  svgString : option string;
  sourceTag : option string
}.
End Layer.
Abbreviation LayerMeta := Layer.LayerMeta.

Module DOMRect.
Record t : Type := mk {
  left : num;
  top : num;
  width : num;
  height : num
}.
End DOMRect.

Inductive Pseudo : Type := before | after.

Definition pseudoName (p : Pseudo) : string :=
  match p with before => "::before" | after => "::after" end.

(** What drawing an icon glyph on a canvas gave: [Drawn url] when a 2d
    context was obtained, nothing threw and some pixel is not transparent;
    [NotDrawn] in every other case. *)
Inductive Raster : Type :=
| NotDrawn
| Drawn (dataUrl : string).

(** What the builder reads from one element. *)
Record ElementInfo : Type := mkInfo {
  tagName : string;                      (* element.tagName *)
  inputType : string;                    (* (element as HTMLInputElement).type *)
  src : string;                          (* (element as HTMLImageElement).src *)
  innerText : string;                    (* (element as HTMLElement).innerText *)
  computedStyle : CSSStyleDeclaration;   (* getComputedStyle(element) *)
  boundingClientRect : DOMRect.t;        (* element.getBoundingClientRect() *)
  parentDisplay : option string;         (* getComputedStyle(element.parentElement).display *)
  pseudoStyle : Pseudo -> CSSStyleDeclaration;  (* getComputedStyle(element, pseudo) *)
  iconRaster : Pseudo -> Raster;
  sanitizedSvg : option string           (* sanitizeSvg(element, styles) *)
}.

(** An element with its [childNodes]: text nodes (their data and the box
    of a range selecting their contents) and elements.  Comment nodes,
    which the builder skips, are left out. *)
Inductive Element : Type :=
| Elem (info : ElementInfo) (childNodes : list ChildNode)
with ChildNode : Type :=
| Txt (data : string) (rangeRect : DOMRect.t)
| El (e : Element).

Definition infoOf (e : Element) : ElementInfo :=
  match e with Elem i _ => i end.
Definition childNodesOf (e : Element) : list ChildNode :=
  match e with Elem _ k => k end.

(** [element.children] *)
Fixpoint elementChildren (kids : list ChildNode) : list Element :=
  match kids with
  | [] => []
  | El e :: k => e :: elementChildren k
  | Txt _ _ :: k => elementChildren k
  end.

(** The concatenated data of the direct text nodes. *)
Fixpoint directTextData (kids : list ChildNode) : string :=
  match kids with
  | [] => EmptyString
  | Txt d _ :: k => d ++ directTextData k
  | El _ :: k => directTextData k
  end.

(** A call either returns or throws (the one exception the builder can
    raise is the [RangeError] of [String.fromCodePoint]). *)
Inductive result (A : Type) : Type :=
| Ok (a : A)
| Throw.
Arguments Ok {A} a.
Arguments Throw {A}.

Definition bind {A B : Type} (m : result A) (f : A -> result B) : result B :=
  match m with
  | Ok a => f a
  | Throw => Throw
  end.

Notation "'do' x <- m ; k" := (bind m (fun x => k))
  (at level 10, x name, m at level 100, k at level 200).

(* ================================================================== *)
(** * [converters/dom-to-layer.ts] *)
(* ================================================================== *)

Module DomToLayer.

Import Js Regex ColorUtils StyleParser.

Record ConversionOptions : Type := mkConversionOptions {
  includeHidden : option bool;
  maxDepth : option num;
  rootOffset : option (num * num);
  captureImages : option bool
}.

Record RequiredOptions : Type := mkRequiredOptions {
  includeHidden' : bool;
  maxDepth' : num;
  rootOffset' : num * num;
  captureImages' : bool
}.

Definition DEFAULT_OPTIONS : RequiredOptions :=
  mkRequiredOptions false (Num.ofZ 50) (Num.ofZ 0, Num.ofZ 0) true.

Definition orDefault {A : Type} (o : option A) (d : A) : A :=
  match o with Some v => v | None => d end.

(** [{ ...DEFAULT_OPTIONS, ...options }] *)
Definition mergeOptions (options : ConversionOptions) : RequiredOptions :=
  mkRequiredOptions
    (orDefault (includeHidden options) (includeHidden' DEFAULT_OPTIONS))
    (orDefault (maxDepth options) (maxDepth' DEFAULT_OPTIONS))
    (orDefault (rootOffset options) (rootOffset' DEFAULT_OPTIONS))
    (orDefault (captureImages options) (captureImages' DEFAULT_OPTIONS)).

Definition noOptions : ConversionOptions :=
  mkConversionOptions None None None None.

Definition isNonVisualElement (tagName : string) : bool :=
  inList tagName
    [ "script"; "style"; "link"; "meta"; "head"; "title"; "noscript";
      "template"; "slot"; "br"; "wbr"; "defs"; "clipPath"; "mask"; "symbol";
      "use"; "colgroup"; "col" ].

Definition isTextElement (tagName : string) : bool :=
  inList tagName
    [ "p"; "span"; "h1"; "h2"; "h3"; "h4"; "h5"; "h6"; "a"; "label";
      "strong"; "em"; "b"; "u"; "small"; "mark"; "del"; "ins"; "sub"; "sup";
      "code"; "pre"; "blockquote"; "cite"; "q"; "button"; "li"; "dt"; "dd" ].

(** [isTextOnlyElement]: without element children, [textContent] is the
    data of the direct text nodes. *)
Definition isTextOnlyElement (kids : list ChildNode) : bool :=
  match elementChildren kids with
  | _ :: _ => false
  | [] => truthy (trim (directTextData kids))
  end.

Definition isBlank (s : string) : bool := isEmpty (trim s).

Definition hasRealTextNodes (kids : list ChildNode) : bool :=
  existsb (fun n => match n with
                    | Txt d _ => negb (isBlank d)
                    | El _ => false
                    end) kids.

Definition hasBlockChildren (kids : list ChildNode) : bool :=
  existsb (fun child =>
             inList (computedStyle (infoOf child) "display")
                    ["block"; "flex"; "grid"; "table"; "list-item"])
          (elementChildren kids).

Definition determineLayerType (info : ElementInfo) (kids : list ChildNode)
  : LayerType :=
  let styles := computedStyle info in
  let tagName := toLowerCase (tagName info) in
  if String.eqb tagName "img" then RECTANGLE
  else if String.eqb tagName "svg" then FRAME
  else if inList tagName ["circle"; "ellipse"] then ELLIPSE
  else if String.eqb tagName "rect" then RECTANGLE
  else if inList tagName ["path"; "polygon"; "polyline"; "line"] then FRAME
  else if String.eqb tagName "g" then GROUP
  else if inList tagName ["table"; "thead"; "tbody"; "tfoot"; "tr"] then FRAME
  else if String.eqb tagName "caption" then FRAME
  else
    let borderRadius := styles "borderRadius" in
    let rect := boundingClientRect info in
    if (String.eqb borderRadius "50%" || String.eqb borderRadius "9999px")
       && (Num.abs (DOMRect.width rect - DOMRect.height rect) <? Num.ofZ 2)%num
    then ELLIPSE
    else
      let bgColor := styles "backgroundColor" in
      let hasBackground := truthy bgColor
                           && negb (String.eqb bgColor "transparent")
                           && negb (String.eqb bgColor "rgba(0, 0, 0, 0)") in
      if negb hasBackground && (isTextElement tagName || isTextOnlyElement kids)
      then
        if hasBlockChildren kids then FRAME
        else
          let pt := floatOr0 (styles "paddingTop") in
          let pr := floatOr0 (styles "paddingRight") in
          let pb := floatOr0 (styles "paddingBottom") in
          let pl := floatOr0 (styles "paddingLeft") in
          if ((pt >? Num.ofZ 2) || (pr >? Num.ofZ 2) || (pb >? Num.ofZ 2)
              || (pl >? Num.ofZ 2))%num
          then FRAME
          else if isTextElement tagName || hasRealTextNodes kids then TEXT
          else FRAME
      else FRAME.

(** [getDirectTextContent] *)
Definition getDirectTextContent (info : ElementInfo) : string :=
  trim (innerText info).

(** [getDirectTextNodesOnly] *)
Definition getDirectTextNodesOnly (kids : list ChildNode) : string :=
  trim (directTextData kids).

(** ** Field updates *)

Import Layer.

Definition setGeometry (l : LayerMeta) (x' y' w' h' : num) : LayerMeta :=
  mk (type l) x' y' w' h' (fills l) (strokes l) (opacity l) (visible l)
     (autoLayout l) (isAbsolutelyPositioned l) (zIndex l) (children l)
     (svgString l) (sourceTag l).

Definition setY (l : LayerMeta) (y' : num) : LayerMeta :=
  setGeometry l (x l) y' (width l) (height l).

Definition setWidth (l : LayerMeta) (w' : num) : LayerMeta :=
  setGeometry l (x l) (y l) w' (height l).

Definition setHeight (l : LayerMeta) (h' : num) : LayerMeta :=
  setGeometry l (x l) (y l) (width l) h'.

Definition setPaint (l : LayerMeta) (f : list Paint) (s : option StrokeConfig)
  : LayerMeta :=
  mk (type l) (x l) (y l) (width l) (height l) f s (opacity l) (visible l)
     (autoLayout l) (isAbsolutelyPositioned l) (zIndex l) (children l)
     (svgString l) (sourceTag l).

Definition setAutoLayout (l : LayerMeta) (al : option AutoLayoutConfig)
  : LayerMeta :=
  mk (type l) (x l) (y l) (width l) (height l) (fills l) (strokes l)
     (opacity l) (visible l) al (isAbsolutelyPositioned l) (zIndex l)
     (children l) (svgString l) (sourceTag l).

Definition setChildren (l : LayerMeta) (c : list LayerMeta) : LayerMeta :=
  mk (type l) (x l) (y l) (width l) (height l) (fills l) (strokes l)
     (opacity l) (visible l) (autoLayout l) (isAbsolutelyPositioned l)
     (zIndex l) c (svgString l) (sourceTag l).

Definition setSvg (l : LayerMeta) (svg : string) : LayerMeta :=
  mk (type l) (x l) (y l) (width l) (height l) (fills l) (strokes l)
     (opacity l) (visible l) (autoLayout l) (isAbsolutelyPositioned l)
     (zIndex l) [] (Some svg) (sourceTag l).

Definition setItemSpacing (al : AutoLayoutConfig) (s : num) : AutoLayoutConfig :=
  mkAutoLayout (mode al) (primaryAxisAlignItems al) (counterAxisAlignItems al)
    (paddingTop al) (paddingRight al) (paddingBottom al) (paddingLeft al)
    s (primaryAxisSizingMode al) (counterAxisSizingMode al)
    (wrap al) (counterAxisStretch al).

Definition setCounterAlign (al : AutoLayoutConfig) (c : CounterAlign)
  : AutoLayoutConfig :=
  mkAutoLayout (mode al) (primaryAxisAlignItems al) c
    (paddingTop al) (paddingRight al) (paddingBottom al) (paddingLeft al)
    (itemSpacing al) (primaryAxisSizingMode al) (counterAxisSizingMode al)
    (wrap al) (counterAxisStretch al).

(** ** Pseudo-elements *)

Definition backslash : ascii := chr 92.
Definition twoQuotes (q : ascii) : string := String q (String q EmptyString).

(** [/^[QQ]|[QQ]$/g], [QQ] standing for the two quote characters. *)
Definition reOuterQuote : regex :=
  Alt (Seq Bol (Class isQuote)) (Seq (Class isQuote) Eol).

(** [/\\([0-9a-fA-F]{1,6})\s?/g] *)
Definition reEscape : regex :=
  seqs [ ch backslash; Cap 1 (rep 1 6 hexdigit); opt space ].

(** [String.fromCodePoint] throws a [RangeError] above U+10FFFF. *)
Definition escapeOutOfRange (escape : string) : bool :=
  match Parse.parseInt16 (drop 1 escape) with
  | Some cp => (1114111 <? cp)%Z
  | None => false
  end.

(** The unescaping of the content text.  Every escape is replaced by one
    code point, so the decoded text is empty exactly when the text it is
    decoded from is; only that and whether the decoding throws are
    represented. *)
Definition decodeThrows (stripped : string) : bool :=
  existsb escapeOutOfRange (matchAll reEscape stripped).

Definition isIconFontFamily (fontFamily : string) : bool :=
  includes fontFamily "Font Awesome" || includes fontFamily "Material" ||
  includes fontFamily "icon" || includes fontFamily "Icon".

Section Environment.

Variable resolveURL : string -> option string.

Definition capturePseudoElement (info : ElementInfo) (pseudo : Pseudo)
  : result (option LayerMeta) :=
  let styles := pseudoStyle info pseudo in
  let content := styles "content" in
  if isEmpty content || String.eqb content "none" || String.eqb content "normal"
     || String.eqb content (twoQuotes dquote)
     || String.eqb content (twoQuotes squote)
  then Ok None
  else if String.eqb (styles "display") "none"
          || String.eqb (styles "visibility") "hidden"
  then Ok None
  else
    let stripped := replaceAll reOuterQuote content "" in
    if decodeThrows stripped then Throw
    else
      let isTextContent := truthy stripped && negb (startsWith content "url(") in
      let fontFamily := styles "fontFamily" in
      let isIconFont := isTextContent && isIconFontFamily fontFamily in
      let drawn :=
        if isIconFont && truthy stripped then iconRaster info pseudo
        else NotDrawn in
      match drawn with
      | Drawn dataUrl =>
          let fontSize := fontSizeOr16 (styles "fontSize") in
          let elemRect := boundingClientRect info in
          let iconWidth := Num.orElse (DOMRect.width elemRect) fontSize in
          let iconHeight := Num.orElse (DOMRect.height elemRect) fontSize in
          Ok (Some (mk RECTANGLE (Num.ofZ 0) (Num.ofZ 0) iconWidth iconHeight
                       [IMAGE dataUrl FILL] None (parseOpacity styles) true
                       None false None [] None (Some (pseudoName pseudo))))
      | NotDrawn =>
          let fills := parseBackground resolveURL styles in
          let strokes := parseBorder styles in
          let opacity := parseOpacity styles in
          let width := floatOr0 (styles "width") in
          let height := floatOr0 (styles "height") in
          if (width =? Num.ofZ 0)%num && (height =? Num.ofZ 0)%num
             && negb isTextContent && (List.length fills =? 0)
          then Ok None
          else
            let position := styles "position" in
            Ok (Some (mk (if isTextContent then TEXT else FRAME)
                         (floatOr0 (styles "left")) (floatOr0 (styles "top"))
                         (Num.orElse width
                            (if isTextContent then Num.ofZ 100 else Num.ofZ 20))
                         (Num.orElse height (Num.ofZ 20))
                         fills strokes opacity true None
                         (String.eqb position "absolute"
                          || String.eqb position "fixed")
                         None [] None (Some (pseudoName pseudo))))
      end.

(** ** The layer of the element itself *)

Definition zIndexOf (styles : CSSStyleDeclaration) : Z :=
  match Parse.parseInt10 (styles "zIndex") with
  | Some z => z
  | None => 0%Z
  end.

(** The object literal [layer] of [convertElement]. *)
Definition baseLayer (info : ElementInfo) (options : RequiredOptions)
  (type : LayerType) : LayerMeta :=
  let styles := computedStyle info in
  let rect := boundingClientRect info in
  let position := styles "position" in
  let isFixed := String.eqb position "fixed" in
  let isSticky := String.eqb position "sticky" in
  let isAbsolute := String.eqb position "absolute" || isFixed || isSticky in
  let zIndex := zIndexOf styles in
  mk type
     (DOMRect.left rect - fst (rootOffset' options))%num
     (if isFixed || isSticky then Num.ofZ 0
      else (DOMRect.top rect - snd (rootOffset' options))%num)
     (DOMRect.width rect) (DOMRect.height rect)
     (parseBackground resolveURL styles) (parseBorder styles)
     (parseOpacity styles) true None isAbsolute
     (if isFixed || isSticky then Some (Z.max zIndex 1000)
      else if (zIndex =? 0)%Z then None else Some zIndex)
     [] None (Some (tagName info)).

(** Native check boxes and radio buttons get a default look. *)
Definition nativeControl (info : ElementInfo) (layer : LayerMeta) : LayerMeta :=
  let styles := computedStyle info in
  if String.eqb (tagName info) "INPUT"
     && (String.eqb (inputType info) "checkbox"
         || String.eqb (inputType info) "radio")
     && negb (String.eqb (styles "appearance") "none")
     && (List.length (fills layer) =? 0)
     && match strokes layer with None => true | Some _ => false end
  then
    let layer := setPaint layer
        [SOLID (Rgba (Num.ofZ 1) (Num.ofZ 1) (Num.ofZ 1) (Num.ofZ 1))]
        (Some (mkStroke (Rgba (Num.frac 796 1000) (Num.frac 835 1000)
                              (Num.frac 882 1000) (Num.ofZ 1))
                        (Num.frac 15 10) INSIDE None None)) in
    let layer := if (width layer <? Num.ofZ 16)%num
                 then setWidth layer (Num.ofZ 20) else layer in
    if (height layer <? Num.ofZ 16)%num
    then setHeight layer (Num.ofZ 20) else layer
  else layer.

(** A child of a flex container is widened to its [max-width]. *)
Definition expandToMaxWidth (info : ElementInfo) (layer : LayerMeta) : LayerMeta :=
  match parentDisplay info with
  | Some parentDisplay =>
      if String.eqb parentDisplay "flex" || String.eqb parentDisplay "inline-flex"
      then
        let maxWidth := computedStyle info "maxWidth" in
        if truthy maxWidth && negb (String.eqb maxWidth "none") then
          let maxW := Parse.parseFloat maxWidth in
          if (negb (Num.isNaN maxW) && (maxW >? width layer)
              && (maxW <=? width layer * Num.ofZ 3))%num
          then setWidth layer maxW else layer
        else layer
      else layer
  | None => layer
  end.

Definition objectFitScaleMode (objectFit : string) : ScaleMode :=
  if String.eqb objectFit "cover" then FILL
  else if String.eqb objectFit "contain" || String.eqb objectFit "scale-down"
  then FIT
  else if String.eqb objectFit "fill" || String.eqb objectFit "none" then CROP
  else FILL.

Definition imageFill (info : ElementInfo) (options : RequiredOptions)
  (layer : LayerMeta) : LayerMeta :=
  if String.eqb (toLowerCase (tagName info)) "img" && captureImages' options
     && truthy (src info)
  then setPaint layer
         [IMAGE (src info) (objectFitScaleMode (computedStyle info "objectFit"))]
         (strokes layer)
  else layer.

(** The [svg] shortcut: the layer returned at once, if any. *)
Definition svgLayer (info : ElementInfo) (layer : LayerMeta) : option LayerMeta :=
  if String.eqb (toLowerCase (tagName info)) "svg" then
    match sanitizedSvg info with
    | Some svg => if truthy svg then Some (setSvg layer svg) else None
    | None => None
    end
  else None.

(** ** Children *)

Definition isFixedOrSticky (styles : CSSStyleDeclaration) : bool :=
  String.eqb (styles "position") "fixed"
  || String.eqb (styles "position") "sticky".

(** First pass over [element.children]: the height of the tallest fixed
    or sticky child whose box starts less than 100 units from the top. *)
Definition fixedTopHeight (kids : list ChildNode) : num :=
  fold_left
    (fun acc child =>
       let childRect := boundingClientRect (infoOf child) in
       if isFixedOrSticky (computedStyle (infoOf child))
          && (DOMRect.top childRect <? Num.ofZ 100)%num
       then Num.max acc (DOMRect.height childRect) else acc)
    (elementChildren kids) (Num.ofZ 0).

(** Flow content is moved up by the height of a fixed header. *)
Definition adjustForFixedHeader (fixedTop : num) (childLayer : LayerMeta)
  : LayerMeta :=
  if negb (isAbsolutelyPositioned childLayer) && (fixedTop >? Num.ofZ 0)%num
  then
    if (Num.abs (y childLayer - fixedTop) <? Num.ofZ 20)%num
    then setY childLayer (Num.ofZ 0)
    else if (y childLayer >? fixedTop)%num
    then setY childLayer (y childLayer - fixedTop)%num
    else childLayer
  else childLayer.

Definition isPseudoLayer (c : LayerMeta) : bool :=
  match sourceTag c with
  | Some t => String.eqb t "::before" || String.eqb t "::after"
  | None => false
  end.

(** The box of the first direct text node that is not blank. *)
Fixpoint firstTextRange (kids : list ChildNode) : option DOMRect.t :=
  match kids with
  | [] => None
  | Txt d r :: k => if negb (isBlank d) then Some r else firstTextRange k
  | El _ :: k => firstTextRange k
  end.

Definition textPrimaryAlign (textAlign : string) : PrimaryAlign :=
  if String.eqb textAlign "center" then P_CENTER
  else if String.eqb textAlign "right" then P_MAX
  else P_MIN.

(** The auto-layout forced on a frame that holds text only; paddings
    come from the layout already on the layer when there is one. *)
Definition textOnlyAutoLayout (styles : CSSStyleDeclaration)
  (existingAL : option AutoLayoutConfig) : AutoLayoutConfig :=
  let pick (f : AutoLayoutConfig -> num) (prop : string) :=
    match existingAL with
    | Some al => f al
    | None => floatOr0 (styles prop)
    end in
  mkAutoLayout HORIZONTAL (textPrimaryAlign (styles "textAlign")) C_CENTER
    (pick paddingTop "paddingTop") (pick paddingRight "paddingRight")
    (pick paddingBottom "paddingBottom") (pick paddingLeft "paddingLeft")
    (Num.ofZ 0) FIXED FIXED None None.

Definition textLayer (textX textY textWidth textHeight : num) : LayerMeta :=
  mk TEXT textX textY (Num.max (Num.ofZ 1) textWidth)
     (Num.max (Num.ofZ 1) textHeight) [] None (Num.ofZ 1) true None false
     None [] None None.

(** The synthesized text child: the layer (its auto-layout may be
    replaced) and the children with the text child pushed. *)
Definition withTextChild (info : ElementInfo) (kids : list ChildNode)
  (layer : LayerMeta) (children : list LayerMeta)
  : LayerMeta * list LayerMeta :=
  let styles := computedStyle info in
  let rect := boundingClientRect info in
  let directText :=
    if List.length children =? 0 then getDirectTextContent info
    else getDirectTextNodesOnly kids in
  if truthy directText then
    let paddingTop := floatOr0 (styles "paddingTop") in
    let paddingRight := floatOr0 (styles "paddingRight") in
    let paddingBottom := floatOr0 (styles "paddingBottom") in
    let paddingLeft := floatOr0 (styles "paddingLeft") in
    let contentWidth := (DOMRect.width rect - paddingLeft - paddingRight)%num in
    let contentHeight := (DOMRect.height rect - paddingTop - paddingBottom)%num in
    let isTextOnly := (List.length children =? 0)
                      || forallb isPseudoLayer children in
    let layer :=
      if isTextOnly
      then setAutoLayout layer
             (Some (textOnlyAutoLayout styles (autoLayout layer)))
      else layer in
    let textChild :=
      match (if isTextOnly then None else firstTextRange kids) with
      | Some textRect =>
          textLayer
            (DOMRect.left textRect - DOMRect.left rect - paddingLeft)%num
            (DOMRect.top textRect - DOMRect.top rect - paddingTop)%num
            (Num.orElse (DOMRect.width textRect) contentWidth)
            (Num.orElse (DOMRect.height textRect) contentHeight)
      | None =>
          textLayer (Num.ofZ 0) (Num.ofZ 0) contentWidth contentHeight
      end in
    (layer, (children ++ [textChild])%list)
  else (layer, children).

(** ** Z-ordering *)

(** [a.zIndex || 0] *)
Definition zKey (l : LayerMeta) : Z :=
  match zIndex l with Some z => z | None => 0%Z end.

Fixpoint insertByZ (a : LayerMeta) (l : list LayerMeta) : list LayerMeta :=
  match l with
  | [] => [a]
  | b :: l' =>
      if (zKey a <=? zKey b)%Z then a :: b :: l' else b :: insertByZ a l'
  end.

(** [children.sort((a, b) => (a.zIndex || 0) - (b.zIndex || 0))].  The
    sort of arrays is stable, and a stable sort has one result: the one
    an insertion sort gives. *)
Definition sortByZIndex (children : list LayerMeta) : list LayerMeta :=
  fold_right insertByZ [] children.

(** ** Gap inference *)

Definition GAP_TOLERANCE : num := Num.ofZ 4.

Definition isFlow (c : LayerMeta) : bool := negb (isAbsolutelyPositioned c).

(** The gap between two consecutive flow children on the primary axis,
    never negative, rounded. *)
Definition gapBetween (isVertical : bool) (curr next : LayerMeta) : num :=
  let gap := if isVertical then (y next - (y curr + height curr))%num
             else (x next - (x curr + width curr))%num in
  Num.round (Num.max (Num.ofZ 0) gap).

Fixpoint pairGaps (isVertical : bool) (flowChildren : list LayerMeta)
  : list num :=
  match flowChildren with
  | curr :: rest =>
      match rest with
      | next :: _ => gapBetween isVertical curr next :: pairGaps isVertical rest
      | [] => []
      end
  | [] => []
  end.

(** [gaps.reduce((a, b) => a + b, 0)] *)
Definition sumGaps (gaps : list num) : num :=
  fold_left Num.add gaps (Num.ofZ 0).

Definition averageGap (gaps : list num) : num :=
  Num.round (sumGaps gaps / Num.ofNat (List.length gaps)).

(** The transparent frame put around a child to hold the extra gap. *)
Definition wrapper (counterAlign : CounterAlign) (isVertical : bool)
  (child : LayerMeta) (extraGap : num) : LayerMeta :=
  mk FRAME (x child) (y child) (width child)
     (height child + (if isVertical then extraGap else Num.ofZ 0))%num
     [] None (Num.ofZ 1) true
     (Some (mkAutoLayout (if isVertical then VERTICAL else HORIZONTAL)
              P_MIN counterAlign
              (Num.ofZ 0) (if isVertical then Num.ofZ 0 else extraGap)
              (if isVertical then extraGap else Num.ofZ 0) (Num.ofZ 0)
              (Num.ofZ 0) AUTO_SIZE AUTO_SIZE None None))
     false None
     [setGeometry child (Num.ofZ 0) (Num.ofZ 0) (width child) (height child)]
     None None.

(** The wrapping loop.  [flowChildGaps] is keyed by the child objects,
    which are pairwise distinct, and holds the gap after every flow child
    but the last: walking the children and the gaps together gives the
    same look-ups. *)
Fixpoint wrapChildren (counterAlign : CounterAlign) (isVertical : bool)
  (minGap : num) (children : list LayerMeta) (gaps : list num)
  : list LayerMeta :=
  match children with
  | [] => []
  | child :: rest =>
      if isFlow child then
        match gaps with
        | gapAfter :: gaps' =>
            (if (gapAfter >? minGap + GAP_TOLERANCE)%num
             then wrapper counterAlign isVertical child (gapAfter - minGap)%num
             else child)
            :: wrapChildren counterAlign isVertical minGap rest gaps'
        | [] => child :: wrapChildren counterAlign isVertical minGap rest []
        end
      else child :: wrapChildren counterAlign isVertical minGap rest gaps
  end.

(** [layer.autoLayout.mode === 'VERTICAL'] *)
Definition isVerticalMode (al : AutoLayoutConfig) : bool :=
  match mode al with VERTICAL => true | HORIZONTAL => false end.

Definition isFlexOrGrid (display : string) : bool :=
  inList display ["flex"; "inline-flex"; "grid"; "inline-grid"].

(** The spacing pass on an auto-layout [al] and the finished children. *)
Definition inferGaps (display : string) (al : AutoLayoutConfig)
  (children : list LayerMeta) : AutoLayoutConfig * list LayerMeta :=
  let flowChildren := filter isFlow children in
  if (2 <=? List.length children) && (2 <=? List.length flowChildren) then
    let isVertical := isVerticalMode al in
    let gaps := pairGaps isVertical flowChildren in
    if 0 <? List.length gaps then
      if isFlexOrGrid display then
        let cssGap := itemSpacing al in
        let avgGap := averageGap gaps in
        if (Num.abs (avgGap - cssGap) >? Num.ofZ 4)%num
        then (setItemSpacing al avgGap, children)
        else (al, children)
      else
        let minGap := Num.minList gaps in
        let maxGap := Num.maxList gaps in
        let avgGap := averageGap gaps in
        if (maxGap - minGap <=? GAP_TOLERANCE)%num
        then (setItemSpacing al avgGap, children)
        else (setItemSpacing al minGap,
              wrapChildren (counterAxisAlignItems al) isVertical minGap
                           children gaps)
    else (al, children)
  else (al, children).

(** ** Cross-axis centering *)

Definition isNarrow (contentWidth : num) (child : LayerMeta) : bool :=
  ((contentWidth >? Num.ofZ 0) && (width child <? contentWidth - Num.ofZ 2))%num.

Definition isCentered (pLeft contentWidth : num) (child : LayerMeta) : bool :=
  let expectedCenterX := (pLeft + (contentWidth - width child) / Num.ofZ 2)%num in
  (Num.abs (x child - expectedCenterX) <? Num.ofZ 8)%num.

Definition detectCentering (layerWidth : num) (al : AutoLayoutConfig)
  (children : list LayerMeta) : AutoLayoutConfig :=
  match mode al with
  | VERTICAL =>
      let flowChildren := filter isFlow children in
      if 0 <? List.length flowChildren then
        let pLeft := Num.orElse (paddingLeft al) (Num.ofZ 0) in
        let pRight := Num.orElse (paddingRight al) (Num.ofZ 0) in
        let contentWidth := (layerWidth - pLeft - pRight)%num in
        let narrow := filter (isNarrow contentWidth) flowChildren in
        let centeredCount :=
          List.length (filter (isCentered pLeft contentWidth) narrow) in
        let fullWidthCount := List.length flowChildren - List.length narrow in
        let nonFullWidthChildren := List.length flowChildren - fullWidthCount in
        if (0 <? nonFullWidthChildren)
           && (Num.ofNat centeredCount
               >? Num.ofNat nonFullWidthChildren / Num.ofZ 2)%num
        then setCounterAlign al C_CENTER else al
      else al
  | HORIZONTAL => al
  end.

(** Everything [convertElement] does to the children once the element
    children are converted: the text child, the sort, the two
    pseudo-elements, the spacing pass and the centering pass. *)
Definition finishChildren (info : ElementInfo) (kids : list ChildNode)
  (layer : LayerMeta) (children : list LayerMeta) : result LayerMeta :=
  let '(layer, children) := withTextChild info kids layer children in
  let children := sortByZIndex children in
  do beforeElement <- capturePseudoElement info before;
  let children := match beforeElement with
                  | Some b => b :: children
                  | None => children
                  end in
  do afterElement <- capturePseudoElement info after;
  let children := match afterElement with
                  | Some a => (children ++ [a])%list
                  | None => children
                  end in
  let '(al, children) :=
    match autoLayout layer with
    | Some al =>
        let '(al, children) :=
          inferGaps (computedStyle info "display") al children in
        (Some (detectCentering (width layer) al children), children)
    | None => (None, children)
    end in
  Ok (setChildren (setAutoLayout layer al) children).

(** The guards of [convertElement]: the cases in which it returns
    [null].  The depth test comes first. *)
Definition skipped (info : ElementInfo) (options : RequiredOptions)
  (depth : nat) : bool :=
  (Num.ofNat depth >? maxDepth' options)%num
  || isNonVisualElement (toLowerCase (tagName info))
  || (negb (includeHidden' options) && negb (isVisible (computedStyle info)))
  || ((DOMRect.width (boundingClientRect info) =? Num.ofZ 0)
      && (DOMRect.height (boundingClientRect info) =? Num.ofZ 0))%num.

(** The layer as it stands before the children are processed, or the
    finished layer of an [svg] element. *)
Definition prepareLayer (info : ElementInfo) (kids : list ChildNode)
  (options : RequiredOptions) : LayerMeta + LayerMeta :=
  let type := determineLayerType info kids in
  let layer := baseLayer info options type in
  let layer := nativeControl info layer in
  let layer := expandToMaxWidth info layer in
  match svgLayer info layer with
  | Some done => inl done
  | None =>
      let layer := imageFill info options layer in
      inr (setAutoLayout layer (parseAutoLayout (computedStyle info)))
  end.

Definition childOptionsOf (info : ElementInfo) (options : RequiredOptions)
  : RequiredOptions :=
  mkRequiredOptions (includeHidden' options) (maxDepth' options)
    (DOMRect.left (boundingClientRect info),
     DOMRect.top (boundingClientRect info))
    (captureImages' options).

(** The loop over [element.children]: each child is converted, a
    converted child is adjusted for a fixed header and pushed. *)
Definition convertChildrenWith
  (convert : Element -> result (option LayerMeta)) (fixedTop : num)
  : list ChildNode -> result (list LayerMeta) :=
  fix loop (l : list ChildNode) : result (list LayerMeta) :=
    match l with
    | [] => Ok []
    | Txt _ _ :: l' => loop l'
    | El child :: l' =>
        do childLayer <- convert child;
        do rest <- loop l';
        Ok (match childLayer with
            | Some c => adjustForFixedHeader fixedTop c :: rest
            | None => rest
            end)
    end.

Fixpoint convertElement (element : Element) (options : RequiredOptions)
  (depth : nat) {struct element} : result (option LayerMeta) :=
  match element with
  | Elem info kids =>
      if skipped info options depth then Ok None
      else
        match prepareLayer info kids options with
        | inl done => Ok (Some done)
        | inr layer =>
            match type layer with
            | TEXT => Ok (Some layer)
            | _ =>
                do children <-
                  convertChildrenWith
                    (fun child =>
                       convertElement child (childOptionsOf info options)
                                      (S depth))
                    (fixedTopHeight kids) kids;
                do layer <- finishChildren info kids layer children;
                Ok (Some layer)
            end
        end
  end.

Definition domToLayer (element : Element) (options : ConversionOptions)
  : result (option LayerMeta) :=
  convertElement element (mergeOptions options) 0.

End Environment.

End DomToLayer.

(* ================================================================== *)
(** * Vocabulary of the properties *)
(* ================================================================== *)

Module Props.

Import Js ColorUtils StyleParser DomToLayer Layer.

(** A channel value is a finite number of [0, 1]. *)
Definition channelOk (c : option num) : Prop :=
  match c with
  | Some v => Num.within 0 1 v
  | None => False
  end.

(** All four channels are numbers of [0, 1]; in particular none is NaN. *)
Definition clamped (c : RGBA) : Prop := Forall channelOk (channels c).

Definition isImageOrGradient (p : Paint) : Prop :=
  match p with
  | SOLID _ => False
  | _ => True
  end.

(** A property of every node of a layer tree. *)
Inductive allNodes (P : LayerMeta -> Prop) : LayerMeta -> Prop :=
| allNodes_node : forall l,
    P l -> Forall (allNodes P) (children l) -> allNodes P l.

(** A list of layers in non-decreasing order of resolved z-index. *)
Definition zSorted (l : list LayerMeta) : Prop :=
  StronglySorted Z.le (map zKey l).

(** A gap wrapper as it can be told apart in a finished tree: a frame
    that comes from no element. *)
Definition isWrapperLayer (c : LayerMeta) : bool :=
  match type c, sourceTag c with
  | FRAME, None => true
  | _, _ => false
  end.

(** The gap recorded after the child at index [i]: the entry of [gaps]
    at the rank of that child among the flow children, when the child is
    a flow child. *)
Definition flowRank (children : list LayerMeta) (i : nat) : nat :=
  List.length (filter isFlow (firstn i children)).

Definition gapAfter (children : list LayerMeta) (gaps : list num) (i : nat)
  : option num :=
  match nth_error children i with
  | Some child =>
      if isFlow child then nth_error gaps (flowRank children i) else None
  | None => None
  end.

(** What the wrapping pass leaves at an index. *)
Definition wrappedOrSame (counterAlign : CounterAlign) (isVertical : bool)
  (minGap : num) (child : LayerMeta) (gap : option num) : LayerMeta :=
  match gap with
  | Some g =>
      if (g >? minGap + GAP_TOLERANCE)%num
      then wrapper counterAlign isVertical child (g - minGap)%num
      else child
  | None => child
  end.

(** The gaps the spacing pass measures for a layout and its children. *)
Definition measuredGaps (al : AutoLayoutConfig) (children : list LayerMeta)
  : list num :=
  pairGaps (isVerticalMode al) (filter isFlow children).

(** The colour [parseBackground] resolves [background-color] to: parsed
    with the text colour as fallback. *)
Definition resolvedBackgroundColor (styles : CSSStyleDeclaration) : RGBA :=
  parseColor (styles "backgroundColor") (Some (parseColor (styles "color") None)).

Definition optList {A : Type} (o : option A) : list A :=
  match o with Some v => [v] | None => [] end.





Definition shown (n : LayerMeta) : Prop := visible n = true.

(** The parenthesis depth reached at the end of [s] when [s], read from
    depth [depth], holds no comma at depth 0; [None] when it holds one. *)
Fixpoint scanDepth (s : string) (depth : Z) : option Z :=
  match s with
  | EmptyString => Some depth
  | String c s' =>
      let d1 := if Ascii.eqb c "(" then (depth + 1)%Z else depth in
      let d2 := if Ascii.eqb c ")" then (d1 - 1)%Z else d1 in
      if Ascii.eqb c "," && (d2 =? 0)%Z then None else scanDepth s' d2
  end.

(** ** Sample inputs *)

Definition noURL : string -> option string := fun _ => None.


Definition box (l t w h : Z) : DOMRect.t :=
  DOMRect.mk (Num.ofZ l) (Num.ofZ t) (Num.ofZ w) (Num.ofZ h).

Definition noPseudo : Pseudo -> list (string * string) := fun _ => [].

(** An element inside a block container, described by its tag, its
    computed style, the computed styles of its two pseudo-elements, its
    box and its child nodes. *)
Definition element (tag : string) (style : list (string * string))
  (pseudo : Pseudo -> list (string * string)) (rect : DOMRect.t)
  (kids : list ChildNode) : Element :=
  Elem (mkInfo tag "" "" "" (styleOf style) rect (Some "block")
               (fun p => styleOf (pseudo p)) (fun _ => NotDrawn) None)
       kids.

Definition block : list (string * string) := [("display", "block")].

(** A block of height 10 whose box starts at [top]. *)
Definition row (top : Z) : ChildNode :=
  El (element "DIV" block noPseudo (box 0 top 100 10) []).

(** Three siblings at y = 0, 20, 40 (gaps 10 and 10); at y = 0, 20, 60
    (gaps 10 and 30); at y = 0, 20, 43 (gaps 10 and 13). *)
Definition evenRows : Element :=
  element "DIV" block noPseudo (box 0 0 100 50) [row 0; row 20; row 40].
Definition unevenRows : Element :=
  element "DIV" block noPseudo (box 0 0 100 70) [row 0; row 20; row 60].
Definition nearRows : Element :=
  element "DIV" block noPseudo (box 0 0 100 53) [row 0; row 20; row 43].

(** The layers of such rows and the layout of their block container. *)
Definition rowLayer (top : Z) : LayerMeta :=
  mk FRAME (Num.ofZ 0) (Num.ofZ top) (Num.ofZ 100) (Num.ofZ 10) [] None
     (Num.ofZ 1) true
     (Some (mkAutoLayout VERTICAL P_MIN C_MIN (Num.ofZ 0) (Num.ofZ 0)
              (Num.ofZ 0) (Num.ofZ 0) (Num.ofZ 0) AUTO_SIZE AUTO_SIZE None None))
     false None [] None (Some "DIV").

Definition blockLayout : AutoLayoutConfig :=
  mkAutoLayout VERTICAL P_MIN C_MIN (Num.ofZ 0) (Num.ofZ 0) (Num.ofZ 0)
    (Num.ofZ 0) (Num.ofZ 0) AUTO_SIZE AUTO_SIZE None None.

Definition rows (a b c : Z) : list LayerMeta :=
  [rowLayer a; rowLayer b; rowLayer c].





(** A visible block 100 wide and 0 high. *)
Definition flatBlock : Element :=
  element "DIV" block noPseudo (box 0 0 100 0) [].

(** A [display: none] block with 6px of left padding holding the text
    "hello". *)
Definition hiddenBlock : Element :=
  Elem (mkInfo "DIV" "" "" "hello"
               (styleOf [("display", "none"); ("paddingLeft", "6px")])
               (box 0 0 100 20) (Some "block")
               (fun _ => styleOf []) (fun _ => NotDrawn) None)
       [Txt "hello" (box 6 0 40 20)].

Definition includeHiddenOptions : ConversionOptions :=
  mkConversionOptions (Some true) None None None.

(** The style of the overlay test: a half-transparent colour under an
    image. *)
Definition overlayStyle : CSSStyleDeclaration :=
  styleOf [ ("backgroundColor", "rgba(0, 0, 0, 0.5)");
            ("backgroundImage", "url(https://example.com/image.jpg)");
            ("color", "rgb(0, 0, 0)") ].

Definition shadowStyle : CSSStyleDeclaration :=
  styleOf [ ("boxShadow", "2px 4px 6px rgba(0,0,0,0.25)") ].

Definition red : RGBA := Rgba (Num.ofZ 1) (Num.ofZ 0) (Num.ofZ 0) (Num.ofZ 1).

End Props.

(** Induction on an element whose hypothesis covers its element
    children. *)
Section ElementInduction.
Variable P : Element -> Prop.
Hypothesis step : forall info kids,
    Forall P (elementChildren kids) -> P (Elem info kids).

Fixpoint Element_children_ind (e : Element) : P e :=
  match e with
  | Elem info kids =>
      step info kids
        ((fix go (l : list ChildNode) : Forall P (elementChildren l) :=
            match l with
            | [] => Forall_nil P
            | Txt _ _ :: l' => go l'
            | El c :: l' => Forall_cons c (Element_children_ind c) (go l')
            end) kids)
  end.
End ElementInduction.

(* ================================================================== *)
(** * [converters/color-utils.ts], the writers *)
(* ================================================================== *)

Module ColorConvert.

Import Js ColorUtils.

(** The four channels as numbers: a property that is missing reads as
    [undefined], which is NaN in arithmetic and in comparisons. *)
Definition channelNums (c : RGBA) : num * num * num * num :=
  match c with
  | Rgba r g b a => (r, g, b, a)
  | ProtoMember _ => (NaN, NaN, NaN, NaN)
  end.

Definition hexDigitChar (d : Z) : ascii :=
  if (d <? 10)%Z then chr (Z.to_nat d + 48) else chr (Z.to_nat d + 87).

(** The hexadecimal digits of a non-negative integer, most significant
    first; [fuel] bounds the number of digits after the first. *)
Fixpoint hexDigitsOf (fuel : nat) (n : Z) (acc : string) : string :=
  let acc' := String (hexDigitChar (n mod 16)) acc in
  match fuel with
  | O => acc'
  | S fuel' => if (n / 16 =? 0)%Z then acc' else hexDigitsOf fuel' (n / 16) acc'
  end.

(** [n.toString(16)] for an integer [n]. *)
Definition intToString16 (n : Z) : string :=
  if (n <? 0)%Z
  then String "-" (hexDigitsOf (Z.to_nat (Z.log2 (- n))) (- n) EmptyString)
  else hexDigitsOf (Z.to_nat (Z.log2 n)) n EmptyString.

(** [Math.round(x).toString(16)] *)
Definition roundToString16 (x : num) : string :=
  match Num.round x with
  | Fin q => intToString16 (Qfloor q)
  | PInf => "Infinity"
  | NInf => "-Infinity"
  | NaN => "NaN"
  end.

Fixpoint repeatChar (n : nat) (c : ascii) : string :=
  match n with
  | O => EmptyString
  | S n' => String c (repeatChar n' c)
  end.

(** [s.padStart(n, c)] for a one-character filler. *)
Definition padStart (n : nat) (c : ascii) (s : string) : string :=
  repeatChar (n - String.length s) c ++ s.

(** [Math.round(v * 255).toString(16).padStart(2, '0')] *)
Definition hexByte (v : num) : string :=
  padStart 2 "0" (roundToString16 (v * Num.ofZ 255)%num).

(** [rgbaToHex(color, includeAlpha = false)] *)
Definition rgbaToHex (color : RGBA) (includeAlpha : bool) : string :=
  let '(cr, cg, cb, ca) := channelNums color in
  let r := hexByte cr in
  let g := hexByte cg in
  let b := hexByte cb in
  if includeAlpha && (ca <? Num.ofZ 1)%num then
    let a := hexByte ca in
    "#" ++ r ++ g ++ b ++ a
  else "#" ++ r ++ g ++ b.

(** [blendColors(top, bottom)] *)
Definition blendColors (top bottom : RGBA) : RGBA :=
  let '(tr, tg, tb, ta) := channelNums top in
  let '(br, bg, bb, ba) := channelNums bottom in
  let a := (ta + ba * (Num.ofZ 1 - ta))%num in
  if (a =? Num.ofZ 0)%num then
    Rgba (Num.ofZ 0) (Num.ofZ 0) (Num.ofZ 0) (Num.ofZ 0)
  else
    Rgba ((tr * ta + br * ba * (Num.ofZ 1 - ta)) / a)%num
         ((tg * ta + bg * ba * (Num.ofZ 1 - ta)) / a)%num
         ((tb * ta + bb * ba * (Num.ofZ 1 - ta)) / a)%num
         a.

End ColorConvert.

(* ================================================================== *)
(** * [converters/style-parser.ts], text shadows and positioning *)
(* ================================================================== *)

Module StyleParserExtra.

Import Js Regex ColorUtils StyleParser.

(** [parseSingleTextShadow]: the steps of [parseSingleShadow] without the
    [inset] keyword and without a spread. *)
Definition parseSingleTextShadow (shadowStr : string) : option ShadowEffect :=
  let cleanShadow := trim shadowStr in
  let '(color, cleanShadow) := extractShadowColor cleanShadow in
  let numbers := shadowNumbers cleanShadow in
  if List.length numbers <? 2 then None
  else
    Some (mkShadow DROP_SHADOW color
                   (nthOr0 numbers 0) (nthOr0 numbers 1) (nthOr0 numbers 2)
                   (Num.ofZ 0) true).

Definition parseTextShadow (styles : CSSStyleDeclaration) : list Effect :=
  let textShadow := styles "textShadow" in
  if isEmpty textShadow || String.eqb textShadow "none" then []
  else map Shadow (filterMap parseSingleTextShadow (splitShadows textShadow)).

(** [isAbsolutelyPositioned(styles)] *)
Definition isAbsolutelyPositioned (styles : CSSStyleDeclaration) : bool :=
  let position := styles "position" in
  String.eqb position "absolute" || String.eqb position "fixed".

End StyleParserExtra.

(* ================================================================== *)
(** * [converters/dom-to-layer.ts], the two entry points *)
(* ================================================================== *)

Module Capture.

Import DomToLayer.

Section Environment.

Variable resolveURL : string -> option string.

(** The body shared by [captureDocument] and [captureElement]: nothing
    found gives [null]; an element found is converted with the corner of
    its own box as the root offset. *)
Definition captureFrom (found : option Element) : result (option LayerMeta) :=
  match found with
  | None => Ok None
  | Some element =>
      let rect := boundingClientRect (infoOf element) in
      domToLayer resolveURL element
        (mkConversionOptions None None
           (Some (DOMRect.left rect, DOMRect.top rect)) None)
  end.

(** [captureDocument()]; [body] is [document.body]. *)
Definition captureDocument (body : option Element) : result (option LayerMeta) :=
  captureFrom body.

(** [captureElement(selector)]; [querySelector] is
    [document.querySelector]. *)
Definition captureElement (querySelector : string -> option Element)
  (selector : string) : result (option LayerMeta) :=
  captureFrom (querySelector selector).

End Environment.

End Capture.

(* ================================================================== *)
(** * The Figma plugin: [layout-engine.ts] *)
(* ================================================================== *)

Module LayoutEngine.

Import Layer DomToLayer.

(** [transformToFrameCoordinates(layer)]: the root moves to (0, 0), the
    children keep their positions. *)
Definition transformToFrameCoordinates (layer : LayerMeta) : LayerMeta :=
  setGeometry layer (Num.ofZ 0) (Num.ofZ 0) (width layer) (height layer).

(** The closure [traverse] of [measureLayerBounds]; the object [bounds]
    it updates is passed along. *)
Fixpoint traverse (node : LayerMeta) (parentX parentY : num)
  (bounds : num * num) {struct node} : num * num :=
  match node with
  | mk _ nx ny nw nh _ _ _ _ _ _ _ kids _ _ =>
      let x := (parentX + nx)%num in
      let y := (parentY + ny)%num in
      let bounds := (Num.max (fst bounds) (x + nw)%num,
                     Num.max (snd bounds) (y + nh)%num) in
      fold_left (fun b child => traverse child x y b) kids bounds
  end.

(** [measureLayerBounds(layer)]: the pair [(maxX, maxY)]. *)
Definition measureLayerBounds (layer : LayerMeta) : num * num :=
  traverse layer (Num.ofZ 0) (Num.ofZ 0) (Num.ofZ 0, Num.ofZ 0).

End LayoutEngine.

(* ================================================================== *)
(** * [figma-plugin], placing a new import beside the selection *)
(* ================================================================== *)

Module Placement.

(** The fields of a [SceneNode] that [getBounds] reads, and the box it
    returns. *)
Record Box : Type := mkBox {
  x : num;
  y : num;
  width : num;
  height : num
}.

Definition SceneNode : Type := Box.

(** The four running values of the loop of [getBounds]. *)
Definition extend (acc : num * num * num * num) (node : SceneNode)
  : num * num * num * num :=
  let '(minX, minY, maxX, maxY) := acc in
  (Num.min minX (x node), Num.min minY (y node),
   Num.max maxX (x node + width node)%num,
   Num.max maxY (y node + height node)%num).

(** [getBounds(nodes)] *)
Definition getBounds (nodes : list SceneNode) : Box :=
  let '(minX, minY, maxX, maxY) :=
    fold_left extend nodes (PInf, PInf, NInf, NInf) in
  mkBox minX minY (maxX - minX)%num (maxY - minY)%num.

(** [calculatePosition()]; [selection] is [figma.currentPage.selection]
    and [center] is [figma.viewport.center]. *)
Definition calculatePosition (selection : list SceneNode) (center : num * num)
  : num * num :=
  if 0 <? List.length selection then
    let bounds := getBounds selection in
    ((x bounds + width bounds + Num.ofZ 100)%num, y bounds)
  else ((fst center - Num.ofZ 400)%num, (snd center - Num.ofZ 300)%num).

End Placement.

(* ================================================================== *)
(** * The Figma plugin: [node-factory.ts] *)
(* ================================================================== *)

Module NodeFactory.

Import Js ColorUtils.

(** ** Font names *)

(** What [mapFontFamily] hands back: a font name, or the member of
    [Object.prototype] that a look-up in one of the three tables finds
    under an inherited key. *)
Inductive FontName : Type :=
| Font (name : string)
| Inherited (key : string).

Definition sansSerifMap : list (string * string) :=
  [ ("arial", "Inter"); ("helvetica", "Inter"); ("helvetica neue", "Inter");
    ("system-ui", "Inter"); ("-apple-system", "Inter");
    ("blinkmacsystemfont", "Inter"); ("segoe ui", "Inter");
    ("roboto", "Roboto"); ("open sans", "Open Sans"); ("lato", "Lato");
    ("montserrat", "Montserrat"); ("poppins", "Poppins"); ("nunito", "Nunito");
    ("raleway", "Raleway"); ("ubuntu", "Ubuntu");
    ("source sans pro", "Source Sans Pro"); ("noto sans", "Noto Sans");
    ("noto sans kr", "Noto Sans KR"); ("noto sans jp", "Noto Sans JP");
    ("pretendard", "Pretendard"); ("spoqa han sans", "Noto Sans KR");
    ("spoqa han sans neo", "Noto Sans KR") ].

Definition serifMap : list (string * string) :=
  [ ("times", "Times New Roman"); ("times new roman", "Times New Roman");
    ("georgia", "Georgia"); ("playfair display", "Playfair Display");
    ("merriweather", "Merriweather"); ("lora", "Lora");
    ("noto serif", "Noto Serif") ].

Definition monoMap : list (string * string) :=
  [ ("courier", "Roboto Mono"); ("courier new", "Roboto Mono");
    ("monaco", "Roboto Mono"); ("menlo", "Roboto Mono");
    ("consolas", "Roboto Mono"); ("source code pro", "Source Code Pro");
    ("fira code", "Fira Code"); ("jetbrains mono", "JetBrains Mono") ].

Fixpoint ownFont (k : string) (t : list (string * string)) : option string :=
  match t with
  | (k', v) :: t' => if String.eqb k k' then Some v else ownFont k t'
  | [] => None
  end.

(** [table[k]] when it is truthy: an own entry (every one is a non-empty
    string) or a member inherited from [Object.prototype] (every one is a
    function or an object). *)
Definition tableGet (t : list (string * string)) (k : string) : option FontName :=
  match ownFont k t with
  | Some v => Some (Font v)
  | None => if inList k objectPrototypeKeys then Some (Inherited k) else None
  end.

(** [mapFontFamily(webFont)] *)
Definition mapFontFamily (webFont : string) : FontName :=
  let fontLower := toLowerCase webFont in
  match tableGet sansSerifMap fontLower with
  | Some v => v
  | None =>
  match tableGet serifMap fontLower with
  | Some v => v
  | None =>
  match tableGet monoMap fontLower with
  | Some v => v
  | None =>
    if String.eqb fontLower "sans-serif" || String.eqb fontLower "ui-sans-serif"
    then Font "Inter"
    else if String.eqb fontLower "serif" || String.eqb fontLower "ui-serif"
    then Font "Times New Roman"
    else if String.eqb fontLower "monospace" || String.eqb fontLower "ui-monospace"
    then Font "Roboto Mono"
    else if String.eqb fontLower "cursive" then Font "Inter"
    else if String.eqb fontLower "fantasy" then Font "Inter"
    else if String.eqb fontLower "ui-rounded" then Font "Inter"
    else Font webFont
  end end end.

(** ** Base64 *)

Definition base64Chars : string :=
  "ABCDEFGHIJKLMNOPQRSTUVWXYZabcdefghijklmnopqrstuvwxyz0123456789+/".

(** [lookup[base64.charCodeAt(i)]] as the operand of a bit operation: the
    index of the code unit in [chars]; 0 for a code unit that is not in
    [chars] (the table is zero-filled) and 0 past the end of the text
    ([lookup[NaN]] is [undefined]). *)
Definition lookup (c : option ascii) : Z :=
  match c with
  | Some ch =>
      match indexOf base64Chars (str1 ch) with
      | Some i => Z.of_nat i
      | None => 0%Z
      end
  | None => 0%Z
  end.

(** The value of [len] after
    [while (len > 0 && base64[len - 1] === '=') len--]: the length of the
    text without its trailing run of [=]. *)
Fixpoint unpaddedLength (base64 : string) : nat :=
  match base64 with
  | EmptyString => 0
  | String c s' =>
      let n := unpaddedLength s' in
      if (n =? 0) && Ascii.eqb c "=" then 0 else S n
  end.

(** [bytes[p] = v] on a [Uint8Array]: the value is stored modulo 256 and
    a write past the end is ignored. *)
Fixpoint writeByte (bytes : list Z) (p : nat) (v : Z) : list Z :=
  match bytes, p with
  | [], _ => []
  | _ :: t, O => (v mod 256)%Z :: t
  | h :: t, S p' => h :: writeByte t p' v
  end.

(** The three writes of one round of the loop, on the four table entries
    read; the state is [p] and the array. *)
Definition decodeRound (bufferLength : nat) (e1 e2 e3 e4 : Z)
  (st : nat * list Z) : nat * list Z :=
  let '(p, bytes) := st in
  let bytes := writeByte bytes p (Z.lor (Z.shiftl e1 2) (Z.shiftr e2 4)) in
  let p := S p in
  let '(p, bytes) :=
    if p <? bufferLength
    then (S p, writeByte bytes p
                 (Z.lor (Z.shiftl (Z.land e2 15) 4) (Z.shiftr e3 2)))
    else (p, bytes) in
  if p <? bufferLength
  then (S p, writeByte bytes p (Z.lor (Z.shiftl (Z.land e3 3) 6) (Z.land e4 63)))
  else (p, bytes).

(** [for (let i = 0; i < base64.length; i += 4)]: the text is read four
    code units at a time, the last round reading what is left. *)
Fixpoint decodeLoop (bufferLength : nat) (base64 : string) (st : nat * list Z)
  : nat * list Z :=
  match base64 with
  | EmptyString => st
  | String c1 (String c2 (String c3 (String c4 rest))) =>
      decodeLoop bufferLength rest
        (decodeRound bufferLength (lookup (Some c1)) (lookup (Some c2))
                     (lookup (Some c3)) (lookup (Some c4)) st)
  | String c1 (String c2 (String c3 EmptyString)) =>
      decodeRound bufferLength (lookup (Some c1)) (lookup (Some c2))
                  (lookup (Some c3)) (lookup None) st
  | String c1 (String c2 EmptyString) =>
      decodeRound bufferLength (lookup (Some c1)) (lookup (Some c2))
                  (lookup None) (lookup None) st
  | String c1 EmptyString =>
      decodeRound bufferLength (lookup (Some c1)) (lookup None)
                  (lookup None) (lookup None) st
  end.

(** [decodeBase64ToUint8Array(base64)]: the bytes of the array
    returned. *)
Definition decodeBase64ToUint8Array (base64 : string) : list Z :=
  let len := unpaddedLength base64 in
  let bufferLength := len * 3 / 4 in
  snd (decodeLoop bufferLength base64 (0, repeat 0%Z bufferLength)).

End NodeFactory.

(* ================================================================== *)
(** * Vocabulary of the further properties *)
(* ================================================================== *)

Module MoreProps.

Import Js ColorUtils StyleParser DomToLayer Layer Props.
Import ColorConvert LayoutEngine NodeFactory.

(** ** Numbers *)

(** [x] is a finite number of value [q]. *)
Definition numIs (x : num) (q : Q) : Prop :=
  match x with Fin p => (p == q)%Q | _ => False end.

Definition isFinite (v : num) : Prop :=
  match v with Fin _ => True | _ => False end.

(** A whole number that is not negative. *)
Definition wholeNonNegative (v : num) : Prop :=
  exists z, (0 <= z)%Z /\ v = Num.ofZ z.

(** ** Colours *)

(** [c] has four finite channels of the given values. *)
Definition colourIs (c : RGBA) (r g b a : Q) : Prop :=
  match c with
  | Rgba x y z w => numIs x r /\ numIs y g /\ numIs z b /\ numIs w a
  | ProtoMember _ => False
  end.

(** [c] has four channels and its alpha is [a]. *)
Definition alphaIs (c : RGBA) (a : Q) : Prop :=
  match c with
  | Rgba _ _ _ w => numIs w a
  | ProtoMember _ => False
  end.

(** The byte a channel is written as, read back as a channel. *)
Definition quantized (v : num) : num :=
  (Num.round (v * Num.ofZ 255) / Num.ofZ 255)%num.

Fixpoint allHexDigits (s : string) : bool :=
  match s with
  | EmptyString => true
  | String c s' => isHexDigit c && allHexDigits s'
  end.

(** ** Parentheses *)

(** The parenthesis depth after one code unit. *)
Definition depthStep (c : ascii) (depth : nat) : nat :=
  let d1 := if Ascii.eqb c "(" then S depth else depth in
  if Ascii.eqb c ")" then d1 - 1 else d1.

(** The depth after [s], read from [depth]; [None] when the depth comes
    down to 0 on the way. *)
Fixpoint depthAfter (s : string) (depth : nat) : option nat :=
  match s with
  | EmptyString => Some depth
  | String c s' =>
      match depthStep c depth with
      | O => None
      | d => depthAfter s' d
      end
  end.

(** [s] closes every parenthesis it opens and no other. *)
Definition balancedText (s : string) : Prop := depthAfter s 1 = Some 1.

(** ** Styles *)

(** What a text shadow always is: a visible drop shadow without spread
    whose numbers are numbers. *)
Definition isPlainDropShadow (e : Effect) : Prop :=
  match e with
  | Shadow s =>
      shadowType s = DROP_SHADOW /\ spread s = Num.ofZ 0
      /\ shadowVisible s = true
      /\ offsetX s <> NaN /\ offsetY s <> NaN /\ radius s <> NaN
  | Blur _ _ => False
  end.

(** The spread set to 0. *)
Definition withoutSpread (s : ShadowEffect) : ShadowEffect :=
  mkShadow (shadowType s) (shadowColor s) (offsetX s) (offsetY s) (radius s)
           (Num.ofZ 0) (shadowVisible s).

(** The four side widths [parseBorder] reads. *)
Definition sideWidths (styles : CSSStyleDeclaration) : list num :=
  map (fun p => floatOr0 (styles p))
      ["borderTopWidth"; "borderRightWidth"; "borderBottomWidth"; "borderLeftWidth"].

(** The [display] values that get an auto-layout. *)
Definition layoutDisplays : list string :=
  [ "grid"; "inline-grid"; "flex"; "inline-flex"; "block"; "list-item";
    "flow-root"; "table"; "table-row-group"; "table-row"; "inline-block";
    "inline"; "table-cell" ].

(** No padding and no spacing of the layout is NaN. *)
Definition layoutNumbersDefined (al : AutoLayoutConfig) : Prop :=
  paddingTop al <> NaN /\ paddingRight al <> NaN /\ paddingBottom al <> NaN
  /\ paddingLeft al <> NaN /\ itemSpacing al <> NaN.

(** [hasBackground] of [determineLayerType]. *)
Definition hasBackground (styles : CSSStyleDeclaration) : bool :=
  let bgColor := styles "backgroundColor" in
  truthy bgColor && negb (String.eqb bgColor "transparent")
  && negb (String.eqb bgColor "rgba(0, 0, 0, 0)").

(** Some padding is larger than 2. *)
Definition hasPadding (styles : CSSStyleDeclaration) : bool :=
  ((floatOr0 (styles "paddingTop") >? Num.ofZ 2)
   || (floatOr0 (styles "paddingRight") >? Num.ofZ 2)
   || (floatOr0 (styles "paddingBottom") >? Num.ofZ 2)
   || (floatOr0 (styles "paddingLeft") >? Num.ofZ 2))%num.

(** ** Layer trees *)

(** A text layer has no child. *)
Definition textIsLeaf (n : LayerMeta) : Prop :=
  type n = TEXT -> children n = [].

(** Every paint but the last is an image or a gradient: a solid paint can
    only close the list. *)
Definition solidOnlyLast (n : LayerMeta) : Prop :=
  Forall isImageOrGradient (removelast (fills n)).

(** The four numbers of the box of a layer are finite. *)
Definition finiteBox (c : LayerMeta) : Prop :=
  isFinite (x c) /\ isFinite (y c) /\ isFinite (width c) /\ isFinite (height c).

(** The children of resolved z-index [k]. *)
Definition hasZ (k : Z) (c : LayerMeta) : bool := (zKey c =? k)%Z.

(** The number of levels of a tree: 1 for a leaf, one more than its
    deepest child for any other node. *)
Fixpoint levels (l : LayerMeta) : nat :=
  match l with
  | mk _ _ _ _ _ _ _ _ _ _ _ _ kids _ _ => 1 + list_max (map levels kids)
  end.

(** The right and bottom edges of every node of a tree, in the
    coordinates of the frame: a child is placed relative to its parent. *)
Fixpoint edges (node : LayerMeta) (parentX parentY : num) {struct node}
  : list (num * num) :=
  match node with
  | mk _ nx ny nw nh _ _ _ _ _ _ _ kids _ _ =>
      let x := (parentX + nx)%num in
      let y := (parentY + ny)%num in
      ((x + nw)%num, (y + nh)%num) :: flat_map (fun child => edges child x y) kids
  end.

(** The point [e] lies within the bounds [b]. *)
Definition within2 (b : num * num) (e : num * num) : Prop :=
  (fst e <=? fst b)%num = true /\ (snd e <=? snd b)%num = true.

Definition finite2 (b : num * num) : Prop := isFinite (fst b) /\ isFinite (snd b).

(** What one call of [traverse] guarantees. *)
Definition traverseSpec (node : LayerMeta) : Prop :=
  forall px py b, isFinite px -> isFinite py -> finite2 b ->
    let b' := traverse node px py b in
    finite2 b' /\ within2 b' b /\ Forall (within2 b') (edges node px py).

(** ** The standard Base64 encoding (RFC 4648), against which the decoder
    is checked *)

Definition base64Char (i : Z) : ascii :=
  match String.get (Z.to_nat i) base64Chars with
  | Some c => c
  | None => "="%char
  end.

(** The four 6-bit groups of three bytes. *)
Definition sextet1 (a : Z) : Z := Z.shiftr a 2.
Definition sextet2 (a b : Z) : Z := Z.lor (Z.shiftl (Z.land a 3) 4) (Z.shiftr b 4).
Definition sextet3 (b c : Z) : Z := Z.lor (Z.shiftl (Z.land b 15) 2) (Z.shiftr c 6).
Definition sextet4 (c : Z) : Z := Z.land c 63.

(** Three bytes give four code units; a last group of one or two bytes is
    completed with zero bits and closed with [=]. *)
Fixpoint encodeBase64 (bytes : list Z) : string :=
  match bytes with
  | [] => EmptyString
  | [a] =>
      String (base64Char (sextet1 a)) (String (base64Char (sextet2 a 0)) "==")
  | [a; b] =>
      String (base64Char (sextet1 a))
        (String (base64Char (sextet2 a b))
           (String (base64Char (sextet3 b 0)) "="))
  | a :: b :: c :: rest =>
      String (base64Char (sextet1 a))
        (String (base64Char (sextet2 a b))
           (String (base64Char (sextet3 b c))
              (String (base64Char (sextet4 c)) (encodeBase64 rest))))
  end.

Definition isByte (b : Z) : Prop := (0 <= b < 256)%Z.

(** The number of code units of the encoding of [n] bytes, padding
    excluded. *)
Fixpoint encodedLength (n : nat) : nat :=
  match n with
  | 0 => 0
  | 1 => 2
  | 2 => 3
  | S (S (S n')) => 4 + encodedLength n'
  end.

(** The array has [n] entries, all of them bytes. *)
Definition arrayOk (n : nat) (st : nat * list Z) : Prop :=
  List.length (snd st) = n /\ Forall isByte (snd st).

(** ** Finite checks, decided by evaluation *)

(** Every code unit; the hexadecimal digits; the bytes; the 6-bit
    groups. *)
Definition allAscii : list ascii := map ascii_of_nat (seq 0 256).
Definition hexDigits : list ascii := filter isHexDigit allAscii.
Definition octets : list Z := map Z.of_nat (seq 0 256).
Definition sextets : list Z := map Z.of_nat (seq 0 64).

(** Structural equality of numbers. *)
Definition numSame (x y : num) : bool :=
  match x, y with
  | Fin a, Fin b => (Qnum a =? Qnum b)%Z && (Qden a =? Qden b)%positive
  | PInf, PInf | NInf, NInf | NaN, NaN => true
  | _, _ => false
  end.

Definition unitInterval (v : num) : bool :=
  (Num.ofZ 0 <=? v)%num && (v <=? Num.ofZ 1)%num.

(** [hexByte] writes the byte [n] as two hexadecimal digits that
    [parseInt] reads back as [n]. *)
Definition byteRoundTrip (n : Z) : bool :=
  match padStart 2 "0" (intToString16 n) with
  | String c1 (String c2 EmptyString) =>
      isHexDigit c1 && isHexDigit c2
      && numSame (hexPair c1 c2) (Num.ofZ n / Num.ofZ 255)%num
  | _ => false
  end.

(** A pair of hexadecimal digits is read as a channel of [0, 1] and
    written back as the same two digits in lower case. *)
Definition pairRoundTrip (c1 c2 : ascii) : bool :=
  unitInterval (hexPair c1 c2)
  && String.eqb (hexByte (hexPair c1 c2))
                (String (lowerChar c1) (String (lowerChar c2) EmptyString)).

(** The bit arithmetic of one group of the decoder. *)
Definition pairOk (a b : Z) : bool :=
  let s1 := Z.shiftr a 2 in
  let s2 := Z.lor (Z.shiftl (Z.land a 3) 4) (Z.shiftr b 4) in
  let s3 := Z.lor (Z.shiftl (Z.land a 15) 2) (Z.shiftr b 6) in
  let s4 := Z.land b 63 in
  (0 <=? s1)%Z && (s1 <? 64)%Z && (0 <=? s2)%Z && (s2 <? 64)%Z
  && (0 <=? s3)%Z && (s3 <? 64)%Z && (0 <=? s4)%Z && (s4 <? 64)%Z
  && ((Z.lor (Z.shiftl s1 2) (Z.shiftr s2 4)) mod 256 =? a)%Z
  && (Z.land s2 15 =? Z.shiftr b 4)%Z
  && (Z.shiftr s3 2 =? Z.land a 15)%Z
  && (Z.land s3 3 =? Z.shiftr b 6)%Z
  && ((Z.lor (Z.shiftl (Z.shiftr b 4) 4) (Z.land b 15)) mod 256 =? b)%Z
  && ((Z.lor (Z.shiftl (Z.shiftr b 6) 6) (Z.land s4 63)) mod 256 =? b)%Z.

(** Every name the font tables and the generic families map to. *)
Definition mappedNames : list string :=
  (map snd sansSerifMap ++ map snd serifMap ++ map snd monoMap
   ++ ["Inter"; "Times New Roman"; "Roboto Mono"])%list.

Definition mapsToItself (g : string) : bool :=
  match mapFontFamily g with
  | Font g' => String.eqb g' g
  | Inherited _ => false
  end.

(** ** Sample inputs *)

Definition solidBorder : CSSStyleDeclaration :=
  styleOf [ ("borderTopWidth", "2px"); ("borderLeftWidth", "1px");
            ("borderTopColor", "rgb(255, 0, 0)"); ("borderTopStyle", "solid") ].

Definition flexRow : CSSStyleDeclaration :=
  styleOf [ ("display", "flex"); ("gap", "8px 4px"); ("paddingTop", "auto") ].

(** A paragraph holding the text "hello", its box at (30, 40). *)
Definition paragraph : Element :=
  Elem (mkInfo "P" "" "" "hello" (styleOf [("display", "block")])
               (box 30 40 100 20) (Some "block")
               (fun _ => styleOf []) (fun _ => NotDrawn) None)
       [Txt "hello" (box 30 40 40 20)].

(** A block at (30, 40) holding that paragraph, with a red background
    under an image. *)
Definition card : Element :=
  element "DIV"
    [ ("display", "block"); ("backgroundColor", "rgb(255, 0, 0)");
      ("backgroundImage", "url(https://example.com/image.jpg)") ]
    noPseudo (box 30 40 100 20) [El paragraph].

(** Conversion options with a maximum depth of 1. *)
Definition oneLevelDown : ConversionOptions :=
  mkConversionOptions None (Some (Num.ofZ 1)) None None.

(** A block of height 10 with 6px of left padding holding the text
    "hello", and three of them at y = 0, 20, 60 in a block. *)
Definition paddedLine (top : Z) : ChildNode :=
  El (Elem (mkInfo "DIV" "" "" "hello"
                   (styleOf [("display", "block"); ("paddingLeft", "6px")])
                   (box 0 top 100 10) (Some "block")
                   (fun _ => styleOf []) (fun _ => NotDrawn) None)
           [Txt "hello" (box 6 top 40 10)]).

Definition paddedLines : Element :=
  element "DIV" block noPseudo (box 0 0 100 70)
    [paddedLine 0; paddedLine 20; paddedLine 60].

(** ** Placement *)

(** The four numbers of a node are finite. *)
Definition finiteNode (n : Placement.SceneNode) : Prop :=
  isFinite (Placement.x n) /\ isFinite (Placement.y n)
  /\ isFinite (Placement.width n) /\ isFinite (Placement.height n).

(** [v] is one of the numbers of [l] and none of them is smaller. *)
Definition least (v : num) (l : list num) : Prop :=
  In v l /\ Forall (fun w => (v <=? w)%num = true) l.

(** [v] is one of the numbers of [l] and none of them is greater. *)
Definition greatest (v : num) (l : list num) : Prop :=
  In v l /\ Forall (fun w => (w <=? v)%num = true) l.

(** The right and the bottom edge of a node, as [getBounds] computes
    them. *)
Definition rightEdge (n : Placement.SceneNode) : num :=
  (Placement.x n + Placement.width n)%num.
Definition bottomEdge (n : Placement.SceneNode) : num :=
  (Placement.y n + Placement.height n)%num.

(** Two nodes: 10 by 10 at (0, 0) and 30 by 5 at (50, 20). *)
Definition twoNodes : list Placement.SceneNode :=
  [ Placement.mkBox (Num.ofZ 0) (Num.ofZ 0) (Num.ofZ 10) (Num.ofZ 10);
    Placement.mkBox (Num.ofZ 50) (Num.ofZ 20) (Num.ofZ 30) (Num.ofZ 5) ].

End MoreProps.

(** Induction on a layer whose hypothesis covers its children. *)
Section LayerInduction.
Variable P : LayerMeta -> Prop.
Hypothesis step : forall l, Forall P (Layer.children l) -> P l.

Fixpoint LayerMeta_children_ind (l : LayerMeta) : P l :=
  match l as l0 return P l0 with
  | Layer.mk t x y w h f s o v a ab z kids svg tag =>
      step (Layer.mk t x y w h f s o v a ab z kids svg tag)
        ((fix go (cs : list LayerMeta) : Forall P cs :=
            match cs with
            | [] => Forall_nil P
            | c :: cs' => Forall_cons c (LayerMeta_children_ind c) (go cs')
            end) kids)
  end.
End LayerInduction.

(* ================================================================== *)
(** * Properties of the value parsers *)
(* ================================================================== *)

Import Js ColorUtils StyleParser DomToLayer Layer Props.

(** ** Colours *)

(** [clamp01] brings every number into [0, 1]: the two [rgb()] branches of
    [parseColor] pass each channel through it. *)
Lemma clamp01_within (v : num) : v <> NaN -> Num.within 0 1 (clamp01 v).
Proof.
  intros Hv. destruct v as [q| | |]; try congruence; unfold clamp01; simpl.
  - destruct (Qle_bool (inject_Z 1) q) eqn:E1; simpl.
    + split; unfold Qle; simpl; lia.
    + destruct (Qle_bool (inject_Z 0) q) eqn:E0; simpl.
      * apply Qle_bool_iff in E0. split; auto.
        destruct (Qlt_le_dec q 1) as [H|H]; [apply Qlt_le_weak; auto|].
        apply Qle_bool_iff in H. unfold inject_Z in E1. congruence.
      * split; unfold Qle; simpl; lia.
  - split; unfold Qle; simpl; lia.
  - split; unfold Qle; simpl; lia.
Qed.

(** A colour read by an [rgb()] branch is clamped as soon as its captured
    numbers are numbers. *)
Lemma rgb_branch_clamped (m : Regex.mresult) :
  parseFloat (Regex.groupOr m 1) <> NaN ->
  parseFloat (Regex.groupOr m 2) <> NaN ->
  parseFloat (Regex.groupOr m 3) <> NaN ->
  rgbAlpha m <> NaN ->
  clamped (rgbOfMatch m).
Proof.
  intros H1 H2 H3 H4. unfold clamped, rgbOfMatch. simpl.
  assert (Hdiv : forall v, v <> NaN -> (v / Num.ofZ 255)%num <> NaN).
  { intros v Hv. destruct v; simpl; congruence. }
  repeat constructor; apply clamp01_within; auto.
Qed.

(** The colours of the named-colour table are clamped. *)
Lemma named_colors_clamped : Forall (fun kv => clamped (snd kv)) namedColors.
Proof.
  unfold namedColors, clamped.
  repeat (constructor; [simpl; repeat constructor; unfold Qle; simpl; lia|]).
  constructor.
Qed.

(** C5.  The claim: whatever the input, the four channels [parseColor]
    returns lie in [0, 1] and none is NaN.  The code: the [hsl()] branch
    does not pass through [clamp01].  A saturation of 200% gives a red
    channel of 3/2 and green and blue channels of -1/2, and an alpha
    written as a lone dot gives a NaN alpha. *)
Theorem hsl_channels_unclamped :
  parseColor "hsl(0, 200%, 50%)" None
  = Rgba (Num.frac 3 2) (Num.frac (-1) 2) (Num.frac (-1) 2) (Num.ofZ 1)
  /\ ~ clamped (parseColor "hsl(0, 200%, 50%)" None)
  /\ parseColor "hsla(0, 0%, 0%, .)" None
     = Rgba (Num.ofZ 0) (Num.ofZ 0) (Num.ofZ 0) NaN
  /\ ~ clamped (parseColor "hsla(0, 0%, 0%, .)" None).
Proof.
  split; [vm_compute; reflexivity|]. split.
  { intro H. vm_compute in H. inversion H as [|? ? H1 _]; subst.
    destruct H1 as [_ H1]. apply H1. reflexivity. }
  split; [vm_compute; reflexivity|].
  intro H. vm_compute in H.
  inversion H as [|? ? _ H2]; subst. inversion H2 as [|? ? _ H3]; subst.
  inversion H3 as [|? ? _ H4]; subst. inversion H4 as [|? ? H5 _]; subst.
  exact H5.
Qed.

(** The context keywords give back the fallback when there is one and
    opaque black otherwise. *)
Lemma context_keywords_use_fallback (fallback : RGBA) :
  parseColor "currentColor" (Some fallback) = fallback
  /\ parseColor "inherit" (Some fallback) = fallback
  /\ parseColor "initial" (Some fallback) = fallback
  /\ parseColor "unset" (Some fallback) = fallback
  /\ parseColor "currentColor" (Some red) = red
  /\ parseColor "currentColor" None = opaqueBlack
  /\ parseColor "inherit" None = opaqueBlack
  /\ parseColor "initial" None = opaqueBlack
  /\ parseColor "unset" None = opaqueBlack.
Proof. repeat split. Qed.

(** An input that no branch takes up gives opaque black. *)
Lemma fall_through_is_black (cssColor : string) (fallback : option RGBA) :
  isContextKeyword cssColor = false ->
  isTransparentLiteral cssColor = false ->
  Regex.exec reRgbaComma cssColor = None ->
  Regex.exec reRgbaSpace cssColor = None ->
  Regex.exec reHsl cssColor = None ->
  Regex.exec reHex cssColor = None ->
  namedColorsGet (toLowerCase cssColor) = None ->
  parseColor cssColor fallback = opaqueBlack.
Proof.
  intros H1 H2 H3 H4 H5 H6 H7. unfold parseColor.
  rewrite H1, H2, H3, H4, H5, H6, H7. reflexivity.
Qed.

(** C6.  The claim: every input that is not a recognised colour gives
    opaque black.  The code: the table of named colours is tested with
    [in], which also answers true for the properties every object
    inherits; for the input [constructor] the value handed back is that
    inherited property, which is not a colour. *)
Theorem inherited_key_is_not_black :
  ownLookup "constructor" namedColors = None
  /\ parseColor "constructor" None = ProtoMember "constructor"
  /\ parseColor "constructor" None <> opaqueBlack
  /\ parseColor "__proto__" (Some red) = ProtoMember "__proto__"
  /\ channels (parseColor "constructor" None) = [None; None; None; None].
Proof.
  split; [reflexivity|]. split; [vm_compute; reflexivity|].
  split; [vm_compute; discriminate|].
  split; vm_compute; reflexivity.
Qed.

(** ** Gradients *)

Lemma normalizeFrom_nth (len : nat) (raw : list rawStop) :
  forall idx i p c,
    nth_error raw i = Some (p, c) ->
    nth_error (normalizeFrom idx len raw) i
    = Some (mkStop (match p with
                    | Some v => v
                    | None => (Num.ofNat (idx + i) / Num.ofNat (len - 1))%num
                    end) c).
Proof.
  induction raw as [|[q d] raw IH]; intros idx i p c Hi.
  - destruct i; discriminate.
  - destruct i as [|i].
    + simpl in Hi. injection Hi as -> ->. rewrite Nat.add_0_r.
      destruct p; reflexivity.
    + simpl in Hi. replace (idx + S i) with (S idx + i) by lia.
      destruct q; simpl; apply IH; exact Hi.
Qed.

(** X24.  The normalisation pass of [parseGradientStops], stop by stop:
    with more than one stop, a stop without a position takes its index
    divided by the last index, and a stop with a position keeps it. *)
Lemma normalizeStops_nth (raw : list rawStop) (i : nat) (p : option num)
  (c : RGBA) :
  1 < List.length raw ->
  nth_error raw i = Some (p, c) ->
  nth_error (normalizeStops raw) i
  = Some (mkStop (match p with
                  | Some v => v
                  | None => (Num.ofNat i / Num.ofNat (List.length raw - 1))%num
                  end) c).
Proof.
  intros Hlen Hi. unfold normalizeStops.
  apply Nat.ltb_lt in Hlen. rewrite Hlen. simpl andb.
  destruct (existsb isAuto raw) eqn:E.
  - apply (@normalizeFrom_nth (List.length raw) raw 0 i p c Hi).
  - rewrite nth_error_map, Hi. simpl.
    destruct p as [v|]; [reflexivity|].
    assert (Hin : In (None, c) raw) by (eapply nth_error_In; eauto).
    assert (Hex : existsb isAuto raw = true).
    { apply existsb_exists. exists (None, c). split; [exact Hin|reflexivity]. }
    congruence.
Qed.

(** With a direction in front, three stops without positions are spread
    evenly. *)
Lemma gradient_three_stops_even :
  option_map (fun g => map position (stops g))
             (parseGradient "linear-gradient(to right, red, green, blue)")
  = Some [Num.ofZ 0; Num.frac 1 2; Num.ofZ 1]
  /\ option_map (fun g => map position (stops g))
       (parseGradient
          "linear-gradient(90deg, rgb(255, 0, 0), rgb(0, 128, 0), rgb(0, 0, 255))")
     = Some [Num.ofZ 0; Num.frac 1 2; Num.ofZ 1].
Proof. split; vm_compute; reflexivity. Qed.

(** C4.  The claim: a gradient with three stops and no explicit position
    gives the positions 0, 1/2, 1.  The code: [parseGradientStops] removes
    the text up to the first comma as the direction, also when the
    gradient has no direction; the first stop is lost, or cut in the middle
    of its [rgb()] arguments. *)
Theorem gradient_without_direction_loses_stop :
  option_map (fun g => map position (stops g))
             (parseGradient "linear-gradient(red, green, blue)")
  = Some [Num.ofZ 0; Num.ofZ 1]
  /\ option_map (fun g => map color (stops g))
       (parseGradient "linear-gradient(red, green, blue)")
     = Some [parseColor "green" None; parseColor "blue" None]
  /\ option_map (fun g => map position (stops g))
       (parseGradient
          "linear-gradient(rgb(255, 0, 0), rgb(0, 128, 0), rgb(0, 0, 255))")
     = Some [Num.ofZ 0; Num.ofZ 1]
  /\ option_map gradAngle (parseGradient "linear-gradient(red, green, blue)")
     = Some (Some (Num.ofZ 180)).
Proof. repeat split; vm_compute; reflexivity. Qed.

(** ** Shadows *)

Lemma append_empty_r (s : string) : s ++ "" = s.
Proof. induction s; simpl; congruence. Qed.

Lemma append_assoc3 (a b c : string) : (a ++ b) ++ c = a ++ (b ++ c).
Proof. induction a; simpl; congruence. Qed.

(** A prefix without a top-level comma goes to the current piece whole. *)
Lemma splitTopLevel_prefix (keep : bool) (a : string) :
  forall rest cur d d',
    scanDepth a d = Some d' ->
    splitTopLevel keep (a ++ rest) cur d
    = splitTopLevel keep rest (cur ++ a) d'.
Proof.
  induction a as [|c a IH]; intros rest cur d d' H; simpl in *.
  - injection H as <-. rewrite append_empty_r. reflexivity.
  - destruct (Ascii.eqb c "," &&
              ((if Ascii.eqb c ")" then
                  (if Ascii.eqb c "(" then d + 1 else d) - 1
                else if Ascii.eqb c "(" then d + 1 else d) =? 0)%Z);
      [discriminate|].
    rewrite (@IH rest (cur ++ str1 c) _ d' H). unfold str1.
    rewrite append_assoc3. reflexivity.
Qed.

Lemma finishSplit_cons (p : string) (ps : list string) (last : string) :
  finishSplit (p :: ps, last) = p :: finishSplit (ps, last).
Proof. unfold finishSplit. destruct (truthy (trim last)); reflexivity. Qed.

Lemma splitShadows_comma (a b : string) :
  scanDepth a 0 = Some 0%Z ->
  splitShadows (a ++ "," ++ b) = trim a :: splitShadows b.
Proof.
  intros H. unfold splitShadows.
  rewrite (@splitTopLevel_prefix true a ("," ++ b) "" 0%Z 0%Z H). simpl.
  destruct (splitTopLevel true b "" 0) as [ps last].
  apply finishSplit_cons.
Qed.

Lemma splitShadows_single (a : string) (d : Z) :
  scanDepth a 0 = Some d ->
  splitShadows a = if truthy (trim a) then [trim a] else [].
Proof.
  intros H. unfold splitShadows.
  pose proof (@splitTopLevel_prefix true a "" "" 0%Z d H) as E.
  rewrite append_empty_r in E. rewrite E. reflexivity.
Qed.

(** C7.  [parseBoxShadow] on [2px 4px 6px rgba(0,0,0,0.25)] gives one drop
    shadow of offset (2, 4), radius 6, alpha 1/4 and spread 0.  In
    general: the text is cut at the commas of parenthesis depth 0 and at
    no other; an entry is dropped exactly when fewer than two numbers are
    left once its colour is taken out; a kept entry is an inner shadow
    exactly when it holds [inset], carries the extracted colour, and reads
    the numbers in order as offset x, offset y, radius and spread; the
    colour is looked for as [rgb()/rgba()] first, then as a hex colour,
    then as a named colour, and is removed from the text. *)
Theorem box_shadow_parsing :
  parseBoxShadow shadowStyle
  = [Shadow (mkShadow DROP_SHADOW
               (Rgba (Num.ofZ 0) (Num.ofZ 0) (Num.ofZ 0) (Num.frac 1 4))
               (Num.ofZ 2) (Num.ofZ 4) (Num.ofZ 6) (Num.ofZ 0) true)]
  /\ (forall styles,
        parseBoxShadow styles
        = if isEmpty (styles "boxShadow") || (styles "boxShadow" =? "none")%string
          then []
          else map Shadow (filterMap parseSingleShadow
                             (splitShadows (styles "boxShadow"))))
  /\ (forall a b, scanDepth a 0 = Some 0%Z ->
        splitShadows (a ++ "," ++ b) = trim a :: splitShadows b)
  /\ (forall a d, scanDepth a 0 = Some d ->
        splitShadows a = if truthy (trim a) then [trim a] else [])
  /\ (forall entry,
        let numbers := shadowNumbers
                         (snd (extractShadowColor
                                 (trim (replaceStr entry "inset" "")))) in
        parseSingleShadow entry = None <-> List.length numbers < 2)
  /\ (forall entry e, parseSingleShadow entry = Some e ->
        let cleaned := extractShadowColor (trim (replaceStr entry "inset" "")) in
        let numbers := shadowNumbers (snd cleaned) in
        shadowType e = (if includes entry "inset" then INNER_SHADOW
                        else DROP_SHADOW)
        /\ shadowColor e = fst cleaned
        /\ offsetX e = nthOr0 numbers 0 /\ offsetY e = nthOr0 numbers 1
        /\ radius e = nthOr0 numbers 2 /\ spread e = nthOr0 numbers 3)
  /\ extractShadowColor "1px 2px #fff rgb(255, 0, 0)"
     = (Rgba (Num.ofZ 1) (Num.ofZ 0) (Num.ofZ 0) (Num.ofZ 1), "1px 2px #fff")
  /\ extractShadowColor "1px 2px red #00f"
     = (Rgba (Num.ofZ 0) (Num.ofZ 0) (Num.ofZ 1) (Num.ofZ 1), "1px 2px red")
  /\ extractShadowColor "1px 2px red"
     = (Rgba (Num.ofZ 1) (Num.ofZ 0) (Num.ofZ 0) (Num.ofZ 1), "1px 2px").
Proof.
  split; [vm_compute; reflexivity|].
  split; [reflexivity|].
  split; [exact splitShadows_comma|].
  split; [exact splitShadows_single|].
  split.
  { intros entry numbers. unfold parseSingleShadow.
    destruct (extractShadowColor (trim (replaceStr entry "inset" "")))
      as [c rest] eqn:E.
    simpl snd in numbers. fold numbers.
    destruct (List.length numbers <? 2)%nat eqn:L.
    - apply Nat.ltb_lt in L. tauto.
    - apply Nat.ltb_ge in L. split; [discriminate|lia]. }
  split.
  { intros entry e. unfold parseSingleShadow.
    destruct (extractShadowColor (trim (replaceStr entry "inset" "")))
      as [c rest].
    simpl. destruct (List.length (shadowNumbers rest) <? 2)%nat; [discriminate|].
    intros H. injection H as <-. simpl. repeat split. }
  repeat split; vm_compute; reflexivity.
Qed.

(** Two shadows, the second inset, separated by the one top-level comma. *)
Lemma box_shadow_two_entries :
  map (fun e => match e with
                | Shadow s => Some (shadowType s, offsetY s, spread s)
                | Blur _ _ => None
                end)
      (parseBoxShadow
         (styleOf [("boxShadow",
                    "rgba(0, 0, 0, 0.1) 0px 4px 6px -1px, inset 0 0 0 1px #fff, red 1px")]))
  = [Some (DROP_SHADOW, Num.ofZ 4, Num.ofZ (-1));
     Some (INNER_SHADOW, Num.ofZ 0, Num.ofZ 1)].
Proof. vm_compute. reflexivity. Qed.

(** ** Line height *)

(** C8, as amended.  [normal] gives 1.2 times the font size rounded to two
    decimals; a value holding [px] gives its leading number as it is; any
    other value with a leading number gives that number times the font
    size; a value without a leading number gives AUTO.  The font size is
    the leading number of [fontSize], or 16 when there is none or it is
    0. *)
Theorem line_height_resolution (lineHeight fontSize : string) :
  (lineHeight = "normal" ->
     parseLineHeight lineHeight fontSize
     = Px (Num.round (fontSizeOr16 fontSize * Num.frac 12 10 * Num.ofZ 100)
           / Num.ofZ 100)%num)
  /\ (lineHeight <> "normal" -> Parse.parseFloat lineHeight = NaN ->
        parseLineHeight lineHeight fontSize = AUTO)
  /\ (lineHeight <> "normal" -> Parse.parseFloat lineHeight <> NaN ->
        includes lineHeight "px" = true ->
        parseLineHeight lineHeight fontSize = Px (Parse.parseFloat lineHeight))
  /\ (lineHeight <> "normal" -> Parse.parseFloat lineHeight <> NaN ->
        includes lineHeight "px" = false ->
        parseLineHeight lineHeight fontSize
        = Px (Parse.parseFloat lineHeight * fontSizeOr16 fontSize)%num).
Proof.
  unfold parseLineHeight.
  repeat split.
  - intros ->. reflexivity.
  - intros Hn Hnan. apply String.eqb_neq in Hn. rewrite Hn, Hnan. reflexivity.
  - intros Hn Hnum Hpx. apply String.eqb_neq in Hn. rewrite Hn, Hpx.
    destruct (Parse.parseFloat lineHeight); try reflexivity. congruence.
  - intros Hn Hnum Hpx. apply String.eqb_neq in Hn. rewrite Hn, Hpx.
    destruct (Parse.parseFloat lineHeight); try reflexivity. congruence.
Qed.

Lemma line_height_examples :
  parseLineHeight "normal" "16px" = Px (Num.frac 192 10)
  /\ parseLineHeight "1.5" "16px" = Px (Num.ofZ 24)
  /\ parseLineHeight "24px" "16px" = Px (Num.ofZ 24)
  /\ parseLineHeight "tall" "16px" = AUTO
  /\ parseLineHeight "1.5" "" = Px (Num.ofZ 24).
Proof. repeat split; vm_compute; reflexivity. Qed.

(** C8, as stated, fails: [150%] at a font size of 16 gives 2400, not
    1.5 x 16 = 24; and [normal] at a font size of 13.333 gives 16, not
    1.2 x 13.333 = 15.9996. *)
Lemma line_height_percent_not_ratio :
  parseLineHeight "150%" "16px" = Px (Num.ofZ 2400)
  /\ (Num.frac 15 10 * fontSizeOr16 "16px")%num = Num.ofZ 24
  /\ parseLineHeight "normal" "13.333px" = Px (Num.ofZ 16)
  /\ (Num.frac 12 10 * fontSizeOr16 "13.333px")%num = Num.frac 159996 10000.
Proof. repeat split; vm_compute; reflexivity. Qed.

(* ================================================================== *)
(** * Properties of the style resolvers *)
(* ================================================================== *)

Lemma filterMap_Forall (A B : Type) (f : A -> option B) (P : B -> Prop)
  (l : list A) :
  (forall x y, f x = Some y -> P y) -> Forall P (filterMap f l).
Proof.
  intros Hf. induction l as [|x l IH]; simpl.
  - constructor.
  - destruct (f x) as [y|] eqn:E; auto. constructor; eauto.
Qed.

Lemma backgroundImagePaint_kind (resolveURL : string -> option string)
  (styles : CSSStyleDeclaration) (bg : string) (p : Paint) :
  backgroundImagePaint resolveURL styles bg = Some p -> isImageOrGradient p.
Proof.
  unfold backgroundImagePaint.
  destruct (includes (trim bg) "url(").
  - destruct (Regex.exec reUrl (trim bg)) as [m|]; [|discriminate].
    destruct (truthy (Regex.groupOr m 1)); [|discriminate].
    intros H. injection H as <-. exact I.
  - destruct (parseGradient (trim bg)) as [g|]; [|discriminate].
    intros H. injection H as <-. exact I.
Qed.

(** The image block of [parseBackground] pushes images and gradients
    only. *)
Lemma backgroundImageFills_kind (resolveURL : string -> option string)
  (styles : CSSStyleDeclaration) :
  Forall isImageOrGradient (backgroundImageFills resolveURL styles).
Proof.
  unfold backgroundImageFills.
  destruct (truthy (styles "backgroundImage")
            && negb (styles "backgroundImage" =? "none")%string).
  - apply filterMap_Forall. intros x y. apply backgroundImagePaint_kind.
  - constructor.
Qed.

(** C1.  When [background-color] is present and not transparent (its text
    is not a transparent colour string and the colour it parses to has a
    positive alpha), the fills are the paints of [background-image]
    followed by one solid paint of that colour: the solid paint is the
    last element, with or without images, and every image or gradient
    paint stands strictly before it. *)
Theorem background_color_is_last
  (resolveURL : string -> option string) (styles : CSSStyleDeclaration) :
  truthy (styles "backgroundColor") = true ->
  isTransparentColorString (styles "backgroundColor") = false ->
  isTransparent (resolvedBackgroundColor styles) = false ->
  parseBackground resolveURL styles
  = (backgroundImageFills resolveURL styles
     ++ [SOLID (resolvedBackgroundColor styles)])%list
  /\ nth_error (parseBackground resolveURL styles)
               (List.length (parseBackground resolveURL styles) - 1)
     = Some (SOLID (resolvedBackgroundColor styles))
  /\ forall i p,
       nth_error (parseBackground resolveURL styles) i = Some p ->
       isImageOrGradient p ->
       i < List.length (parseBackground resolveURL styles) - 1.
Proof.
  intros Hpresent Hstring Halpha.
  assert (Hfills : parseBackground resolveURL styles
                   = (backgroundImageFills resolveURL styles
                      ++ [SOLID (resolvedBackgroundColor styles)])%list).
  { unfold parseBackground, backgroundColorFills.
    rewrite Hpresent, Hstring. simpl.
    fold (resolvedBackgroundColor styles). rewrite Halpha. reflexivity. }
  split; [exact Hfills|].
  rewrite Hfills, length_app. simpl.
  replace (List.length (backgroundImageFills resolveURL styles) + 1 - 1)
    with (List.length (backgroundImageFills resolveURL styles)) by lia.
  split.
  - rewrite nth_error_app2 by lia. rewrite Nat.sub_diag. reflexivity.
  - intros i p Hi Hp.
    destruct (Nat.lt_ge_cases i
                (List.length (backgroundImageFills resolveURL styles)))
      as [Hlt|Hge]; [exact Hlt|].
    rewrite nth_error_app2 in Hi by exact Hge.
    destruct (i - List.length (backgroundImageFills resolveURL styles))
      as [|k] eqn:E.
    + simpl in Hi. injection Hi as <-. destruct Hp.
    + simpl in Hi. destruct k; discriminate.
Qed.

(** The overlay test of the repository: an image over a half-transparent
    black. *)
Lemma background_color_is_last_witness :
  truthy (overlayStyle "backgroundColor") = true
  /\ isTransparentColorString (overlayStyle "backgroundColor") = false
  /\ isTransparent (resolvedBackgroundColor overlayStyle) = false
  /\ parseBackground noURL overlayStyle
     = [IMAGE "https://example.com/image.jpg" FILL;
        SOLID (Rgba (Num.ofZ 0) (Num.ofZ 0) (Num.ofZ 0) (Num.frac 1 2))].
Proof.
  split; [reflexivity|]. split; [vm_compute; reflexivity|].
  split; [vm_compute; reflexivity|].
  destruct (@background_color_is_last noURL overlayStyle) as [H _];
    [reflexivity | vm_compute; reflexivity | vm_compute; reflexivity |].
  rewrite H. vm_compute. reflexivity.
Defined.

(** A transparent [background-color] adds no paint. *)
Lemma transparent_background_dropped :
  parseBackground noURL
    (styleOf [("backgroundColor", "rgba(0, 0, 0, 0)");
              ("backgroundImage", "none"); ("color", "rgb(0, 0, 0)")])
  = [].
Proof. vm_compute. reflexivity. Qed.

(* ================================================================== *)
(** * Properties of the tree builder *)
(* ================================================================== *)

Section Builder.
Variable resolveURL : string -> option string.

Lemma convertElement_eq (info : ElementInfo) (kids : list ChildNode)
  (options : RequiredOptions) (depth : nat) :
  convertElement resolveURL (Elem info kids) options depth =
  if skipped info options depth then Ok None
  else
    match prepareLayer resolveURL info kids options with
    | inl done => Ok (Some done)
    | inr layer =>
        match type layer with
        | TEXT => Ok (Some layer)
        | _ =>
            bind (convertChildrenWith
                    (fun child =>
                       convertElement resolveURL child
                         (childOptionsOf info options) (S depth))
                    (fixedTopHeight kids) kids)
                 (fun children =>
                    bind (finishChildren resolveURL info kids layer children)
                         (fun layer => Ok (Some layer)))
        end
    end.
Proof. reflexivity. Qed.

(** ** When the builder returns null *)

Lemma positive_or_not (v : num) :
  v <> NaN -> (v >? Num.ofZ 0)%num = false <-> (v <=? Num.ofZ 0)%num = true.
Proof.
  intros Hv. destruct v as [q| | |]; try congruence; simpl.
  - unfold Num.gtb. simpl.
    destruct (Qle_bool q (inject_Z 0)); simpl; intuition congruence.
  - unfold Num.gtb; simpl. intuition congruence.
  - unfold Num.gtb; simpl. intuition congruence.
Qed.

Lemma parseOpacity_number (styles : CSSStyleDeclaration) :
  parseOpacity styles <> NaN.
Proof.
  unfold parseOpacity.
  destruct (Parse.parseFloat (styles "opacity")); simpl; discriminate.
Qed.

Lemma finishChildren_not_null (info : ElementInfo) (kids : list ChildNode)
  (layer : LayerMeta) (cs : list LayerMeta) :
  bind (finishChildren resolveURL info kids layer cs)
       (fun layer => Ok (Some layer)) <> Ok None.
Proof.
  destruct (finishChildren resolveURL info kids layer cs); simpl; discriminate.
Qed.

Lemma convertElement_null_iff_skipped (element : Element)
  (options : RequiredOptions) (depth : nat) :
  convertElement resolveURL element options depth = Ok None <->
  skipped (infoOf element) options depth = true.
Proof.
  destruct element as [info kids]. rewrite convertElement_eq. simpl infoOf.
  destruct (skipped info options depth); [intuition congruence|].
  split; [|discriminate].
  destruct (prepareLayer resolveURL info kids options) as [done|layer];
    [discriminate|].
  destruct (convertChildrenWith _ (fixedTopHeight kids) kids) as [cs|] eqn:E;
    destruct (type layer); simpl; try discriminate;
    intros H; exfalso; revert H; apply finishChildren_not_null.
Qed.

(** C9, as amended.  [convertElement] returns null exactly when the depth
    exceeds the maximum, or the tag is non-visual, or hidden elements are
    not asked for and the element has [display: none],
    [visibility: hidden] or a resolved opacity of 0 or less, or the
    measured box has a width of 0 and a height of 0. *)
Theorem null_exactly_when_skipped (element : Element)
  (options : RequiredOptions) (depth : nat) :
  convertElement resolveURL element options depth = Ok None <->
  (Num.ofNat depth >? maxDepth' options)%num = true
  \/ isNonVisualElement (toLowerCase (tagName (infoOf element))) = true
  \/ (includeHidden' options = false /\
      (computedStyle (infoOf element) "display" = "none"
       \/ computedStyle (infoOf element) "visibility" = "hidden"
       \/ (parseOpacity (computedStyle (infoOf element)) <=? Num.ofZ 0)%num
          = true))
  \/ ((DOMRect.width (boundingClientRect (infoOf element)) =? Num.ofZ 0)%num
      = true
      /\ (DOMRect.height (boundingClientRect (infoOf element)) =? Num.ofZ 0)%num
         = true).
Proof.
  rewrite convertElement_null_iff_skipped.
  unfold skipped, isVisible.
  rewrite !orb_true_iff, !andb_true_iff, !negb_true_iff, !andb_false_iff,
          !negb_false_iff, !String.eqb_eq.
  rewrite (@positive_or_not _ (parseOpacity_number _)).
  tauto.
Qed.

(** The maximum depth is 50 and hidden elements are skipped unless the
    caller says otherwise. *)
Lemma default_options :
  maxDepth' (mergeOptions noOptions) = Num.ofZ 50
  /\ includeHidden' (mergeOptions noOptions) = false
  /\ includeHidden' (mergeOptions includeHiddenOptions) = true.
Proof. repeat split. Qed.

End Builder.

(** C9, as stated, fails: a visible block 100 wide and 0 high has a zero
    area, and a layer is returned for it. *)
Lemma zero_area_not_skipped :
  (DOMRect.width (boundingClientRect (infoOf flatBlock))
   * DOMRect.height (boundingClientRect (infoOf flatBlock)))%num = Num.ofZ 0
  /\ exists l, domToLayer noURL flatBlock noOptions = Ok (Some l)
               /\ width l = Num.ofZ 100 /\ height l = Num.ofZ 0.
Proof.
  split; [vm_compute; reflexivity|].
  eexists. split; [vm_compute; reflexivity|]. split; reflexivity.
Qed.

(** ** The shape of the layers the builder makes *)

Section Tree.
Variable resolveURL : string -> option string.

Lemma nativeControl_fields (info : ElementInfo) (l : LayerMeta) :
  children (nativeControl info l) = children l /\
  visible (nativeControl info l) = visible l /\
  type (nativeControl info l) = type l.
Proof.
  unfold nativeControl.
  destruct (_ && _); [|auto].
  cbv zeta.
  repeat match goal with |- context [if ?c then _ else _] => destruct c end;
    simpl; auto.
Qed.

Lemma expandToMaxWidth_fields (info : ElementInfo) (l : LayerMeta) :
  children (expandToMaxWidth info l) = children l /\
  visible (expandToMaxWidth info l) = visible l /\
  type (expandToMaxWidth info l) = type l.
Proof.
  unfold expandToMaxWidth.
  destruct (parentDisplay info); [|auto].
  repeat match goal with |- context [if ?c then _ else _] => destruct c end;
    simpl; auto.
Qed.

Lemma imageFill_fields (info : ElementInfo) (options : RequiredOptions)
  (l : LayerMeta) :
  children (imageFill info options l) = children l /\
  visible (imageFill info options l) = visible l /\
  type (imageFill info options l) = type l.
Proof.
  unfold imageFill. destruct (_ && _); simpl; auto.
Qed.

(** A layer handed on by [prepareLayer] has no child yet and is
    visible. *)
Lemma prepared_fields (info : ElementInfo) (kids : list ChildNode)
  (options : RequiredOptions) (l : LayerMeta) :
  (prepareLayer resolveURL info kids options = inl l \/
   prepareLayer resolveURL info kids options = inr l) ->
  children l = [] /\ visible l = true.
Proof.
  unfold prepareLayer.
  set (l0 := baseLayer resolveURL info options (determineLayerType info kids)).
  destruct (nativeControl_fields info l0) as (Hc1 & Hv1 & _).
  destruct (expandToMaxWidth_fields info (nativeControl info l0))
    as (Hc2 & Hv2 & _).
  set (l2 := expandToMaxWidth info (nativeControl info l0)) in *.
  assert (Hc : children l2 = []) by (rewrite Hc2, Hc1; reflexivity).
  assert (Hv : visible l2 = true) by (rewrite Hv2, Hv1; reflexivity).
  unfold svgLayer.
  destruct (toLowerCase (tagName info) =? "svg")%string.
  - destruct (sanitizedSvg info) as [svg|].
    + destruct (truthy svg).
      * intros [H|H]; [|discriminate]. injection H as <-. simpl. auto.
      * intros [H|H]; [discriminate|]. injection H as <-. simpl.
        destruct (imageFill_fields info options l2) as (-> & -> & _). auto.
    + intros [H|H]; [discriminate|]. injection H as <-. simpl.
      destruct (imageFill_fields info options l2) as (-> & -> & _). auto.
  - intros [H|H]; [discriminate|]. injection H as <-. simpl.
    destruct (imageFill_fields info options l2) as (-> & -> & _). auto.
Qed.

(** A captured pseudo-element has no child, is visible and carries the
    name of the pseudo-element as its source tag. *)
Lemma capturePseudoElement_fields (info : ElementInfo) (p : Pseudo)
  (l : LayerMeta) :
  capturePseudoElement resolveURL info p = Ok (Some l) ->
  children l = [] /\ visible l = true /\ sourceTag l = Some (pseudoName p).
Proof.
  unfold capturePseudoElement.
  repeat match goal with
         | |- context [if ?c then _ else _] => destruct c
         | |- context [match ?c with NotDrawn => _ | Drawn _ => _ end] =>
             destruct c
         end;
    try discriminate; intros H; injection H as <-; simpl; auto.
Qed.

Lemma withTextChild_fields (info : ElementInfo) (kids : list ChildNode)
  (l : LayerMeta) (cs : list LayerMeta) :
  visible (fst (withTextChild info kids l cs)) = visible l /\
  width (fst (withTextChild info kids l cs)) = width l /\
  (snd (withTextChild info kids l cs) = cs \/
   exists a b c d,
     snd (withTextChild info kids l cs) = (cs ++ [textLayer a b c d])%list).
Proof.
  unfold withTextChild.
  destruct (truthy _); [|simpl; auto].
  cbv zeta.
  destruct ((List.length cs =? 0)%nat || forallb isPseudoLayer cs); simpl.
  - repeat split. right. eauto.
  - repeat split. right. destruct (firstTextRange kids); eauto.
Qed.

(** The spacing pass leaves the children as they are or runs the wrapping
    loop over them. *)
Lemma inferGaps_children (display : string) (al : AutoLayoutConfig)
  (cs : list LayerMeta) :
  snd (inferGaps display al cs) = cs \/
  exists ca v m gaps,
    snd (inferGaps display al cs) = wrapChildren ca v m cs gaps.
Proof.
  unfold inferGaps.
  destruct (_ && _); [|left; reflexivity].
  destruct (0 <? _)%nat; [|left; reflexivity].
  destruct (isFlexOrGrid display).
  - destruct (_ >? _)%num; left; reflexivity.
  - destruct (_ <=? _)%num; [left; reflexivity|].
    right. cbv zeta. simpl snd. eauto.
Qed.

(** What [finishChildren] returns: the layer with its final layout and,
    as children, the [::before] node if any, the sorted children, the
    [::after] node if any, some of them possibly wrapped. *)
Lemma finishChildren_inv (info : ElementInfo) (kids : list ChildNode)
  (l0 : LayerMeta) (cs : list LayerMeta) (l : LayerMeta) :
  finishChildren resolveURL info kids l0 cs = Ok l ->
  exists b a al cs',
    capturePseudoElement resolveURL info before = Ok b /\
    capturePseudoElement resolveURL info after = Ok a /\
    l = setChildren (setAutoLayout (fst (withTextChild info kids l0 cs)) al) cs' /\
    let base := (optList b
                 ++ sortByZIndex (snd (withTextChild info kids l0 cs))
                 ++ optList a)%list in
    (cs' = base \/ exists ca v m gaps, cs' = wrapChildren ca v m base gaps).
Proof.
  unfold finishChildren.
  destruct (withTextChild info kids l0 cs) as [l1 cs1]. simpl fst; simpl snd.
  destruct (capturePseudoElement resolveURL info before) as [b|];
    [|discriminate].
  destruct (capturePseudoElement resolveURL info after) as [a|];
    [|discriminate].
  simpl bind.
  set (base := (optList b ++ sortByZIndex cs1 ++ optList a)%list).
  assert (Hbase :
            match a with
            | Some a0 =>
                (match b with
                 | Some b0 => b0 :: sortByZIndex cs1
                 | None => sortByZIndex cs1
                 end ++ [a0])%list
            | None =>
                match b with
                | Some b0 => b0 :: sortByZIndex cs1
                | None => sortByZIndex cs1
                end
            end = base).
  { unfold base. destruct a, b; simpl; rewrite ?app_nil_r; reflexivity. }
  rewrite Hbase. clear Hbase.
  destruct (autoLayout l1) as [al|].
  - destruct (inferGaps (computedStyle info "display") al base)
      as [al' cs'] eqn:E.
    intros H. injection H as <-.
    exists b, a, (Some (detectCentering (width l1) al' cs')), cs'.
    repeat split.
    pose proof (inferGaps_children (computedStyle info "display") al base)
      as Hc.
    rewrite E in Hc. exact Hc.
  - intros H. injection H as <-.
    exists b, a, None, base. repeat split. left. reflexivity.
Qed.

Lemma Forall_insertByZ (Q : LayerMeta -> Prop) (a : LayerMeta)
  (l : list LayerMeta) :
  Q a -> Forall Q l -> Forall Q (insertByZ a l).
Proof.
  intros Ha Hl. induction Hl as [|b l Hb Hl IH]; simpl.
  - auto.
  - destruct (zKey a <=? zKey b)%Z; auto.
Qed.

Lemma Forall_sortByZIndex (Q : LayerMeta -> Prop) (l : list LayerMeta) :
  Forall Q l -> Forall Q (sortByZIndex l).
Proof.
  intros Hl. induction Hl as [|a l Ha Hl IH]; simpl.
  - constructor.
  - apply Forall_insertByZ; assumption.
Qed.

(** ** A property of one node carried to every node of the tree *)

Section NodeInvariant.
Variable P : LayerMeta -> Prop.
Hypothesis P_geometry : forall l x' y' w' h',
    P l -> P (setGeometry l x' y' w' h').
Hypothesis P_prepared : forall info kids options l,
    (prepareLayer resolveURL info kids options = inl l \/
     prepareLayer resolveURL info kids options = inr l) -> P l.
Hypothesis P_finished : forall info kids options l0 cs l,
    prepareLayer resolveURL info kids options = inr l0 ->
    finishChildren resolveURL info kids l0 cs = Ok l -> P l.
Hypothesis P_wrapper : forall ca v c g, P (wrapper ca v c g).
Hypothesis P_text : forall a b c d, P (textLayer a b c d).
Hypothesis P_pseudo : forall info p l,
    capturePseudoElement resolveURL info p = Ok (Some l) -> P l.

Lemma allNodes_setGeometry (l : LayerMeta) (x' y' w' h' : num) :
  allNodes P l -> allNodes P (setGeometry l x' y' w' h').
Proof.
  intros H. inversion H as [? HP Hc]; subst.
  constructor; [apply P_geometry; exact HP | exact Hc].
Qed.

Lemma allNodes_adjust (f : num) (l : LayerMeta) :
  allNodes P l -> allNodes P (adjustForFixedHeader f l).
Proof.
  intros H. unfold adjustForFixedHeader, setY.
  repeat match goal with |- context [if ?c then _ else _] => destruct c end;
    auto using allNodes_setGeometry.
Qed.

Lemma allNodes_leaf (l : LayerMeta) : P l -> children l = [] -> allNodes P l.
Proof. intros HP Hc. constructor; [exact HP | rewrite Hc; constructor]. Qed.

Lemma allNodes_wrapper (ca : CounterAlign) (v : bool) (c : LayerMeta)
  (g : num) :
  allNodes P c -> allNodes P (wrapper ca v c g).
Proof.
  intros H. constructor; [apply P_wrapper|].
  simpl. constructor; [|constructor]. apply allNodes_setGeometry. exact H.
Qed.

Lemma Forall_wrapChildren (ca : CounterAlign) (v : bool) (m : num)
  (cs : list LayerMeta) (gaps : list num) :
  Forall (allNodes P) cs -> Forall (allNodes P) (wrapChildren ca v m cs gaps).
Proof.
  intros Hcs. revert gaps.
  induction Hcs as [|c cs Hc Hcs IH]; intros gaps; simpl.
  - constructor.
  - destruct (isFlow c).
    + destruct gaps as [|g gaps'].
      * constructor; auto.
      * constructor; auto.
        destruct (g >? m + GAP_TOLERANCE)%num; auto using allNodes_wrapper.
    + constructor; auto.
Qed.

Lemma finishChildren_all (info : ElementInfo) (kids : list ChildNode)
  (l0 : LayerMeta) (cs : list LayerMeta) (l : LayerMeta) :
  Forall (allNodes P) cs ->
  finishChildren resolveURL info kids l0 cs = Ok l ->
  Forall (allNodes P) (children l).
Proof.
  intros Hcs H.
  apply finishChildren_inv in H
    as (b & a & al & cs' & Hb & Ha & -> & Hshape).
  simpl children.
  assert (Hbase : Forall (allNodes P)
            (optList b ++ sortByZIndex (snd (withTextChild info kids l0 cs))
             ++ optList a)).
  { apply Forall_app; split; [|apply Forall_app; split].
    - destruct b as [b|]; simpl; constructor; [|constructor].
      pose proof Hb as Hb'.
      apply capturePseudoElement_fields in Hb' as (Hk & _ & _).
      apply allNodes_leaf; eauto.
    - apply Forall_sortByZIndex.
      destruct (withTextChild_fields info kids l0 cs)
        as (_ & _ & [-> | (x1 & x2 & x3 & x4 & ->)]).
      + exact Hcs.
      + apply Forall_app. split; [exact Hcs|].
        constructor; [|constructor]. apply allNodes_leaf; auto.
    - destruct a as [a|]; simpl; constructor; [|constructor].
      pose proof Ha as Ha'.
      apply capturePseudoElement_fields in Ha' as (Hk & _ & _).
      apply allNodes_leaf; eauto. }
  destruct Hshape as [-> | (ca & v & m & gaps & ->)].
  - exact Hbase.
  - apply Forall_wrapChildren. exact Hbase.
Qed.

Lemma convertChildren_all (convert : Element -> result (option LayerMeta))
  (f : num) (kids : list ChildNode) (cs : list LayerMeta) :
  Forall (fun child => forall c, convert child = Ok (Some c) -> allNodes P c)
         (elementChildren kids) ->
  convertChildrenWith convert f kids = Ok cs ->
  Forall (allNodes P) cs.
Proof.
  revert cs. induction kids as [|k kids IH]; intros cs Hall; simpl.
  - intros H. injection H as <-. constructor.
  - destruct k as [d r|child].
    + simpl in Hall. apply IH. exact Hall.
    + simpl in Hall. inversion Hall as [|? ? Hchild Hrest]; subst.
      destruct (convert child) as [o|] eqn:Ec; [|discriminate]. simpl.
      destruct (convertChildrenWith convert f kids) as [rest|] eqn:Er;
        [|discriminate]. simpl.
      intros H. injection H as <-.
      specialize (IH rest Hrest eq_refl).
      destruct o as [c|]; [|exact IH].
      constructor; [|exact IH]. apply allNodes_adjust. apply Hchild.
      reflexivity.
Qed.

(** Every node of a tree returned by [convertElement] has the property. *)
Lemma convertElement_allNodes (element : Element) :
  forall options depth l,
    convertElement resolveURL element options depth = Ok (Some l) ->
    allNodes P l.
Proof.
  induction element as [info kids IH] using Element_children_ind.
  intros options depth l. rewrite convertElement_eq.
  destruct (skipped info options depth); [discriminate|].
  destruct (prepareLayer resolveURL info kids options) as [done|l0] eqn:Ep.
  - intros H. injection H as <-.
    apply allNodes_leaf; [eapply P_prepared; eauto|].
    eapply prepared_fields; eauto.
  - assert (Hleaf : allNodes P l0).
    { apply allNodes_leaf; [eapply P_prepared; eauto|].
      eapply prepared_fields; eauto. }
    destruct (type l0) eqn:Et;
      try (intros H; injection H as <-; exact Hleaf);
      (destruct (convertChildrenWith _ (fixedTopHeight kids) kids)
         as [cs|] eqn:Ec; [|discriminate];
       cbn [bind];
       destruct (finishChildren resolveURL info kids l0 cs) as [lf|] eqn:Ef;
         [|discriminate];
       cbn [bind]; intros H; injection H as <-;
       constructor;
       [ eapply P_finished; eauto
       | eapply finishChildren_all; [|exact Ef];
         eapply convertChildren_all; [|exact Ec];
         eapply Forall_impl; [|exact IH];
         intros child Hc c; apply Hc ]).
Qed.
End NodeInvariant.

(** ** Visibility *)

(** C10.  Every node of a tree returned by [domToLayer] has [visible]
    true: the layer of each element, the text children, the wrappers of
    the spacing pass and the pseudo-element layers, whatever the options,
    [includeHidden] included. *)
Theorem every_node_visible (element : Element) (options : ConversionOptions)
  (l : LayerMeta) :
  domToLayer resolveURL element options = Ok (Some l) ->
  allNodes shown l.
Proof.
  unfold domToLayer. apply convertElement_allNodes; unfold shown.
  - intros; assumption.
  - intros info kids opts l1 H. eapply prepared_fields; eauto.
  - intros info kids opts l0 cs l1 Hp Hf.
    apply finishChildren_inv in Hf as (b & a & al & cs' & _ & _ & -> & _).
    simpl.
    destruct (withTextChild_fields info kids l0 cs) as (-> & _).
    eapply prepared_fields; eauto.
  - reflexivity.
  - reflexivity.
  - intros info p l1 H. eapply capturePseudoElement_fields; eauto.
Qed.

(** ** Z-order *)

Lemma zSorted_insert (a : LayerMeta) (l : list LayerMeta) :
  zSorted l -> zSorted (insertByZ a l).
Proof.
  unfold zSorted. induction l as [|b l IH]; simpl; intros Hs.
  - constructor; constructor.
  - apply StronglySorted_inv in Hs. destruct Hs as [Hs Hb].
    destruct (zKey a <=? zKey b)%Z eqn:E.
    + simpl. constructor.
      * constructor; assumption.
      * apply Z.leb_le in E. constructor; [exact E|].
        eapply Forall_impl; [|exact Hb]. intros z Hz. simpl in Hz. lia.
    + simpl. constructor; [apply IH; exact Hs|].
      apply Z.leb_gt in E.
      rewrite Forall_map in *. apply Forall_insertByZ.
      * lia.
      * exact Hb.
Qed.

(** The sort step leaves the children in non-decreasing order of
    z-index... *)
Lemma sortByZIndex_sorted (l : list LayerMeta) : zSorted (sortByZIndex l).
Proof.
  induction l as [|a l IH]; simpl.
  - constructor.
  - apply zSorted_insert. exact IH.
Qed.

Lemma insertByZ_perm (a : LayerMeta) (l : list LayerMeta) :
  Permutation (a :: l) (insertByZ a l).
Proof.
  induction l as [|b l IH]; simpl.
  - apply Permutation_refl.
  - destruct (zKey a <=? zKey b)%Z.
    + apply Permutation_refl.
    + eapply perm_trans; [apply perm_swap|]. apply perm_skip. exact IH.
Qed.

(** ... and neither adds nor drops a child. *)
Lemma sortByZIndex_perm (l : list LayerMeta) : Permutation l (sortByZIndex l).
Proof.
  induction l as [|a l IH]; simpl.
  - constructor.
  - eapply perm_trans; [apply perm_skip; exact IH|]. apply insertByZ_perm.
Qed.



(** *** The layer of an element carries the tag of the element *)











(** *** What the wrapping loop leaves of the order *)











End Tree.

(** A hidden block captured on request: the frame and its synthesized
    text child are both visible. *)
Lemma every_node_visible_witness :
  isVisible (computedStyle (infoOf hiddenBlock)) = false
  /\ exists l,
       domToLayer noURL hiddenBlock includeHiddenOptions = Ok (Some l)
       /\ map type (children l) = [TEXT]
       /\ allNodes shown l.
Proof.
  split; [reflexivity|].
  eexists. split; [vm_compute; reflexivity|]. split; [reflexivity|].
  apply (@every_node_visible noURL hiddenBlock includeHiddenOptions).
  vm_compute. reflexivity.
Defined.



(** ** Gap inference *)

Lemma wrapChildren_length (ca : CounterAlign) (v : bool) (m : num)
  (cs : list LayerMeta) (gaps : list num) :
  List.length (wrapChildren ca v m cs gaps) = List.length cs.
Proof.
  revert gaps. induction cs as [|c cs IH]; intros gaps; simpl; [reflexivity|].
  destruct (isFlow c); [destruct gaps|]; simpl; f_equal; apply IH.
Qed.

(** The wrapping loop, index by index: the child at an index is wrapped
    when it is a flow child whose recorded gap exceeds the minimum by more
    than the tolerance, and left as it is otherwise. *)
Lemma wrapChildren_nth (ca : CounterAlign) (v : bool) (m : num)
  (cs : list LayerMeta) :
  forall gaps i child,
    nth_error cs i = Some child ->
    nth_error (wrapChildren ca v m cs gaps) i
    = Some (wrappedOrSame ca v m child (gapAfter cs gaps i)).
Proof.
  induction cs as [|c cs IH]; intros gaps i child Hi.
  - destruct i; discriminate.
  - destruct i as [|i].
    + simpl in Hi. injection Hi as ->.
      unfold gapAfter, flowRank. simpl.
      destruct (isFlow child); [destruct gaps|]; reflexivity.
    + simpl in Hi.
      assert (Hgap : forall gs, gapAfter (c :: cs) gs (S i)
                = gapAfter cs (if isFlow c then tl gs else gs) i).
      { intros gs. unfold gapAfter, flowRank. simpl. rewrite Hi.
        destruct (isFlow child); [|reflexivity].
        destruct (isFlow c); simpl; [|reflexivity].
        destruct gs; simpl; [|reflexivity].
        destruct (List.length (filter isFlow (firstn i cs))); reflexivity. }
      rewrite Hgap. simpl.
      destruct (isFlow c); [destruct gaps|]; simpl; apply IH; exact Hi.
Qed.

(** C2, as amended.  In a block-flow container with an auto-layout and at
    least two flow children, with the gaps measured between consecutive
    flow children (never negative, rounded): when the largest and the
    smallest gap differ by at most 4, the item spacing is the rounded
    average of the gaps and no child is wrapped; otherwise the item
    spacing is the smallest gap, and a child is wrapped exactly when it is
    a flow child whose trailing gap (the gap after it) exceeds the smallest
    gap by more than 4, the wrapper holding the difference as padding on
    one side. *)
Theorem block_gap_inference (display : string) (al : AutoLayoutConfig)
  (cs : list LayerMeta) :
  isFlexOrGrid display = false ->
  2 <= List.length (filter isFlow cs) ->
  ((Num.maxList (measuredGaps al cs) - Num.minList (measuredGaps al cs)
    <=? GAP_TOLERANCE)%num = true ->
     inferGaps display al cs
     = (setItemSpacing al (averageGap (measuredGaps al cs)), cs))
  /\
  ((Num.maxList (measuredGaps al cs) - Num.minList (measuredGaps al cs)
    <=? GAP_TOLERANCE)%num = false ->
     fst (inferGaps display al cs)
     = setItemSpacing al (Num.minList (measuredGaps al cs))
     /\ List.length (snd (inferGaps display al cs)) = List.length cs
     /\ forall i child, nth_error cs i = Some child ->
          nth_error (snd (inferGaps display al cs)) i
          = Some (wrappedOrSame (counterAxisAlignItems al) (isVerticalMode al)
                    (Num.minList (measuredGaps al cs)) child
                    (gapAfter cs (measuredGaps al cs) i))).
Proof.
  intros Hblock Hflow.
  set (gaps := measuredGaps al cs).
  assert (Hcs : (2 <=? List.length cs)%nat = true).
  { apply Nat.leb_le. pose proof (filter_length_le isFlow cs). lia. }
  assert (Hfl : (2 <=? List.length (filter isFlow cs))%nat = true)
    by (apply Nat.leb_le; exact Hflow).
  assert (Hgaps : (0 <? List.length gaps)%nat = true).
  { apply Nat.ltb_lt. unfold gaps, measuredGaps.
    destruct (filter isFlow cs) as [|c1 [|c2 rest]]; simpl in *; lia. }
  assert (Hresult : inferGaps display al cs =
            if (Num.maxList gaps - Num.minList gaps <=? GAP_TOLERANCE)%num
            then (setItemSpacing al (averageGap gaps), cs)
            else (setItemSpacing al (Num.minList gaps),
                  wrapChildren (counterAxisAlignItems al) (isVerticalMode al)
                               (Num.minList gaps) cs gaps)).
  { unfold inferGaps. rewrite Hcs, Hfl. simpl andb. cbv zeta.
    fold (measuredGaps al cs). fold gaps. rewrite Hgaps, Hblock.
    reflexivity. }
  rewrite Hresult. split; intros Hcase; rewrite Hcase.
  - reflexivity.
  - simpl fst; simpl snd. split; [reflexivity|]. split.
    + apply wrapChildren_length.
    + intros i child Hi. apply wrapChildren_nth. exact Hi.
Qed.

(** Rows at y = 0, 20, 60: the gaps are 10 and 30, the spacing is 10 and
    the row at index 1, whose trailing gap is 30, is the one wrapped. *)
Lemma block_gap_inference_witness :
  isFlexOrGrid "block" = false
  /\ 2 <= List.length (filter isFlow (rows 0 20 60))
  /\ measuredGaps blockLayout (rows 0 20 60) = [Num.ofZ 10; Num.ofZ 30]
  /\ fst (inferGaps "block" blockLayout (rows 0 20 60))
     = setItemSpacing blockLayout (Num.ofZ 10)
  /\ nth_error (snd (inferGaps "block" blockLayout (rows 0 20 60))) 1
     = Some (wrapper C_MIN true (rowLayer 20) (Num.ofZ 20)).
Proof.
  split; [reflexivity|]. split; [simpl; lia|]. split; [vm_compute; reflexivity|].
  destruct (@block_gap_inference "block" blockLayout (rows 0 20 60))
    as [_ H]; [reflexivity | simpl; lia |].
  destruct H as (Hspacing & _ & Hnth); [vm_compute; reflexivity|].
  split.
  - rewrite Hspacing. vm_compute. reflexivity.
  - rewrite (Hnth 1 (rowLayer 20) eq_refl). vm_compute. reflexivity.
Defined.

(** Three siblings at y = 0, 20, 40, each 10 high, in a block container:
    the spacing is 10 and no wrapper is made. *)
Lemma even_rows_spacing :
  exists l,
    domToLayer noURL evenRows noOptions = Ok (Some l)
    /\ option_map itemSpacing (autoLayout l) = Some (Num.ofZ 10)
    /\ children l = rows 0 20 40.
Proof.
  eexists. split; [vm_compute; reflexivity|]. split; reflexivity.
Qed.

(** C2, as stated, fails.  With siblings at y = 0, 20, 60 (gaps 10 and
    30) the child wrapped is the one before the gap of 30, and the child
    that follows that gap is returned as it is.  With siblings at
    y = 0, 20, 43 (gaps 10 and 13, within 4 of each other) the spacing is
    12, and the average of the gaps is 23/2. *)
Lemma wrapped_child_precedes_gap :
  (exists l,
     domToLayer noURL unevenRows noOptions = Ok (Some l)
     /\ option_map itemSpacing (autoLayout l) = Some (Num.ofZ 10)
     /\ children l
        = [rowLayer 0; wrapper C_MIN true (rowLayer 20) (Num.ofZ 20);
           rowLayer 60]
     /\ map isWrapperLayer (children l) = [false; true; false]
     /\ option_map paddingBottom
          (autoLayout (wrapper C_MIN true (rowLayer 20) (Num.ofZ 20)))
        = Some (Num.ofZ 20))
  /\
  (exists l,
     domToLayer noURL nearRows noOptions = Ok (Some l)
     /\ measuredGaps blockLayout (children l) = [Num.ofZ 10; Num.ofZ 13]
     /\ option_map itemSpacing (autoLayout l) = Some (Num.ofZ 12)
     /\ (sumGaps [Num.ofZ 10; Num.ofZ 13] / Num.ofZ 2)%num = Num.frac 23 2).
Proof.
  split.
  - eexists. split; [vm_compute; reflexivity|]. repeat split.
  - eexists. split; [vm_compute; reflexivity|]. repeat split.
Qed.

(* ================================================================== *)
(** * Further properties: numbers and colours *)
(* ================================================================== *)

Import ColorConvert LayoutEngine NodeFactory Capture MoreProps.

(** ** Arithmetic on finite numbers *)

Lemma numIs_Fin (q : Q) : numIs (Fin q) q.
Proof. simpl. reflexivity. Qed.

Lemma numIs_ofZ (z : Z) : numIs (Num.ofZ z) (inject_Z z).
Proof. simpl. reflexivity. Qed.

Lemma numIs_eq (x : num) (p q : Q) : numIs x p -> (p == q)%Q -> numIs x q.
Proof. destruct x; simpl; try tauto. intros H1 H2. rewrite H1. exact H2. Qed.

Lemma numIs_inv (x : num) (q : Q) : numIs x q -> exists p, x = Fin p /\ (p == q)%Q.
Proof. destruct x; simpl; try tauto. eauto. Qed.

Lemma numIs_add (x y : num) (p q : Q) :
  numIs x p -> numIs y q -> numIs (x + y)%num (p + q).
Proof.
  destruct x, y; cbn [numIs Num.add]; try tauto. intros H1 H2.
  rewrite Qred_correct, H1, H2. reflexivity.
Qed.

Lemma numIs_sub (x y : num) (p q : Q) :
  numIs x p -> numIs y q -> numIs (x - y)%num (p - q).
Proof.
  destruct x, y; cbn [numIs Num.add Num.sub Num.neg]; try tauto. intros H1 H2.
  rewrite !Qred_correct, H1, H2. reflexivity.
Qed.

Lemma numIs_mul (x y : num) (p q : Q) :
  numIs x p -> numIs y q -> numIs (x * y)%num (p * q).
Proof.
  destruct x, y; cbn [numIs Num.mul]; try tauto. intros H1 H2.
  rewrite Qred_correct, H1, H2. reflexivity.
Qed.

Lemma qsign_Eq (q : Q) : Num.qsign q = Eq <-> (q == 0)%Q.
Proof.
  unfold Num.qsign, Qeq. simpl. rewrite Z.compare_eq_iff. lia.
Qed.

Lemma numIs_div (x y : num) (p q : Q) :
  numIs x p -> numIs y q -> ~ (q == 0)%Q -> numIs (x / y)%num (p / q).
Proof.
  destruct x as [a| | |], y as [b| | |]; cbn [numIs Num.div]; try tauto.
  intros H1 H2 Hq.
  destruct (Num.qsign b) eqn:E.
  - apply qsign_Eq in E. rewrite E in H2. exfalso. apply Hq. symmetry. exact H2.
  - cbn [numIs]. rewrite Qred_correct, H1, H2. reflexivity.
  - cbn [numIs]. rewrite Qred_correct, H1, H2. reflexivity.
Qed.

Lemma numIs_within (x : num) (q lo hi : Q) :
  numIs x q -> (lo <= q)%Q -> (q <= hi)%Q -> Num.within lo hi x.
Proof.
  destruct x; simpl; try tauto. intros H H1 H2. rewrite H. split; assumption.
Qed.

Lemma numIs_eqb0 (x : num) (q : Q) :
  numIs x q -> (x =? Num.ofZ 0)%num = true <-> (q == 0)%Q.
Proof.
  destruct x as [p| | |]; cbn [numIs Num.eqb Num.ofZ]; try tauto. intros H.
  rewrite Qeq_bool_iff. change (inject_Z 0) with 0%Q. rewrite H. tauto.
Qed.

(** ** Order on the numbers that are not NaN *)

Lemma leb_refl (x : num) : x <> NaN -> (x <=? x)%num = true.
Proof.
  destruct x; simpl; try congruence; intros _.
  apply Qle_bool_iff. apply Qle_refl.
Qed.

Lemma leb_trans (x y z : num) :
  (x <=? y)%num = true -> (y <=? z)%num = true -> (x <=? z)%num = true.
Proof.
  destruct x, y, z; simpl; try congruence.
  rewrite !Qle_bool_iff. apply Qle_trans.
Qed.

Lemma leb_total (x y : num) :
  x <> NaN -> y <> NaN -> (x <=? y)%num = false -> (y <=? x)%num = true.
Proof.
  destruct x, y; simpl; try congruence; intros _ _ H.
  apply Qle_bool_iff. destruct (Qlt_le_dec q0 q) as [L|L].
  - apply Qlt_le_weak. exact L.
  - apply Qle_bool_iff in L. congruence.
Qed.

Lemma max_cases (x y : num) :
  x <> NaN -> y <> NaN ->
  (Num.max x y = x \/ Num.max x y = y)
  /\ (x <=? Num.max x y)%num = true /\ (y <=? Num.max x y)%num = true.
Proof.
  intros Hx Hy.
  assert (E : Num.max x y = if (x <=? y)%num then y else x).
  { destruct x, y; try congruence; reflexivity. }
  rewrite E. destruct (x <=? y)%num eqn:L.
  - repeat split; auto using leb_refl.
  - repeat split; auto using leb_refl, leb_total.
Qed.

Lemma orElse_not_NaN (x d : num) : d <> NaN -> Num.orElse x d <> NaN.
Proof.
  intros Hd. unfold Num.orElse. destruct x; simpl; try congruence.
  destruct (negb _); congruence.
Qed.

Lemma floatOr0_not_NaN (s : string) : floatOr0 s <> NaN.
Proof. apply orElse_not_NaN. discriminate. Qed.

Lemma nthOr0_not_NaN (l : list num) (i : nat) : nthOr0 l i <> NaN.
Proof. apply orElse_not_NaN. discriminate. Qed.

(** ** [hslToRgb] *)

Lemma Fin_red (p q : Q) : (p == q)%Q -> Fin (Qred p) = Fin (Qred q).
Proof. intros H. f_equal. apply Qred_complete. exact H. Qed.

Lemma Fin_red_zero (p : Q) : (p == 0)%Q -> Fin (Qred p) = Fin 0.
Proof. intros H. rewrite (Qred_complete p 0 H). reflexivity. Qed.

Lemma mul_zero_r (x : num) : isFinite x -> (x * Fin 0)%num = Fin 0.
Proof.
  destruct x as [q| | |]; cbn [isFinite]; intros H; try destruct H.
  cbn [Num.mul]. apply Fin_red_zero. ring.
Qed.

Lemma mul_zero_l (x : num) : isFinite x -> (Fin 0 * x)%num = Fin 0.
Proof.
  destruct x as [q| | |]; cbn [isFinite]; intros H; try destruct H.
  cbn [Num.mul]. apply Fin_red_zero. ring.
Qed.

Lemma sub_zero (q : Q) : (Fin (Qred q) - Fin 0)%num = Fin (Qred q).
Proof.
  cbn [Num.sub Num.add Num.neg]. apply Fin_red. rewrite Qred_correct.
  change (Qred (- 0)) with 0%Q. ring.
Qed.

Lemma zero_add (q : Q) : (Fin 0 + Fin (Qred q))%num = Fin (Qred q).
Proof. cbn [Num.add]. apply Fin_red. rewrite Qred_correct. ring. Qed.

Lemma isFinite_sub (a b : num) : isFinite a -> isFinite b -> isFinite (a - b)%num.
Proof. destruct a, b; simpl; tauto. Qed.

Lemma isFinite_abs (a : num) : isFinite a -> isFinite (Num.abs a).
Proof. destruct a; simpl; tauto. Qed.

(** X1.  With a saturation of 0, the three channels [hslToRgb] returns
    are all the lightness divided by 100, whatever the hue: a grey. *)
Theorem hsl_without_saturation_is_grey (h l : Q) :
  hslToRgb (Fin h) (Fin 0) (Fin l)
  = ((Fin l / Num.ofZ 100)%num, (Fin l / Num.ofZ 100)%num,
     (Fin l / Num.ofZ 100)%num).
Proof.
  unfold hslToRgb.
  change (Fin 0 / Num.ofZ 100)%num with (Fin 0).
  assert (El : (Fin l / Num.ofZ 100)%num = Fin (Qred (l / inject_Z 100)))
    by reflexivity.
  rewrite El. set (lq := (l / inject_Z 100)%Q).
  assert (Ec : ((Num.one - Num.abs (Num.ofZ 2 * Fin (Qred lq) - Num.one))
                * Fin 0)%num = Fin 0).
  { apply mul_zero_r. apply isFinite_sub; [exact I|]. apply isFinite_abs.
    apply isFinite_sub; [|exact I]. exact I. }
  rewrite Ec.
  assert (Ex : (Fin 0 * (Num.one
                 - Num.abs (Num.rem (Fin h / Num.ofZ 60) (Num.ofZ 2)
                            - Num.one)))%num = Fin 0).
  { apply mul_zero_l. apply isFinite_sub; [exact I|]. apply isFinite_abs.
    apply isFinite_sub; [|exact I]. exact I. }
  rewrite Ex.
  change (Fin 0 / Num.ofZ 2)%num with (Fin 0).
  rewrite sub_zero. change Num.zero with (Fin 0).
  repeat match goal with
         | |- context [if ?b then _ else _] => destruct b
         end; cbv beta iota; rewrite zero_add; reflexivity.
Qed.

(** ** Hex colours *)

Lemma allAscii_complete (c : ascii) : In c allAscii.
Proof.
  unfold allAscii. rewrite <- (ascii_nat_embedding c).
  apply in_map. apply in_seq. pose proof (nat_ascii_bounded c). lia.
Qed.

Lemma forall_ascii (p : ascii -> bool) :
  forallb p allAscii = true -> forall c, p c = true.
Proof.
  intros H c. rewrite forallb_forall in H. apply H. apply allAscii_complete.
Qed.

Lemma hexDigits_complete (c : ascii) : isHexDigit c = true -> In c hexDigits.
Proof.
  intros H. unfold hexDigits. apply filter_In. split; [apply allAscii_complete|exact H].
Qed.

Lemma forall_hex_pairs (p : ascii -> ascii -> bool) :
  forallb (fun a => forallb (p a) hexDigits) hexDigits = true ->
  forall c1 c2, isHexDigit c1 = true -> isHexDigit c2 = true -> p c1 c2 = true.
Proof.
  intros H c1 c2 H1 H2. rewrite forallb_forall in H.
  specialize (H c1 (hexDigits_complete c1 H1)). rewrite forallb_forall in H.
  exact (H c2 (hexDigits_complete c2 H2)).
Qed.

Lemma hexdigit_not_letter (c : ascii) :
  isHexDigit c = true -> Ascii.eqb "r" c = false /\ Ascii.eqb "h" c = false.
Proof.
  intros H.
  assert (E : forallb (fun c => negb (Ascii.eqb "r" c) && negb (Ascii.eqb "h" c))
                      hexDigits = true) by (vm_compute; reflexivity).
  rewrite forallb_forall in E. specialize (E c (hexDigits_complete c H)).
  apply andb_true_iff in E.
  destruct E as [E1 E2]. rewrite negb_true_iff in E1, E2. auto.
Qed.

Lemma numSame_eq (x y : num) : numSame x y = true -> x = y.
Proof.
  destruct x as [[a b]| | |], y as [[c d]| | |]; simpl; try discriminate; auto.
  intros H. apply andb_true_iff in H. destruct H as [H1 H2].
  apply Z.eqb_eq in H1. apply Pos.eqb_eq in H2. subst. reflexivity.
Qed.

Lemma unitInterval_within (v : num) : unitInterval v = true -> Num.within 0 1 v.
Proof.
  unfold unitInterval. destruct v; simpl; try discriminate.
  intros H. apply andb_true_iff in H. destruct H as [H1 H2].
  apply Qle_bool_iff in H1, H2. split; assumption.
Qed.

(** What the two digits of a byte are read as, and written back as. *)
Lemma hex_pair_facts (c1 c2 : ascii) :
  isHexDigit c1 = true -> isHexDigit c2 = true ->
  Num.within 0 1 (hexPair c1 c2)
  /\ hexByte (hexPair c1 c2)
     = String (lowerChar c1) (String (lowerChar c2) EmptyString).
Proof.
  intros H1 H2.
  assert (H : forallb (fun a => forallb (pairRoundTrip a) hexDigits) hexDigits = true)
    by (vm_compute; reflexivity).
  pose proof (forall_hex_pairs _ H c1 c2 H1 H2) as Hb.
  unfold pairRoundTrip in Hb. apply andb_true_iff in Hb. destruct Hb as [B1 B2].
  split; [apply unitInterval_within; exact B1|apply String.eqb_eq; exact B2].
Qed.

Lemma searchFrom_absent (r : Regex.regex) (c0 : ascii) :
  (forall st (k : Regex.mstate -> option Regex.mresult),
      match Regex.rest st with
      | String c _ => Ascii.eqb c0 c = false
      | EmptyString => True
      end -> Regex.run r st k = None) ->
  forall s i p,
    (forall c, In c (list_ascii_of_string s) -> Ascii.eqb c0 c = false) ->
    Regex.searchFrom r i p s = None.
Proof.
  intros Hr s. induction s as [|c s IH]; intros i p Hs.
  - simpl. unfold Regex.matchHere. rewrite Hr; simpl; auto.
  - simpl. unfold Regex.matchHere. rewrite Hr.
    + apply IH. intros c' Hc'. apply Hs. simpl. auto.
    + simpl. apply Hs. simpl. auto.
Qed.

Lemma run_lit_head (c0 : ascii) (r1 r2 : Regex.regex) st
  (k : Regex.mstate -> option Regex.mresult) :
  match Regex.rest st with
  | String c _ => Ascii.eqb c0 c = false
  | EmptyString => True
  end ->
  Regex.run (Regex.Seq (Regex.Seq (Regex.ch c0) r1) r2) st k = None.
Proof.
  intros H. simpl. destruct (Regex.rest st) as [|c s]; [reflexivity|].
  unfold Regex.ch. rewrite H. reflexivity.
Qed.

(** A text without the letters r and h matches none of the functional
    notations. *)
Lemma hex_text_not_functional (s : string) :
  (forall c, In c (list_ascii_of_string s) ->
             Ascii.eqb "r" c = false /\ Ascii.eqb "h" c = false) ->
  Regex.exec reRgbaComma s = None /\ Regex.exec reRgbaSpace s = None
  /\ Regex.exec reHsl s = None.
Proof.
  intros H. unfold Regex.exec. repeat split.
  - apply searchFrom_absent with (c0 := "r"%char); [|intros c Hc; apply H; exact Hc].
    intros st k Hst. apply run_lit_head. exact Hst.
  - apply searchFrom_absent with (c0 := "r"%char); [|intros c Hc; apply H; exact Hc].
    intros st k Hst. apply run_lit_head. exact Hst.
  - apply searchFrom_absent with (c0 := "h"%char); [|intros c Hc; apply H; exact Hc].
    intros st k Hst. apply run_lit_head. exact Hst.
Qed.

Lemma parseColor_hex6 (c1 c2 c3 c4 c5 c6 : ascii) (fallback : option RGBA) :
  isHexDigit c1 = true -> isHexDigit c2 = true -> isHexDigit c3 = true ->
  isHexDigit c4 = true -> isHexDigit c5 = true -> isHexDigit c6 = true ->
  parseColor (String "#" (String c1 (String c2 (String c3 (String c4
               (String c5 (String c6 EmptyString))))))) fallback
  = Rgba (hexPair c1 c2) (hexPair c3 c4) (hexPair c5 c6) (Num.ofZ 1).
Proof.
  intros H1 H2 H3 H4 H5 H6.
  set (s := String "#" _).
  assert (Hs : forall c, In c (list_ascii_of_string s) ->
                         Ascii.eqb "r" c = false /\ Ascii.eqb "h" c = false).
  { intros c Hc. simpl in Hc.
    destruct Hc as [<-|[<-|[<-|[<-|[<-|[<-|[<-|[]]]]]]]];
      try (apply hexdigit_not_letter; assumption). split; reflexivity. }
  destruct (hex_text_not_functional s Hs) as (E1 & E2 & E3).
  unfold parseColor. rewrite E1, E2, E3.
  assert (K : isContextKeyword s = false) by reflexivity.
  assert (T : isTransparentLiteral s = false) by reflexivity.
  rewrite K, T.
  assert (X : Regex.exec reHex s
              = Some (Regex.MResult 0 s
                        [(1, String c1 (String c2 (String c3 (String c4
                               (String c5 (String c6 EmptyString))))))] "")).
  { unfold s, Regex.exec, reHex, Regex.searchFrom, Regex.matchHere.
    cbn. unfold Regex.hexdigit. cbn. rewrite H1. cbn. rewrite H2. cbn. rewrite H3. cbn.
    rewrite H4. cbn. rewrite H5. cbn. rewrite H6. cbn. reflexivity. }
  rewrite X. reflexivity.
Qed.

Lemma byteRoundTrip_all (n : Z) : (0 <= n <= 255)%Z -> byteRoundTrip n = true.
Proof.
  intros Hn.
  assert (H : forallb byteRoundTrip octets = true) by (vm_compute; reflexivity).
  rewrite forallb_forall in H. apply H. unfold octets.
  rewrite <- (Z2Nat.id n) by lia. apply in_map. apply in_seq. lia.
Qed.

Lemma round_byte (q : Q) : (0 <= q)%Q -> (q <= 1)%Q ->
  exists n, (0 <= n <= 255)%Z /\ Num.round (Fin q * Num.ofZ 255) = Num.ofZ n.
Proof.
  intros H0 H1. cbn [Num.mul Num.ofZ Num.round].
  exists (Qfloor (Qred (q * inject_Z 255) + (1 # 2))). split; [|reflexivity].
  assert (E : (Qred (q * inject_Z 255) == q * 255)%Q) by (rewrite Qred_correct; reflexivity).
  split.
  - apply Qfloor_resp_le with (x := 0%Q) (y := (Qred (q * inject_Z 255) + (1 # 2))%Q).
    rewrite E. lra.
  - assert (L : (Qfloor (Qred (q * inject_Z 255) + (1 # 2)) <= Qfloor (255 + (1 # 2)))%Z).
    { apply Qfloor_resp_le. rewrite E. lra. }
    change (Qfloor (255 + (1 # 2))) with 255%Z in L. exact L.
Qed.

Lemma hexByte_cases (q : Q) : (0 <= q)%Q -> (q <= 1)%Q ->
  exists c1 c2,
    hexByte (Fin q) = String c1 (String c2 EmptyString)
    /\ isHexDigit c1 = true /\ isHexDigit c2 = true
    /\ hexPair c1 c2 = (Num.round (Fin q * Num.ofZ 255) / Num.ofZ 255)%num.
Proof.
  intros H0 H1. destruct (round_byte H0 H1) as (n & Hn & En).
  pose proof (byteRoundTrip_all Hn) as B. unfold byteRoundTrip in B.
  unfold hexByte, roundToString16. rewrite En.
  cbn [Num.ofZ]. rewrite Qfloor_Z.
  destruct (padStart 2 "0" (intToString16 n)) as [|c1 [|c2 [|? ?]]]; try discriminate.
  exists c1, c2. apply andb_true_iff in B. destruct B as [B B3].
  apply andb_true_iff in B. destruct B as [B1 B2].
  apply numSame_eq in B3. auto.
Qed.

(** X2.  Writing a colour whose red, green and blue lie in [0, 1] as
    [#rrggbb] with [rgbaToHex] and reading the text back with [parseColor]
    gives each channel rounded to the nearest 255th, and alpha 1. *)
Theorem hex_string_reads_back_quantized (r g b : Q) (a : num) :
  (0 <= r)%Q /\ (r <= 1)%Q -> (0 <= g)%Q /\ (g <= 1)%Q ->
  (0 <= b)%Q /\ (b <= 1)%Q ->
  parseColor (rgbaToHex (Rgba (Fin r) (Fin g) (Fin b) a) false) None
  = Rgba (quantized (Fin r)) (quantized (Fin g)) (quantized (Fin b)) (Num.ofZ 1).
Proof.
  intros [Hr0 Hr1] [Hg0 Hg1] [Hb0 Hb1].
  destruct (hexByte_cases Hr0 Hr1) as (c1 & c2 & E1 & D1 & D2 & P1).
  destruct (hexByte_cases Hg0 Hg1) as (c3 & c4 & E2 & D3 & D4 & P2).
  destruct (hexByte_cases Hb0 Hb1) as (c5 & c6 & E3 & D5 & D6 & P3).
  unfold rgbaToHex. cbn [channelNums andb]. rewrite E1, E2, E3.
  cbn [append]. rewrite parseColor_hex6 by assumption.
  unfold quantized. rewrite P1, P2, P3. reflexivity.
Qed.

(** Orange at a quarter alpha is written as [#ff8000]; read back, green is
    128/255 and alpha is 1. *)
Lemma hex_string_reads_back_quantized_witness :
  rgbaToHex (Rgba (Fin 1) (Fin (1 # 2)) (Fin 0) (Fin (1 # 4))) false = "#ff8000"
  /\ parseColor (rgbaToHex (Rgba (Fin 1) (Fin (1 # 2)) (Fin 0) (Fin (1 # 4))) false) None
     = Rgba (Num.ofZ 1) (Num.frac 128 255) (Num.ofZ 0) (Num.ofZ 1).
Proof.
  split; [vm_compute; reflexivity|].
  apply (@hex_string_reads_back_quantized 1 (1 # 2) 0 (Fin (1 # 4)));
    split; unfold Qle; simpl; lia.
Defined.

(** X3.  A six-digit hex colour read by [parseColor] and written again by
    [rgbaToHex] is the same text in lower case. *)
Theorem hex_colour_prints_back (c1 c2 c3 c4 c5 c6 : ascii) :
  isHexDigit c1 = true -> isHexDigit c2 = true -> isHexDigit c3 = true ->
  isHexDigit c4 = true -> isHexDigit c5 = true -> isHexDigit c6 = true ->
  rgbaToHex
    (parseColor (String "#" (String c1 (String c2 (String c3 (String c4
                   (String c5 (String c6 EmptyString))))))) None) false
  = toLowerCase (String "#" (String c1 (String c2 (String c3 (String c4
                   (String c5 (String c6 EmptyString))))))).
Proof.
  intros H1 H2 H3 H4 H5 H6. rewrite parseColor_hex6 by assumption.
  unfold rgbaToHex. cbn [channelNums andb].
  rewrite (proj2 (hex_pair_facts c1 c2 H1 H2)),
          (proj2 (hex_pair_facts c3 c4 H3 H4)),
          (proj2 (hex_pair_facts c5 c6 H5 H6)). reflexivity.
Qed.

Lemma hex_colour_prints_back_witness :
  rgbaToHex (parseColor "#1A2b3C" None) false = "#1a2b3c".
Proof.
  apply (@hex_colour_prints_back "1" "A" "2" "b" "3" "C"); reflexivity.
Defined.

Lemma clamped_intro (r g b a : num) :
  Num.within 0 1 r -> Num.within 0 1 g -> Num.within 0 1 b ->
  Num.within 0 1 a -> clamped (Rgba r g b a).
Proof. intros. unfold clamped. cbn [channels]. repeat apply Forall_cons; auto. Qed.

(** X4.  For a text of hex digits of any length, every channel
    [parseHexColor] returns lies in [0, 1]; a length other than 3, 4, 6 or
    8 gives opaque black. *)
Theorem hex_colour_is_clamped (hex : string) :
  allHexDigits hex = true -> clamped (parseHexColor hex).
Proof.
  assert (W1 : Num.within 0 1 (Num.ofZ 1)) by (split; unfold Qle; simpl; lia).
  assert (W0 : Num.within 0 1 (Num.ofZ 0)) by (split; unfold Qle; simpl; lia).
  intros H. unfold parseHexColor, opaqueBlack.
  do 9 (try (destruct hex as [|? hex];
             [|cbn [allHexDigits] in H; apply andb_true_iff in H;
               let D := fresh "D" in destruct H as [D H]])).
  all: apply clamped_intro;
    first [assumption | apply hex_pair_facts; assumption].
Qed.

(** [f80c], the four-digit form: each digit is doubled, alpha included. *)
Lemma hex_colour_is_clamped_witness :
  parseHexColor "f80c"
  = Rgba (Num.ofZ 1) (Num.frac 136 255) (Num.ofZ 0) (Num.frac 204 255)
  /\ clamped (parseHexColor "f80c").
Proof.
  split; [vm_compute; reflexivity|].
  apply (@hex_colour_is_clamped "f80c"). reflexivity.
Defined.

(** ** [blendColors] *)

Lemma within_numIs (lo hi : Q) (x : num) :
  Num.within lo hi x -> exists q, x = Fin q /\ (lo <= q)%Q /\ (q <= hi)%Q.
Proof. destruct x; simpl; try tauto. intros [H1 H2]. eauto. Qed.

Lemma clamped_inv (c : RGBA) :
  clamped c ->
  exists r g b a, c = Rgba (Fin r) (Fin g) (Fin b) (Fin a)
    /\ ((0 <= r)%Q /\ (r <= 1)%Q) /\ ((0 <= g)%Q /\ (g <= 1)%Q)
    /\ ((0 <= b)%Q /\ (b <= 1)%Q) /\ ((0 <= a)%Q /\ (a <= 1)%Q).
Proof.
  unfold clamped. destruct c as [r g b a|k]; simpl; intros H.
  - inversion H as [|? ? Hr H1]; subst. inversion H1 as [|? ? Hg H2]; subst.
    inversion H2 as [|? ? Hb H3]; subst. inversion H3 as [|? ? Ha _]; subst.
    simpl in Hr, Hg, Hb, Ha.
    apply within_numIs in Hr, Hg, Hb, Ha.
    destruct Hr as (r' & -> & Hr), Hg as (g' & -> & Hg),
             Hb as (b' & -> & Hb), Ha as (a' & -> & Ha).
    exists r', g', b', a'. auto.
  - inversion H as [|? ? Hr _]; subst. destruct Hr.
Qed.

(** One channel of the blend. *)
Lemma blend_channel (t b ta ba : Q) (a : num) (aq : Q) :
  (0 <= t)%Q /\ (t <= 1)%Q -> (0 <= b)%Q /\ (b <= 1)%Q ->
  (0 <= ta)%Q /\ (ta <= 1)%Q -> (0 <= ba)%Q /\ (ba <= 1)%Q ->
  numIs a aq -> (aq == ta + ba * (1 - ta))%Q -> ~ (aq == 0)%Q ->
  Num.within 0 1
    ((Fin t * Fin ta + Fin b * Fin ba * (Num.ofZ 1 - Fin ta)) / a)%num.
Proof.
  intros [Ht0 Ht1] [Hb0 Hb1] [Hta0 Hta1] [Hba0 Hba1] Ha Eaq Hnz.
  assert (En : numIs (Fin t * Fin ta + Fin b * Fin ba * (Num.ofZ 1 - Fin ta))%num
                     (t * ta + b * ba * (1 - ta))).
  { apply numIs_add; [apply numIs_mul; apply numIs_Fin|].
    apply numIs_mul; [apply numIs_mul; apply numIs_Fin|].
    apply numIs_sub; [apply numIs_ofZ|apply numIs_Fin]. }
  pose proof (@numIs_div _ _ _ _ En Ha Hnz) as Ed.
  assert (Hw : (0 <= ba * (1 - ta))%Q) by nra.
  assert (Hpos : (0 < aq)%Q).
  { assert (0 <= aq)%Q by (rewrite Eaq; lra).
    apply Qle_lteq in H. destruct H as [H|H]; [exact H|]. exfalso. apply Hnz. symmetry. exact H. }
  eapply numIs_within; [exact Ed| |].
  - apply Qle_shift_div_l; [exact Hpos|]. rewrite Qmult_0_l. nra.
  - apply Qle_shift_div_r; [exact Hpos|]. rewrite Qmult_1_l, Eaq. nra.
Qed.

(** X5.  Blending two colours whose channels all lie in [0, 1] gives a
    colour whose channels all lie in [0, 1]. *)
Theorem blend_stays_in_range (top bottom : RGBA) :
  clamped top -> clamped bottom -> clamped (blendColors top bottom).
Proof.
  intros Ht Hb.
  destruct (@clamped_inv _ Ht) as (tr & tg & tb & ta & -> & Htr & Htg & Htb & Hta).
  destruct (@clamped_inv _ Hb) as (br & bg & bb & ba & -> & Hbr & Hbg & Hbb & Hba).
  unfold blendColors. cbn [channelNums].
  set (a := (Fin ta + Fin ba * (Num.ofZ 1 - Fin ta))%num).
  assert (Ea : numIs a (ta + ba * (1 - ta))).
  { apply numIs_add; [apply numIs_Fin|]. apply numIs_mul; [apply numIs_Fin|].
    apply numIs_sub; [apply numIs_ofZ|apply numIs_Fin]. }
  clearbody a. destruct (@numIs_inv _ _ Ea) as (aq & Eq & Haq).
  destruct (a =? Num.ofZ 0)%num eqn:Ez.
  - unfold clamped. simpl. repeat constructor; unfold Qle; simpl; lia.
  - assert (Hnz : ~ (aq == 0)%Q).
    { intro E. rewrite Eq in Ez. cbn [Num.eqb Num.ofZ] in Ez.
      apply Qeq_bool_iff in E. unfold inject_Z in Ez. congruence. }
    assert (Ea' : numIs a aq) by (rewrite Eq; apply numIs_Fin).
    unfold clamped. cbn [channels].
    repeat constructor; cbn [channelOk];
      try (apply (@blend_channel _ _ ta ba a aq); assumption).
    destruct Hta, Hba.
    rewrite Eq. cbn [Num.within]. rewrite Haq. split; nra.
Qed.

(** Half-transparent white over opaque black is opaque mid-grey. *)
Lemma blend_stays_in_range_witness :
  blendColors (Rgba (Fin 1) (Fin 1) (Fin 1) (Fin (1 # 2)))
              (Rgba (Fin 0) (Fin 0) (Fin 0) (Fin 1))
  = Rgba (Num.frac 1 2) (Num.frac 1 2) (Num.frac 1 2) (Num.ofZ 1)
  /\ clamped (blendColors (Rgba (Fin 1) (Fin 1) (Fin 1) (Fin (1 # 2)))
                          (Rgba (Fin 0) (Fin 0) (Fin 0) (Fin 1))).
Proof.
  split; [vm_compute; reflexivity|].
  apply (@blend_stays_in_range (Rgba (Fin 1) (Fin 1) (Fin 1) (Fin (1 # 2)))
                               (Rgba (Fin 0) (Fin 0) (Fin 0) (Fin 1)));
    unfold clamped; simpl; repeat constructor; unfold Qle; simpl; lia.
Defined.

(** The blend of two colours of finite channels, when the resulting alpha
    is not 0. *)
Lemma blend_value (tr tg tb ta br bg bb ba : Q) :
  ~ (ta + ba * (1 - ta) == 0)%Q ->
  colourIs (blendColors (Rgba (Fin tr) (Fin tg) (Fin tb) (Fin ta))
                        (Rgba (Fin br) (Fin bg) (Fin bb) (Fin ba)))
           ((tr * ta + br * ba * (1 - ta)) / (ta + ba * (1 - ta)))
           ((tg * ta + bg * ba * (1 - ta)) / (ta + ba * (1 - ta)))
           ((tb * ta + bb * ba * (1 - ta)) / (ta + ba * (1 - ta)))
           (ta + ba * (1 - ta)).
Proof.
  intros Hnz. unfold blendColors. cbn [channelNums].
  set (a := (Fin ta + Fin ba * (Num.ofZ 1 - Fin ta))%num).
  assert (Ea : numIs a (ta + ba * (1 - ta))).
  { apply numIs_add; [apply numIs_Fin|]. apply numIs_mul; [apply numIs_Fin|].
    apply numIs_sub; [apply numIs_ofZ|apply numIs_Fin]. }
  clearbody a.
  destruct (a =? Num.ofZ 0)%num eqn:Ez.
  - exfalso. apply Hnz. apply (numIs_eqb0 _ _ Ea). exact Ez.
  - assert (En : forall t b,
      numIs (Fin t * Fin ta + Fin b * Fin ba * (Num.ofZ 1 - Fin ta))%num
            (t * ta + b * ba * (1 - ta))).
    { intros t b. apply numIs_add; [apply numIs_mul; apply numIs_Fin|].
      apply numIs_mul; [apply numIs_mul; apply numIs_Fin|].
      apply numIs_sub; [apply numIs_ofZ|apply numIs_Fin]. }
    cbn [colourIs]. repeat split; try (apply numIs_div; [apply En|exact Ea|exact Hnz]).
    exact Ea.
Qed.

(** X6.  Over a bottom colour whose channels lie in [0, 1]: an opaque top
    colour hides it, the result has the red, green and blue of the top
    colour and alpha 1; under a fully transparent top colour the alpha of
    the result is the alpha of the bottom colour; and two fully
    transparent colours blend to transparent black. *)
Theorem blend_extremes (tr tg tb br bg bb ba : Q) :
  clamped (Rgba (Fin br) (Fin bg) (Fin bb) (Fin ba)) ->
  colourIs (blendColors (Rgba (Fin tr) (Fin tg) (Fin tb) (Num.ofZ 1))
                        (Rgba (Fin br) (Fin bg) (Fin bb) (Fin ba)))
           tr tg tb 1
  /\ alphaIs (blendColors (Rgba (Fin tr) (Fin tg) (Fin tb) (Num.ofZ 0))
                          (Rgba (Fin br) (Fin bg) (Fin bb) (Fin ba)))
             ba
  /\ blendColors (Rgba (Fin tr) (Fin tg) (Fin tb) (Num.ofZ 0))
                 (Rgba (Fin br) (Fin bg) (Fin bb) (Num.ofZ 0))
     = Rgba (Num.ofZ 0) (Num.ofZ 0) (Num.ofZ 0) (Num.ofZ 0).
Proof.
  intros _. split; [|split].
  - assert (Hnz : ~ (1 + ba * (1 - 1) == 0)%Q).
    { intro E. assert (X : (1 + ba * (1 - 1) == 1)%Q) by ring. rewrite X in E. discriminate E. }
    pose proof (@blend_value tr tg tb 1 br bg bb ba Hnz) as H.
    change (Fin 1) with (Num.ofZ 1) in H.
    destruct (blendColors _ _) as [x y z w|]; cbn [colourIs] in *; [|exact H].
    destruct H as (H1 & H2 & H3 & H4).
    repeat split; eapply numIs_eq; try eassumption; field; exact Hnz.
  - destruct (Qeq_dec ba 0) as [Hz|Hba].
    + unfold blendColors. cbn [channelNums].
      set (a := (Num.ofZ 0 + Fin ba * (Num.ofZ 1 - Num.ofZ 0))%num).
      assert (Ea : numIs a (0 + ba * (1 - 0))).
      { apply numIs_add; [apply numIs_ofZ|]. apply numIs_mul; [apply numIs_Fin|].
        apply numIs_sub; apply numIs_ofZ. }
      assert (Ez : (a =? Num.ofZ 0)%num = true).
      { apply (numIs_eqb0 _ _ Ea). rewrite Hz. ring. }
      rewrite Ez. cbn [alphaIs numIs Num.ofZ]. rewrite Hz. reflexivity.
    + assert (Hnz : ~ (0 + ba * (1 - 0) == 0)%Q).
      { intro E. apply Hba. rewrite <- E. ring. }
      pose proof (@blend_value tr tg tb 0 br bg bb ba Hnz) as H.
      change (Fin 0) with (Num.ofZ 0) in H.
      destruct (blendColors _ _) as [x y z w|]; cbn [colourIs alphaIs] in *;
        [|exact H].
      destruct H as (_ & _ & _ & H4). eapply numIs_eq; [exact H4|]. ring.
  - unfold blendColors. cbn [channelNums].
    assert (E : ((Num.ofZ 0 + Num.ofZ 0 * (Num.ofZ 1 - Num.ofZ 0)) =? Num.ofZ 0)%num = true)
      by reflexivity.
    rewrite E. reflexivity.
Qed.

(** Orange over a quarter-opaque blue: orange when opaque; when fully
    transparent, the blue with its alpha of 1/4. *)
Lemma blend_extremes_witness :
  blendColors (Rgba (Fin 1) (Fin (1 # 2)) (Fin 0) (Num.ofZ 1))
              (Rgba (Fin 0) (Fin 0) (Fin 1) (Fin (1 # 4)))
  = Rgba (Num.ofZ 1) (Num.frac 1 2) (Num.ofZ 0) (Num.ofZ 1)
  /\ blendColors (Rgba (Fin 1) (Fin (1 # 2)) (Fin 0) (Num.ofZ 0))
                 (Rgba (Fin 0) (Fin 0) (Fin 1) (Fin (1 # 4)))
     = Rgba (Num.ofZ 0) (Num.ofZ 0) (Num.ofZ 1) (Num.frac 1 4)
  /\ alphaIs (blendColors (Rgba (Fin 1) (Fin (1 # 2)) (Fin 0) (Num.ofZ 0))
                          (Rgba (Fin 0) (Fin 0) (Fin 1) (Fin (1 # 4))))
             (1 # 4).
Proof.
  split; [vm_compute; reflexivity|]. split; [vm_compute; reflexivity|].
  apply (@blend_extremes 1 (1 # 2) 0 0 0 1 (1 # 4)).
  unfold clamped; simpl; repeat constructor; unfold Qle; simpl; lia.
Defined.

(** ** [extractBalancedParens] *)

Lemma str_drop_app (a b : string) : drop (String.length a) (a ++ b) = b.
Proof. induction a; simpl; auto. Qed.

Lemma str_take_app (a b : string) : take (String.length a) (a ++ b) = a.
Proof. induction a; simpl; [destruct b; reflexivity|congruence]. Qed.

Lemma str_length_app (a b : string) :
  String.length (a ++ b) = String.length a + String.length b.
Proof. induction a; simpl; auto. Qed.

Lemma balancedEnd_app (s t : string) :
  forall d d' i, 0 < d -> depthAfter s d = Some d' ->
    balancedEnd (s ++ t) d i = balancedEnd t d' (i + String.length s).
Proof.
  induction s as [|c s IH]; intros d d' i Hd H.
  - simpl in *. injection H as <-. rewrite Nat.add_0_r. reflexivity.
  - destruct d as [|d]; [lia|]. cbn [append balancedEnd String.length].
    cbn [depthAfter] in H. unfold depthStep in H. cbv zeta in *.
    destruct (Ascii.eqb c "("), (Ascii.eqb c ")");
      cbn [Nat.sub] in *; rewrite ?Nat.sub_0_r in *.
    + rewrite (IH (S d) d' (S i)); [f_equal; lia|lia|exact H].
    + rewrite (IH (S (S d)) d' (S i)); [f_equal; lia|lia|exact H].
    + destruct d as [|d0]; [discriminate|].
      rewrite (IH (S d0) d' (S i)); [f_equal; lia|lia|exact H].
    + rewrite (IH (S d) d' (S i)); [f_equal; lia|lia|exact H].
Qed.

Lemma substring_slice (pre s rest : string) :
  substring (pre ++ s ++ rest) (Z.of_nat (String.length pre))
            (Z.of_nat (String.length pre + String.length s)) = s.
Proof.
  unfold substring. rewrite !str_length_app.
  match goal with
  | |- take (Z.to_nat ?e) (drop (Z.to_nat ?lo) _) = _ =>
      replace e with (Z.of_nat (String.length s)) by lia;
      replace lo with (Z.of_nat (String.length pre)) by lia
  end.
  rewrite !Nat2Z.id, str_drop_app. apply str_take_app.
Qed.

Lemma balancedEnd_closed (s : string) (i : nat) : balancedEnd s 0 i = i.
Proof. destruct s; reflexivity. Qed.

(** X7.  When the text after the opening parenthesis at [startIndex - 1]
    is a text [s] with balanced parentheses followed by a closing one,
    [extractBalancedParens] returns exactly [s], nested parentheses
    included. *)
Theorem balanced_content_is_extracted (pre s post : string) :
  balancedText s ->
  extractBalancedParens (pre ++ s ++ ")" ++ post) (String.length pre) = s.
Proof.
  intros H. unfold extractBalancedParens.
  rewrite str_drop_app.
  rewrite (@balancedEnd_app s (")" ++ post) 1 1 (String.length pre)); [|lia|exact H].
  cbn [append]. simpl balancedEnd. rewrite balancedEnd_closed.
  replace (Z.of_nat (S (String.length pre + String.length s)) - 1)%Z
    with (Z.of_nat (String.length pre + String.length s)) by lia.
  apply substring_slice.
Qed.

(** The arguments of a gradient that holds two functional colours. *)
Lemma balanced_content_is_extracted_witness :
  extractBalancedParens
    "linear-gradient(to right, rgba(255, 0, 0, 0.5), hsl(0, 0%, 0%)) no-repeat" 16
  = "to right, rgba(255, 0, 0, 0.5), hsl(0, 0%, 0%)".
Proof.
  apply (@balanced_content_is_extracted "linear-gradient("
           "to right, rgba(255, 0, 0, 0.5), hsl(0, 0%, 0%)" " no-repeat").
  reflexivity.
Defined.

(** ** Text shadows *)

Lemma filterMap_Forall' {A B : Type} (f : A -> option B) (Q : B -> Prop) (l : list A) :
  (forall a b, f a = Some b -> Q b) -> Forall Q (filterMap f l).
Proof.
  intros H. induction l as [|a l IH]; simpl; [constructor|].
  destruct (f a) eqn:E; [constructor; eauto|exact IH].
Qed.


(** X8.  Every effect [parseTextShadow] returns is a visible drop shadow
    of spread 0 whose offsets and radius are numbers (never NaN); an empty
    value and [none] give no effect. *)
Theorem text_shadows_are_plain_drop_shadows (styles : CSSStyleDeclaration) :
  Forall isPlainDropShadow (StyleParserExtra.parseTextShadow styles)
  /\ (styles "textShadow" = "" \/ styles "textShadow" = "none" ->
      StyleParserExtra.parseTextShadow styles = []).
Proof.
  split.
  - unfold StyleParserExtra.parseTextShadow. destruct (_ || _); [constructor|].
    apply Forall_map. apply filterMap_Forall'.
    intros a s. unfold StyleParserExtra.parseSingleTextShadow.
    destruct (extractShadowColor (trim a)) as [c rest].
    destruct (_ <? 2); [discriminate|]. intros H. injection H as <-.
    simpl. repeat split; apply nthOr0_not_NaN.
  - unfold StyleParserExtra.parseTextShadow. intros [-> | ->]; reflexivity.
Qed.

Lemma replaceStr_absent (s pat rep : string) :
  includes s pat = false -> replaceStr s pat rep = s.
Proof.
  unfold includes, replaceStr. destruct (indexOf s pat); [discriminate|reflexivity].
Qed.


(** X9.  On a text that does not contain [inset], [parseSingleTextShadow]
    returns what [parseSingleShadow] returns with the spread set to 0, and
    nothing where that returns nothing. *)
Theorem text_shadow_is_box_shadow_without_spread (shadowStr : string) :
  includes shadowStr "inset" = false ->
  StyleParserExtra.parseSingleTextShadow shadowStr
  = option_map withoutSpread (parseSingleShadow shadowStr).
Proof.
  intros H. unfold StyleParserExtra.parseSingleTextShadow, parseSingleShadow.
  rewrite H, (@replaceStr_absent shadowStr "inset" EmptyString H).
  destruct (extractShadowColor (trim shadowStr)) as [c rest].
  destruct (_ <? 2); reflexivity.
Qed.

(** A shadow with a fourth length: the box shadow keeps it as spread, the
    text shadow does not. *)
Lemma text_shadow_is_box_shadow_without_spread_witness :
  StyleParserExtra.parseSingleTextShadow "1px 2px 3px 9px #fff"
  = option_map withoutSpread (parseSingleShadow "1px 2px 3px 9px #fff").
Proof.
  apply (@text_shadow_is_box_shadow_without_spread "1px 2px 3px 9px #fff").
  reflexivity.
Defined.

(** ** Borders and auto-layout *)

Lemma fold_max_spec (l : list num) :
  forall acc, acc <> NaN -> Forall (fun x => x <> NaN) l ->
    let m := fold_left Num.max l acc in
    m <> NaN /\ (acc <=? m)%num = true
    /\ Forall (fun x => (x <=? m)%num = true) l
    /\ (m = acc \/ In m l).
Proof.
  induction l as [|a l IH]; intros acc Hacc Hl; cbn [fold_left].
  - repeat split; auto using leb_refl.
  - inversion Hl as [|? ? Ha Hl']; subst.
    destruct (max_cases Hacc Ha) as (Hc & L1 & L2).
    assert (Hm : Num.max acc a <> NaN) by (destruct Hc as [-> | ->]; assumption).
    destruct (IH (Num.max acc a) Hm Hl') as (N & B & F & I).
    repeat split.
    + exact N.
    + eapply leb_trans; eassumption.
    + constructor; [eapply leb_trans; eassumption|exact F].
    + destruct I as [I|I]; [|right; right; exact I].
      destruct Hc as [Hc|Hc]; rewrite Hc in I; [left|right; left]; congruence.
Qed.


(* Implicit arguments are not computed for the next statement: finding
   them would unfold [parseBorder] on a variable. *)
Unset Implicit Arguments.

(** X10.  When [parseBorder] returns a stroke, its weight is one of the
    four side widths and no side is wider, the weight is positive, the
    stroke is inside, and its colour is not transparent. *)
Theorem border_weight_is_widest_side (styles : CSSStyleDeclaration)
  (s : StrokeConfig) :
  parseBorder styles = Some s ->
  In (weight s) (sideWidths styles)
  /\ Forall (fun w => (w <=? weight s)%num = true) (sideWidths styles)
  /\ (weight s >? Num.ofZ 0)%num = true
  /\ strokePosition s = INSIDE
  /\ isTransparent (strokeColor s) = false.
Proof.
  unfold parseBorder, sideWidths. cbv zeta. cbn [map].
  pose proof (floatOr0_not_NaN (styles "borderTopWidth")) as N1.
  pose proof (floatOr0_not_NaN (styles "borderRightWidth")) as N2.
  pose proof (floatOr0_not_NaN (styles "borderBottomWidth")) as N3.
  pose proof (floatOr0_not_NaN (styles "borderLeftWidth")) as N4.
  revert N1 N2 N3 N4.
  generalize (floatOr0 (styles "borderTopWidth")) as t.
  generalize (floatOr0 (styles "borderRightWidth")) as r.
  generalize (floatOr0 (styles "borderBottomWidth")) as b.
  generalize (floatOr0 (styles "borderLeftWidth")) as l.
  intros l b r t N1 N2 N3 N4.
  generalize (orStr (styles "borderTopColor")
                      (orStr (styles "borderRightColor")
                         (orStr (styles "borderBottomColor")
                                (styles "borderLeftColor")))) as colorStr.
  generalize (orStr (styles "borderTopStyle")
                         (orStr (styles "borderRightStyle")
                            (orStr (styles "borderBottomStyle")
                                   (styles "borderLeftStyle")))) as borderStyle.
  intros borderStyle colorStr.
  generalize (parseColor colorStr (Some (parseColor (styles "color") None))) as color.
  intros color.
  assert (Hs : Forall (fun x => x <> NaN) [t; r; b; l]) by (repeat constructor; assumption).
  assert (HN : NInf <> NaN) by discriminate.
  destruct (fold_max_spec HN Hs) as (N & _ & F & I).
  fold (Num.maxList [t; r; b; l]) in N, F, I.
  generalize dependent (Num.maxList [t; r; b; l]). intros m N F I.
  destruct (m >? Num.ofZ 0)%num eqn:Hpos; [|discriminate].
  destruct (truthy colorStr && negb (String.eqb borderStyle "none")); [|discriminate].
  destruct (isTransparent color) eqn:Ht; [discriminate|]. cbn [negb].
  intros H. injection H as <-. cbn [weight strokePosition strokeColor].
  repeat split; auto.
  destruct I as [I|I]; [|exact I].
  rewrite I in Hpos. discriminate Hpos.
Qed.

Set Implicit Arguments.


(** A 2px top and a 1px left border: the weight is 2. *)
Lemma border_weight_is_widest_side_witness :
  exists s, parseBorder solidBorder = Some s /\ weight s = Num.ofZ 2
            /\ In (weight s) (sideWidths solidBorder).
Proof.
  eexists. split; [vm_compute; reflexivity|]. split; [reflexivity|].
  eapply (@border_weight_is_widest_side solidBorder _). vm_compute. reflexivity.
Defined.


Lemma inList_cons (x y : string) (l : list string) :
  inList x (y :: l) = String.eqb x y || inList x l.
Proof. reflexivity. Qed.

(** X11.  [parseAutoLayout] returns nothing exactly when the element is
    absolutely positioned ([absolute] or [fixed]) or its [display] is none
    of grid, flex, the block-like and the inline-like values. *)
Theorem auto_layout_absent_iff (styles : CSSStyleDeclaration) :
  parseAutoLayout styles = None
  <-> StyleParserExtra.isAbsolutelyPositioned styles = true
      \/ inList (styles "display") layoutDisplays = false.
Proof.
  unfold parseAutoLayout, StyleParserExtra.isAbsolutelyPositioned, parseGridAsAutoLayout,
    isBlockDisplay, layoutDisplays.
  cbv zeta. rewrite !inList_cons.
  destruct (String.eqb (styles "position") "absolute" || String.eqb (styles "position") "fixed").
  { split; auto. }
  set (d := styles "display").
  destruct (String.eqb d "grid"); [cbn [orb]; split; [discriminate|intros [?|?]; discriminate]|].
  destruct (String.eqb d "inline-grid"); [cbn [orb]; split; [discriminate|intros [?|?]; discriminate]|].
  destruct (String.eqb d "flex"); [cbn [orb]; split; [discriminate|intros [?|?]; discriminate]|].
  destruct (String.eqb d "inline-flex"); [cbn [orb]; split; [discriminate|intros [?|?]; discriminate]|].
  destruct (String.eqb d "block"); [cbn [orb]; split; [discriminate|intros [?|?]; discriminate]|].
  destruct (String.eqb d "list-item"); [cbn [orb]; split; [discriminate|intros [?|?]; discriminate]|].
  destruct (String.eqb d "flow-root"); [cbn [orb]; split; [discriminate|intros [?|?]; discriminate]|].
  destruct (String.eqb d "table"); [cbn [orb]; split; [discriminate|intros [?|?]; discriminate]|].
  destruct (String.eqb d "table-row-group"); [cbn [orb]; split; [discriminate|intros [?|?]; discriminate]|].
  destruct (String.eqb d "table-row"); [cbn [orb]; split; [discriminate|intros [?|?]; discriminate]|].
  destruct (String.eqb d "inline-block"); [cbn [orb]; split; [discriminate|intros [?|?]; discriminate]|].
  destruct (String.eqb d "inline"); [cbn [orb]; split; [discriminate|intros [?|?]; discriminate]|].
  destruct (String.eqb d "table-cell"); [cbn [orb]; split; [discriminate|intros [?|?]; discriminate]|].
  cbn. split; auto.
Qed.


Lemma parseGap_not_NaN (gap : string) : parseGap gap <> NaN.
Proof.
  unfold parseGap. destruct (_ || _); [discriminate|apply floatOr0_not_NaN].
Qed.

(** X12.  In every layout [parseAutoLayout] returns, the four paddings and
    the item spacing are numbers (never NaN), whatever the style texts. *)
Theorem auto_layout_numbers_defined (styles : CSSStyleDeclaration)
  (al : AutoLayoutConfig) :
  parseAutoLayout styles = Some al -> layoutNumbersDefined al.
Proof.
  unfold parseAutoLayout, parseGridAsAutoLayout, layoutNumbersDefined. cbv zeta.
  set (d := styles "display").
  destruct (String.eqb (styles "position") "absolute"
            || String.eqb (styles "position") "fixed"); [discriminate|].
  destruct (String.eqb d "grid" || String.eqb d "inline-grid").
  { intros H. injection H as <-. cbn.
    repeat split; try apply floatOr0_not_NaN.
    match goal with |- context [if ?c then _ else _] => destruct c end;
      apply orElse_not_NaN; apply floatOr0_not_NaN. }
  destruct (String.eqb d "flex" || String.eqb d "inline-flex").
  { intros H. injection H as <-. cbn.
    repeat split; try apply floatOr0_not_NaN. apply parseGap_not_NaN. }
  destruct (isBlockDisplay d).
  { intros H. injection H as <-. cbn.
    repeat split; try apply floatOr0_not_NaN. discriminate. }
  destruct (String.eqb d "inline-block" || String.eqb d "inline"
            || String.eqb d "table-cell"); [|discriminate].
  intros H. injection H as <-. cbn.
  repeat split; try apply floatOr0_not_NaN. discriminate.
Qed.


(** A flex row with a two-valued gap and a padding that is no length. *)
Lemma auto_layout_numbers_defined_witness :
  exists al, parseAutoLayout flexRow = Some al
             /\ itemSpacing al = Num.ofZ 8 /\ paddingTop al = Num.ofZ 0
             /\ layoutNumbersDefined al.
Proof.
  eexists. split; [vm_compute; reflexivity|]. split; [reflexivity|].
  split; [reflexivity|].
  apply (@auto_layout_numbers_defined flexRow). vm_compute. reflexivity.
Defined.

(** ** Invariants of the returned tree *)

Section FrameInvariant.
Variable resolveURL : string -> option string.
Variable P : LayerMeta -> Prop.
Hypothesis P_geometry : forall l x' y' w' h',
    P l -> P (setGeometry l x' y' w' h').
Hypothesis P_prepared : forall info kids options l,
    (prepareLayer resolveURL info kids options = inl l \/
     prepareLayer resolveURL info kids options = inr l) -> P l.
Hypothesis P_finished : forall info kids options l0 cs l,
    prepareLayer resolveURL info kids options = inr l0 ->
    type l0 <> TEXT ->
    finishChildren resolveURL info kids l0 cs = Ok l -> P l.
Hypothesis P_wrapper : forall ca v c g, P (wrapper ca v c g).
Hypothesis P_text : forall a b c d, P (textLayer a b c d).
Hypothesis P_pseudo : forall info p l,
    capturePseudoElement resolveURL info p = Ok (Some l) -> P l.

(** As [convertElement_allNodes], the finished layer being known not to
    be a text layer. *)
Lemma convertElement_allNodes_frames (element : Element) :
  forall options depth l,
    convertElement resolveURL element options depth = Ok (Some l) ->
    allNodes P l.
Proof.
  induction element as [info kids IH] using Element_children_ind.
  intros options depth l. rewrite convertElement_eq.
  destruct (skipped info options depth); [discriminate|].
  destruct (prepareLayer resolveURL info kids options) as [done|l0] eqn:Ep.
  - intros H. injection H as <-.
    apply allNodes_leaf; [eapply P_prepared; eauto|].
    eapply prepared_fields; eauto.
  - assert (Hleaf : allNodes P l0).
    { apply allNodes_leaf; [eapply P_prepared; eauto|].
      eapply prepared_fields; eauto. }
    destruct (type l0) eqn:Et;
      try (intros H; injection H as <-; exact Hleaf);
      (destruct (convertChildrenWith _ (fixedTopHeight kids) kids)
         as [cs|] eqn:Ec; [|discriminate];
       cbn [bind];
       destruct (finishChildren resolveURL info kids l0 cs) as [lf|] eqn:Ef;
         [|discriminate];
       cbn [bind]; intros H; injection H as <-;
       constructor;
       [ eapply P_finished; [exact Ep|rewrite Et; discriminate|exact Ef]
       | apply (@finishChildren_all resolveURL P P_geometry P_wrapper P_text
                  P_pseudo info kids l0 cs lf); [|exact Ef];
         eapply (@convertChildren_all P); [exact P_geometry| |exact Ec];
         eapply Forall_impl; [|exact IH];
         intros child Hc c; apply Hc ]).
Qed.
End FrameInvariant.

Lemma withTextChild_layer (info : ElementInfo) (kids : list ChildNode)
  (l : LayerMeta) (cs : list LayerMeta) :
  let l' := fst (withTextChild info kids l cs) in
  type l' = type l /\ fills l' = fills l /\ x l' = x l /\ y l' = y l.
Proof.
  unfold withTextChild.
  destruct (truthy _); [|simpl; auto].
  cbv zeta.
  destruct ((List.length cs =? 0)%nat || forallb isPseudoLayer cs); simpl; auto.
Qed.

Lemma finished_layer (resolveURL : string -> option string)
  (info : ElementInfo) (kids : list ChildNode) (l0 : LayerMeta)
  (cs : list LayerMeta) (l : LayerMeta) :
  finishChildren resolveURL info kids l0 cs = Ok l ->
  type l = type l0 /\ fills l = fills l0 /\ x l = x l0 /\ y l = y l0.
Proof.
  intros H. apply finishChildren_inv in H as (b & a & al & cs' & _ & _ & -> & _).
  simpl. apply withTextChild_layer.
Qed.

(** X13.  In every tree [domToLayer] returns, a Text layer has no
    children. *)
Theorem text_layers_are_leaves (resolveURL : string -> option string)
  (element : Element) (options : ConversionOptions) (l : LayerMeta) :
  domToLayer resolveURL element options = Ok (Some l) ->
  allNodes textIsLeaf l.
Proof.
  unfold domToLayer. apply convertElement_allNodes_frames; unfold textIsLeaf.
  - intros l0 x' y' w' h' H. exact H.
  - intros info kids opts l1 H _. eapply prepared_fields; eauto.
  - intros info kids opts l0 cs l1 _ Ht Hf E.
    apply finished_layer in Hf as (Hty & _). congruence.
  - discriminate.
  - reflexivity.
  - intros info p l1 H _. eapply capturePseudoElement_fields; eauto.
Qed.

(** A card with a paragraph: the paragraph becomes a Text layer, a leaf. *)
Lemma text_layers_are_leaves_witness :
  exists l, domToLayer noURL card noOptions = Ok (Some l)
            /\ map type (children l) = [TEXT]
            /\ allNodes textIsLeaf l.
Proof.
  eexists. split; [vm_compute; reflexivity|]. split; [reflexivity|].
  apply (@text_layers_are_leaves noURL card noOptions).
  vm_compute. reflexivity.
Defined.

Lemma Forall_removelast {A : Type} (Q : A -> Prop) (l : list A) :
  Forall Q l -> Forall Q (removelast l).
Proof.
  induction 1 as [|a l Ha Hl IH]; simpl; [constructor|].
  destruct l; [constructor|]. constructor; assumption.
Qed.

Lemma parseBackground_solid_last (resolveURL : string -> option string)
  (styles : CSSStyleDeclaration) :
  Forall isImageOrGradient (removelast (parseBackground resolveURL styles)).
Proof.
  unfold parseBackground.
  pose proof (backgroundImageFills_kind resolveURL styles) as Hi.
  unfold backgroundColorFills.
  destruct (_ && _).
  - destruct (negb _).
    + rewrite removelast_last. exact Hi.
    + rewrite app_nil_r. apply Forall_removelast. exact Hi.
  - rewrite app_nil_r. apply Forall_removelast. exact Hi.
Qed.

Lemma nativeControl_fills (info : ElementInfo) (l : LayerMeta) :
  solidOnlyLast l -> solidOnlyLast (nativeControl info l).
Proof.
  unfold nativeControl, solidOnlyLast. intros H.
  destruct (_ && _); [|exact H].
  cbv zeta.
  repeat match goal with |- context [if ?c then _ else _] => destruct c end;
    simpl; constructor.
Qed.

Lemma expandToMaxWidth_fills (info : ElementInfo) (l : LayerMeta) :
  fills (expandToMaxWidth info l) = fills l.
Proof.
  unfold expandToMaxWidth.
  destruct (parentDisplay info); [|auto].
  repeat match goal with |- context [if ?c then _ else _] => destruct c end;
    simpl; auto.
Qed.

Lemma imageFill_fills (info : ElementInfo) (options : RequiredOptions)
  (l : LayerMeta) :
  solidOnlyLast l -> solidOnlyLast (imageFill info options l).
Proof.
  unfold imageFill, solidOnlyLast. intros H.
  destruct (_ && _); [simpl; constructor|exact H].
Qed.

Lemma prepared_solid_last (resolveURL : string -> option string)
  (info : ElementInfo) (kids : list ChildNode) (options : RequiredOptions)
  (l : LayerMeta) :
  (prepareLayer resolveURL info kids options = inl l \/
   prepareLayer resolveURL info kids options = inr l) ->
  solidOnlyLast l.
Proof.
  unfold prepareLayer.
  set (l0 := baseLayer resolveURL info options (determineLayerType info kids)).
  assert (H0 : solidOnlyLast l0) by apply parseBackground_solid_last.
  pose proof (nativeControl_fills info H0) as H1.
  assert (H2 : solidOnlyLast (expandToMaxWidth info (nativeControl info l0))).
  { unfold solidOnlyLast. rewrite expandToMaxWidth_fills. exact H1. }
  set (l2 := expandToMaxWidth info (nativeControl info l0)) in *.
  pose proof (imageFill_fills info options H2) as H3.
  unfold svgLayer.
  destruct (toLowerCase (tagName info) =? "svg")%string.
  - destruct (sanitizedSvg info) as [svg|].
    + destruct (truthy svg).
      * intros [H|H]; [|discriminate]. injection H as <-. exact H2.
      * intros [H|H]; [discriminate|]. injection H as <-. exact H3.
    + intros [H|H]; [discriminate|]. injection H as <-. exact H3.
  - intros [H|H]; [discriminate|]. injection H as <-. exact H3.
Qed.

Lemma pseudo_solid_last (resolveURL : string -> option string)
  (info : ElementInfo) (p : Pseudo) (l : LayerMeta) :
  capturePseudoElement resolveURL info p = Ok (Some l) -> solidOnlyLast l.
Proof.
  unfold capturePseudoElement, solidOnlyLast.
  repeat match goal with
         | |- context [if ?c then _ else _] => destruct c
         | |- context [match ?c with NotDrawn => _ | Drawn _ => _ end] =>
             destruct c
         end;
    try discriminate; intros H; injection H as <-; simpl;
    try constructor; apply parseBackground_solid_last.
Qed.

(** X14.  In every node of every tree [domToLayer] returns, every paint
    of [fills] but the last is an image or a gradient: a solid paint is
    only ever the last entry. *)
Theorem solid_paint_only_last (resolveURL : string -> option string)
  (element : Element) (options : ConversionOptions) (l : LayerMeta) :
  domToLayer resolveURL element options = Ok (Some l) ->
  allNodes solidOnlyLast l.
Proof.
  unfold domToLayer. apply convertElement_allNodes.
  - intros l0 x' y' w' h' H. exact H.
  - apply prepared_solid_last.
  - intros info kids opts l0 cs l1 Hp Hf.
    apply finished_layer in Hf as (_ & Hfl & _).
    unfold solidOnlyLast. rewrite Hfl.
    apply (@prepared_solid_last resolveURL info kids opts). auto.
  - intros. unfold solidOnlyLast. simpl. constructor.
  - intros. unfold solidOnlyLast. simpl. constructor.
  - apply pseudo_solid_last.
Qed.

(** A red card with a background image: the image paint comes first, the
    solid paint last. *)
Lemma solid_paint_only_last_witness :
  exists l, domToLayer noURL card noOptions = Ok (Some l)
            /\ fills l = [ IMAGE "https://example.com/image.jpg" FILL;
                           SOLID (Rgba (Fin 1) (Fin 0) (Fin 0) (Fin 1)) ]
            /\ allNodes solidOnlyLast l.
Proof.
  eexists. split; [vm_compute; reflexivity|]. split; [reflexivity|].
  apply (@solid_paint_only_last noURL card noOptions).
  vm_compute. reflexivity.
Defined.

(** ** [captureDocument], [captureElement] *)

Lemma nativeControl_origin (info : ElementInfo) (l : LayerMeta) :
  x (nativeControl info l) = x l /\ y (nativeControl info l) = y l.
Proof.
  unfold nativeControl.
  destruct (_ && _); [|auto].
  cbv zeta.
  repeat match goal with |- context [if ?c then _ else _] => destruct c end;
    simpl; auto.
Qed.

Lemma expandToMaxWidth_origin (info : ElementInfo) (l : LayerMeta) :
  x (expandToMaxWidth info l) = x l /\ y (expandToMaxWidth info l) = y l.
Proof.
  unfold expandToMaxWidth.
  destruct (parentDisplay info); [|auto].
  repeat match goal with |- context [if ?c then _ else _] => destruct c end;
    simpl; auto.
Qed.

Lemma imageFill_origin (info : ElementInfo) (options : RequiredOptions)
  (l : LayerMeta) :
  x (imageFill info options l) = x l /\ y (imageFill info options l) = y l.
Proof. unfold imageFill. destruct (_ && _); simpl; auto. Qed.

(** The position of a prepared layer is the one [baseLayer] gives it. *)
Lemma prepared_origin (resolveURL : string -> option string)
  (info : ElementInfo) (kids : list ChildNode) (options : RequiredOptions)
  (l : LayerMeta) :
  (prepareLayer resolveURL info kids options = inl l \/
   prepareLayer resolveURL info kids options = inr l) ->
  x l = x (baseLayer resolveURL info options (determineLayerType info kids))
  /\ y l = y (baseLayer resolveURL info options (determineLayerType info kids)).
Proof.
  unfold prepareLayer.
  set (l0 := baseLayer resolveURL info options (determineLayerType info kids)).
  destruct (nativeControl_origin info l0) as (X1 & Y1).
  destruct (expandToMaxWidth_origin info (nativeControl info l0)) as (X2 & Y2).
  set (l2 := expandToMaxWidth info (nativeControl info l0)) in *.
  destruct (imageFill_origin info options l2) as (X3 & Y3).
  assert (HX : x l2 = x l0) by congruence.
  assert (HY : y l2 = y l0) by congruence.
  unfold svgLayer.
  destruct (toLowerCase (tagName info) =? "svg")%string.
  - destruct (sanitizedSvg info) as [svg|].
    + destruct (truthy svg).
      * intros [H|H]; [|discriminate]. injection H as <-. unfold setSvg. cbn [x y]. auto.
      * intros [H|H]; [discriminate|]. injection H as <-. unfold setAutoLayout. cbn [x y]. split; congruence.
    + intros [H|H]; [discriminate|]. injection H as <-. unfold setAutoLayout. cbn [x y]. split; congruence.
  - intros [H|H]; [discriminate|]. injection H as <-. unfold setAutoLayout. cbn [x y]. split; congruence.
Qed.

Lemma sub_self (q : Q) : (Fin q - Fin q)%num = Num.ofZ 0.
Proof.
  cbn [Num.sub Num.add Num.neg]. unfold Num.ofZ. f_equal.
  change (inject_Z 0) with (Qred 0). apply Qred_complete.
  rewrite Qred_correct. ring.
Qed.

(** The position of the layer [convertElement] returns for an element. *)
Lemma converted_origin (resolveURL : string -> option string)
  (info : ElementInfo) (kids : list ChildNode) (options : RequiredOptions)
  (depth : nat) (l : LayerMeta) :
  convertElement resolveURL (Elem info kids) options depth = Ok (Some l) ->
  x l = x (baseLayer resolveURL info options (determineLayerType info kids))
  /\ y l = y (baseLayer resolveURL info options (determineLayerType info kids)).
Proof.
  rewrite convertElement_eq.
  destruct (skipped info options depth); [discriminate|].
  destruct (prepareLayer resolveURL info kids options) as [done|l0] eqn:Ep.
  - intros H. injection H as <-. eapply prepared_origin; eauto.
  - assert (H0 := @prepared_origin resolveURL info kids options l0 (or_intror Ep)).
    destruct (type l0);
      try (intros H; injection H as <-; exact H0);
      (destruct (convertChildrenWith _ (fixedTopHeight kids) kids)
         as [cs|]; [|discriminate];
       cbn [bind];
       destruct (finishChildren resolveURL info kids l0 cs) as [lf|] eqn:Ef;
         [|discriminate];
       cbn [bind]; intros H; injection H as <-;
       apply finished_layer in Ef as (_ & _ & -> & ->); exact H0).
Qed.

(** X15.  The layer [captureDocument] or [captureElement] returns for an
    element whose box has a finite left and top is placed at (0, 0): the
    corner of its own box is the root offset. *)
Theorem captured_root_is_at_origin (resolveURL : string -> option string)
  (root : Element) (l : LayerMeta) :
  (exists a b, DOMRect.left (boundingClientRect (infoOf root)) = Fin a
            /\ DOMRect.top (boundingClientRect (infoOf root)) = Fin b) ->
  (captureDocument resolveURL (Some root) = Ok (Some l) ->
   x l = Num.ofZ 0 /\ y l = Num.ofZ 0)
  /\ (forall querySelector selector,
        querySelector selector = Some root ->
        captureElement resolveURL querySelector selector = Ok (Some l) ->
        x l = Num.ofZ 0 /\ y l = Num.ofZ 0).
Proof.
  intros (a & b & Ea & Eb).
  assert (G : captureFrom resolveURL (Some root) = Ok (Some l) ->
              x l = Num.ofZ 0 /\ y l = Num.ofZ 0).
  { unfold captureFrom. destruct root as [info kids].
    intros H. unfold domToLayer in H. apply converted_origin in H as (-> & ->).
    cbn [infoOf] in Ea, Eb.
    cbn [baseLayer x y mergeOptions orDefault rootOffset rootOffset' fst snd infoOf].
    rewrite Ea, Eb. split; [apply sub_self|].
    destruct (_ || _); [reflexivity|apply sub_self]. }
  split; [exact G|].
  intros querySelector selector Hq. unfold captureElement. rewrite Hq. exact G.
Qed.

(** The card sits at (30, 40) in the page; captured on its own, its layer
    is at (0, 0), where [domToLayer] without a root offset leaves it at
    (30, 40). *)
Lemma captured_root_is_at_origin_witness :
  (exists l, domToLayer noURL card noOptions = Ok (Some l)
             /\ x l = Num.ofZ 30 /\ y l = Num.ofZ 40)
  /\ exists l, captureDocument noURL (Some card) = Ok (Some l)
               /\ x l = Num.ofZ 0 /\ y l = Num.ofZ 0.
Proof.
  split; [eexists; split; [vm_compute; reflexivity|split; reflexivity]|].
  eexists. split; [vm_compute; reflexivity|].
  apply (@captured_root_is_at_origin noURL card);
    [exists 30%Q, 40%Q; split; reflexivity|vm_compute; reflexivity].
Defined.

(** ** Spacing of block containers *)

Lemma isFinite_inv (v : num) : isFinite v -> exists q, v = Fin q.
Proof. destruct v; simpl; try tauto. eauto. Qed.

Lemma round_nonneg (q : Q) : (0 <= q)%Q -> wholeNonNegative (Num.round (Fin q)).
Proof.
  intros H. exists (Qfloor (q + (1 # 2))). split; [|reflexivity].
  apply (Qfloor_resp_le 0 (q + (1 # 2))). lra.
Qed.

Lemma gapBetween_whole (v : bool) (curr next : LayerMeta) :
  finiteBox curr -> finiteBox next -> wholeNonNegative (gapBetween v curr next).
Proof.
  intros (X1 & Y1 & W1 & H1) (X2 & Y2 & W2 & H2).
  apply isFinite_inv in X1, Y1, W1, H1, X2, Y2, W2, H2.
  destruct X1 as (x1 & X1), Y1 as (y1 & Y1), W1 as (w1 & W1), H1 as (h1 & H1),
           X2 as (x2 & X2), Y2 as (y2 & Y2), W2 as (w2 & W2), H2 as (h2 & H2).
  unfold gapBetween. rewrite X1, Y1, W1, H1, X2, Y2.
  destruct v; cbn [Num.sub Num.add Num.neg Num.max Num.ofZ Num.leb];
    match goal with |- context [Qle_bool ?a ?b] => destruct (Qle_bool a b) eqn:E end.
  - apply round_nonneg. apply Qle_bool_iff in E. exact E.
  - apply round_nonneg. apply Qle_refl.
  - apply round_nonneg. apply Qle_bool_iff in E. exact E.
  - apply round_nonneg. apply Qle_refl.
Qed.

Lemma pairGaps_whole (v : bool) (flow : list LayerMeta) :
  Forall finiteBox flow -> Forall wholeNonNegative (pairGaps v flow).
Proof.
  induction 1 as [|c l Hc Hl IH]; [constructor|].
  cbn [pairGaps]. destruct l as [|n l']; [constructor|].
  inversion Hl; subst. constructor; [apply gapBetween_whole; assumption|exact IH].
Qed.

Lemma pairGaps_length (v : bool) (flow : list LayerMeta) :
  List.length (pairGaps v flow) = List.length flow - 1.
Proof.
  induction flow as [|c l IH]; [reflexivity|].
  cbn [pairGaps]. destruct l as [|n l']; [reflexivity|].
  cbn [List.length] in *. rewrite IH. lia.
Qed.

Lemma min_whole (a b : num) :
  wholeNonNegative b -> (a = PInf \/ wholeNonNegative a) ->
  wholeNonNegative (Num.min a b).
Proof.
  intros (zb & Hb & ->) [-> | (za & Ha & ->)].
  - simpl. exists zb. auto.
  - cbn [Num.min Num.ofZ Num.leb].
    destruct (Qle_bool _ _); [exists za|exists zb]; auto.
Qed.

Lemma fold_min_whole (l : list num) :
  forall acc, Forall wholeNonNegative l ->
    (acc = PInf \/ wholeNonNegative acc) ->
    (l <> [] \/ wholeNonNegative acc) ->
    wholeNonNegative (fold_left Num.min l acc).
Proof.
  induction l as [|a l IH]; intros acc Hl Hacc Hne; cbn [fold_left].
  - destruct Hne as [Hne|Hne]; [congruence|exact Hne].
  - inversion Hl; subst. apply IH; auto using min_whole.
Qed.

Lemma numIs_whole (v : num) : wholeNonNegative v -> exists q, numIs v q /\ (0 <= q)%Q.
Proof.
  intros (z & Hz & ->). exists (inject_Z z). split; [apply numIs_ofZ|].
  change 0%Q with (inject_Z 0). rewrite <- Zle_Qle. exact Hz.
Qed.

Lemma sum_nonneg (l : list num) :
  forall acc q, numIs acc q -> (0 <= q)%Q -> Forall wholeNonNegative l ->
    exists s, numIs (fold_left Num.add l acc) s /\ (0 <= s)%Q.
Proof.
  induction l as [|a l IH]; intros acc q Hacc Hq Hl; cbn [fold_left].
  - eauto.
  - inversion Hl as [|? ? Ha Hl']; subst.
    destruct (numIs_whole Ha) as (qa & Ea & Qa).
    apply (IH (acc + a)%num (q + qa)%Q); [apply numIs_add; assumption|lra|exact Hl'].
Qed.

Lemma averageGap_whole (gaps : list num) :
  Forall wholeNonNegative gaps -> gaps <> [] ->
  wholeNonNegative (averageGap gaps).
Proof.
  intros Hg Hne. unfold averageGap, sumGaps.
  destruct (@sum_nonneg gaps (Num.ofZ 0) 0%Q (numIs_ofZ 0) (Qle_refl 0) Hg)
    as (s & Es & Hs).
  assert (Hlen : (0 < inject_Z (Z.of_nat (List.length gaps)))%Q).
  { change 0%Q with (inject_Z 0). rewrite <- Zlt_Qlt.
    destruct gaps; [congruence|]. cbn [List.length]. lia. }
  assert (Ed : numIs (fold_left Num.add gaps (Num.ofZ 0) / Num.ofNat (List.length gaps))%num
                     (s / inject_Z (Z.of_nat (List.length gaps)))).
  { apply numIs_div; [exact Es|apply numIs_ofZ|]. intro E. rewrite E in Hlen.
    apply (Qlt_irrefl _ Hlen). }
  destruct (fold_left Num.add gaps (Num.ofZ 0) / Num.ofNat (List.length gaps))%num
    as [q| | |]; cbn [numIs] in Ed; try tauto.
  apply round_nonneg. rewrite Ed. apply Qle_shift_div_l; [exact Hlen|lra].
Qed.

(** X16.  In a container that is neither flex nor grid, with at least
    two flow children whose boxes are finite, the item spacing
    [inferGaps] sets is a whole number that is not negative. *)
Theorem block_spacing_is_whole (display : string) (al : AutoLayoutConfig)
  (children : list LayerMeta) :
  isFlexOrGrid display = false ->
  2 <= List.length (filter isFlow children) ->
  Forall finiteBox (filter isFlow children) ->
  wholeNonNegative (itemSpacing (fst (inferGaps display al children))).
Proof.
  intros Hd Hn Hf. unfold inferGaps. rewrite Hd.
  set (flow := filter isFlow children) in *.
  assert (Hc : 2 <= List.length children).
  { unfold flow in Hn. pose proof (filter_length_le isFlow children). lia. }
  apply Nat.leb_le in Hc. apply Nat.leb_le in Hn. rewrite Hc, Hn. cbn [andb].
  set (gaps := pairGaps (isVerticalMode al) flow).
  assert (Hg : Forall wholeNonNegative gaps) by (apply pairGaps_whole; exact Hf).
  assert (Hl : List.length gaps = List.length flow - 1) by apply pairGaps_length.
  apply Nat.leb_le in Hn.
  assert (Hne : gaps <> []) by (intro E; rewrite E in Hl; cbn in Hl; lia).
  assert (Hpos : (0 <? List.length gaps) = true) by (apply Nat.ltb_lt; lia).
  rewrite Hpos.
  destruct (_ <=? _)%num; cbn [fst setItemSpacing itemSpacing].
  - apply averageGap_whole; assumption.
  - apply fold_min_whole; auto.
Qed.

(** Rows at y = 0, 20, 60 of height 10: the spacing is 10. *)
Lemma block_spacing_is_whole_witness :
  itemSpacing (fst (inferGaps "block" blockLayout (rows 0 20 60))) = Num.ofZ 10
  /\ wholeNonNegative
       (itemSpacing (fst (inferGaps "block" blockLayout (rows 0 20 60)))).
Proof.
  split; [vm_compute; reflexivity|].
  apply (@block_spacing_is_whole "block" blockLayout (rows 0 20 60)).
  - reflexivity.
  - simpl. lia.
  - simpl. repeat constructor.
Defined.

(** ** [measureLayerBounds] *)

Lemma isFinite_not_NaN (v : num) : isFinite v -> v <> NaN.
Proof. destruct v; simpl; try tauto; discriminate. Qed.

Lemma isFinite_add (a b : num) : isFinite a -> isFinite b -> isFinite (a + b)%num.
Proof. destruct a, b; simpl; tauto. Qed.

Lemma isFinite_max (a b : num) : isFinite a -> isFinite b -> isFinite (Num.max a b).
Proof.
  intros Ha Hb.
  destruct (max_cases (@isFinite_not_NaN _ Ha) (@isFinite_not_NaN _ Hb)) as ([-> | ->] & _);
    assumption.
Qed.

Lemma within2_mono (b b' e : num * num) :
  within2 b' b -> within2 b e -> within2 b' e.
Proof. intros [H1 H2] [H3 H4]. split; eapply leb_trans; eassumption. Qed.


Lemma traverse_children (kids : list LayerMeta) (px py : num) :
  Forall traverseSpec kids -> isFinite px -> isFinite py ->
  forall b, finite2 b ->
    let b' := fold_left (fun b child => traverse child px py b) kids b in
    finite2 b' /\ within2 b' b
    /\ Forall (within2 b') (flat_map (fun child => edges child px py) kids).
Proof.
  intros Hk Hx Hy. induction Hk as [|c kids Hc Hk IH]; intros b Hb; cbn [fold_left flat_map].
  - repeat split; try apply Hb; try constructor;
      apply leb_refl; apply isFinite_not_NaN; apply Hb.
  - destruct (Hc px py b Hx Hy Hb) as (F1 & W1 & E1).
    destruct (IH _ F1) as (F2 & W2 & E2).
    repeat split; try apply F2.
    + eapply within2_mono; eassumption.
    + eapply within2_mono; eassumption.
    + apply Forall_app. split; [|exact E2].
      eapply Forall_impl; [|exact E1]. intros e He. eapply within2_mono; eassumption.
Qed.

Lemma traverse_spec (node : LayerMeta) : allNodes finiteBox node -> traverseSpec node.
Proof.
  induction node as [node IH] using LayerMeta_children_ind.
  intros Hall. inversion Hall as [? Hbox Hkids]; subst.
  assert (Hspec : Forall traverseSpec (children node)).
  { clear Hbox Hall. induction IH as [|c cs Hc Hcs IH']; [constructor|].
    inversion Hkids; subst. constructor; auto. }
  destruct node as [t nx ny nw nh f s o v a ab z kids svg tag].
  cbn [children] in *. destruct Hbox as (Fx & Fy & Fw & Fh). cbn [x y width height] in *.
  intros px py b Hx Hy Hb. cbn [traverse edges]. cbv zeta.
  set (ax := (px + nx)%num). set (ay := (py + ny)%num).
  assert (Hax : isFinite ax) by (apply isFinite_add; assumption).
  assert (Hay : isFinite ay) by (apply isFinite_add; assumption).
  set (b1 := (Num.max (fst b) (ax + nw)%num, Num.max (snd b) (ay + nh)%num)).
  assert (Hr : isFinite (ax + nw)%num) by (apply isFinite_add; assumption).
  assert (Hbt : isFinite (ay + nh)%num) by (apply isFinite_add; assumption).
  destruct Hb as [Hb1 Hb2].
  destruct (max_cases (@isFinite_not_NaN _ Hb1) (@isFinite_not_NaN _ Hr)) as (_ & M1 & M2).
  destruct (max_cases (@isFinite_not_NaN _ Hb2) (@isFinite_not_NaN _ Hbt)) as (_ & M3 & M4).
  assert (F1 : finite2 b1) by (split; apply isFinite_max; assumption).
  destruct (@traverse_children kids ax ay Hspec Hax Hay b1 F1) as (F2 & W2 & E2).
  repeat split; try apply F2.
  - eapply leb_trans; [exact M1|apply W2].
  - eapply leb_trans; [exact M3|apply W2].
  - constructor; [|exact E2].
    eapply within2_mono; [exact W2|]. split; assumption.
Qed.

(** X17.  For a tree whose boxes are all finite, the bounds
    [measureLayerBounds] returns are at least 0 and reach the right and
    bottom edge of every layer of the tree, each taken in the coordinates
    of the root's parent. *)
Theorem measured_bounds_cover_every_layer (layer : LayerMeta) :
  allNodes finiteBox layer ->
  let bounds := measureLayerBounds layer in
  Forall (within2 bounds) (edges layer (Num.ofZ 0) (Num.ofZ 0))
  /\ within2 bounds (Num.ofZ 0, Num.ofZ 0).
Proof.
  intros H. unfold measureLayerBounds.
  destruct (@traverse_spec layer H (Num.ofZ 0) (Num.ofZ 0) (Num.ofZ 0, Num.ofZ 0))
    as (_ & W & E); try exact I; [split; exact I|].
  split; assumption.
Qed.

(** A frame of height 50 whose third row ends at y = 70: the bounds are
    (100, 70). *)
Lemma measured_bounds_cover_every_layer_witness :
  measureLayerBounds
    (mk FRAME (Num.ofZ 0) (Num.ofZ 0) (Num.ofZ 100) (Num.ofZ 50) []
        None (Num.ofZ 1) true None false None (rows 0 20 60) None
        (Some "DIV"))
  = (Num.ofZ 100, Num.ofZ 70)
  /\ Forall
       (within2
          (measureLayerBounds
             (mk FRAME (Num.ofZ 0) (Num.ofZ 0) (Num.ofZ 100) (Num.ofZ 50) []
        None (Num.ofZ 1) true None false None (rows 0 20 60) None
        (Some "DIV"))))
       (edges
          (mk FRAME (Num.ofZ 0) (Num.ofZ 0) (Num.ofZ 100) (Num.ofZ 50) []
        None (Num.ofZ 1) true None false None (rows 0 20 60) None
        (Some "DIV"))
          (Num.ofZ 0) (Num.ofZ 0)).
Proof.
  split; [vm_compute; reflexivity|].
  apply (@measured_bounds_cover_every_layer
           (mk FRAME (Num.ofZ 0) (Num.ofZ 0) (Num.ofZ 100) (Num.ofZ 50) []
        None (Num.ofZ 1) true None false None (rows 0 20 60) None
        (Some "DIV"))).
  repeat (constructor; simpl; try exact I).
Defined.

(** ** [decodeBase64ToUint8Array] *)

Lemma in_octets (b : Z) : isByte b -> In b octets.
Proof.
  intros H. unfold octets. rewrite <- (Z2Nat.id b) by (unfold isByte in H; lia).
  apply in_map. apply in_seq. unfold isByte in H. lia.
Qed.

Lemma in_sextets (b : Z) : (0 <= b < 64)%Z -> In b sextets.
Proof.
  intros H. unfold sextets. rewrite <- (Z2Nat.id b) by lia.
  apply in_map. apply in_seq. lia.
Qed.

Lemma lookup_base64Char (i : Z) : (0 <= i < 64)%Z ->
  lookup (Some (base64Char i)) = i /\ Ascii.eqb (base64Char i) "=" = false.
Proof.
  intros H.
  assert (A : forallb (fun i => (lookup (Some (base64Char i)) =? i)%Z
                               && negb (Ascii.eqb (base64Char i) "=")) sextets = true)
    by (vm_compute; reflexivity).
  rewrite forallb_forall in A. specialize (A i (in_sextets H)).
  apply andb_true_iff in A. destruct A as [A1 A2].
  apply Z.eqb_eq in A1. apply negb_true_iff in A2. auto.
Qed.


Lemma pairOk_all (a b : Z) : isByte a -> isByte b -> pairOk a b = true.
Proof.
  intros Ha Hb.
  assert (A : forallb (fun a => forallb (pairOk a) octets) octets = true)
    by (vm_compute; reflexivity).
  rewrite forallb_forall in A. specialize (A a (in_octets Ha)).
  rewrite forallb_forall in A. exact (A b (in_octets Hb)).
Qed.

Lemma group_facts (a b c : Z) : isByte a -> isByte b -> isByte c ->
  ((0 <= sextet1 a < 64) /\ (0 <= sextet2 a b < 64)
   /\ (0 <= sextet3 b c < 64) /\ (0 <= sextet4 c < 64))%Z
  /\ ((Z.lor (Z.shiftl (sextet1 a) 2) (Z.shiftr (sextet2 a b) 4)) mod 256 = a)%Z
  /\ ((Z.lor (Z.shiftl (Z.land (sextet2 a b) 15) 4) (Z.shiftr (sextet3 b c) 2))
        mod 256 = b)%Z
  /\ ((Z.lor (Z.shiftl (Z.land (sextet3 b c) 3) 6) (Z.land (sextet4 c) 63))
        mod 256 = c)%Z.
Proof.
  intros Ha Hb Hc. unfold sextet1, sextet2, sextet3, sextet4.
  pose proof (pairOk_all Ha Hb) as P1. pose proof (pairOk_all Hb Hc) as P2.
  unfold pairOk in P1, P2. cbv zeta in P1, P2.
  repeat (apply andb_true_iff in P1; destruct P1 as [P1 ?]).
  repeat (apply andb_true_iff in P2; destruct P2 as [P2 ?]).
  repeat match goal with
         | H : (_ =? _)%Z = true |- _ => apply Z.eqb_eq in H
         | H : (_ <=? _)%Z = true |- _ => apply Z.leb_le in H
         | H : (_ <? _)%Z = true |- _ => apply Z.ltb_lt in H
         end.
  repeat split; try assumption.
  - congruence.
  - congruence.
Qed.

Lemma list_ind3 {A : Type} (P : list A -> Prop) :
  P [] -> (forall a, P [a]) -> (forall a b, P [a; b]) ->
  (forall a b c l, P l -> P (a :: b :: c :: l)) ->
  forall l, P l.
Proof.
  intros H0 H1 H2 H3.
  assert (H : forall l, P l /\ (forall a, P (a :: l)) /\ (forall a b, P (a :: b :: l))).
  { induction l as [|x l (IH0 & IH1 & IH2)]; repeat split; auto. }
  intros l. apply H.
Qed.

Lemma writeByte_at (pre : list Z) (x : Z) (t : list Z) (v : Z) :
  writeByte (pre ++ x :: t)%list (List.length pre) v = (pre ++ (v mod 256)%Z :: t)%list.
Proof. induction pre as [|h pre IH]; simpl; [reflexivity|]. rewrite IH. reflexivity. Qed.

Lemma unpadded_cons (c : ascii) (s : string) :
  Ascii.eqb c "=" = false -> unpaddedLength (String c s) = S (unpaddedLength s).
Proof. intros H. cbn [unpaddedLength]. rewrite H, andb_false_r. reflexivity. Qed.


Lemma encodedLength_bytes (n : nat) : encodedLength n * 3 / 4 = n.
Proof.
  assert (H : forall n, encodedLength n * 3 / 4 = n
                        /\ encodedLength (S n) * 3 / 4 = S n
                        /\ encodedLength (S (S n)) * 3 / 4 = S (S n)).
  { induction n0 as [|k (I0 & I1 & I2)]; [repeat split; reflexivity|].
    repeat split; auto.
    change (encodedLength (S (S (S k)))) with (4 + encodedLength k).
    replace ((4 + encodedLength k) * 3) with (encodedLength k * 3 + 3 * 4) by lia.
    rewrite Nat.div_add by lia. lia. }
  apply H.
Qed.

Lemma unpadded_encode (bytes : list Z) :
  Forall isByte bytes ->
  unpaddedLength (encodeBase64 bytes) = encodedLength (List.length bytes).
Proof.
  assert (Z0 : isByte 0) by (unfold isByte; lia).
  induction bytes as [|a|a b|a b c l IH] using list_ind3; intros H.
  - reflexivity.
  - inversion H as [|? ? Ha _]; subst.
    destruct (group_facts Ha Z0 Z0) as ((R1 & R2 & _) & _).
    cbn [encodeBase64].
    rewrite !unpadded_cons by (apply lookup_base64Char; assumption). reflexivity.
  - inversion H as [|? ? Ha H']; subst. inversion H' as [|? ? Hb _]; subst.
    destruct (group_facts Ha Hb Z0) as ((R1 & R2 & R3 & _) & _).
    cbn [encodeBase64].
    rewrite !unpadded_cons by (apply lookup_base64Char; assumption). reflexivity.
  - inversion H as [|? ? Ha H']; subst. inversion H' as [|? ? Hb H'']; subst.
    inversion H'' as [|? ? Hc Hl]; subst.
    destruct (group_facts Ha Hb Hc) as ((R1 & R2 & R3 & R4) & _).
    cbn [encodeBase64].
    rewrite !unpadded_cons by (apply lookup_base64Char; assumption).
    rewrite (IH Hl). reflexivity.
Qed.

Lemma lookup_sextet (i : Z) : (0 <= i < 64)%Z -> lookup (Some (base64Char i)) = i.
Proof. intros H. apply lookup_base64Char. exact H. Qed.

Lemma writeByte_after (pre : list Z) (x : Z) (t : list Z) (p : nat) (v : Z) :
  p = List.length pre ->
  writeByte (pre ++ x :: t)%list p v = (pre ++ (v mod 256)%Z :: t)%list.
Proof. intros ->. apply writeByte_at. Qed.

Lemma snoc_app (pre : list Z) (a : Z) (t : list Z) :
  (pre ++ a :: t)%list = ((pre ++ [a]) ++ t)%list.
Proof. rewrite <- app_assoc. reflexivity. Qed.

Ltac ltb_true :=
  match goal with
  | |- context [(?a <? ?b)] =>
      let E := fresh in
      assert (E : (a <? b) = true) by (apply Nat.ltb_lt; cbn [List.length]; lia);
      rewrite E; clear E
  end.

Ltac ltb_false :=
  match goal with
  | |- context [(?a <? ?b)] =>
      let E := fresh in
      assert (E : (a <? b) = false) by (apply Nat.ltb_ge; cbn [List.length]; lia);
      rewrite E; clear E
  end.

Lemma decodeLoop_encode (bytes : list Z) :
  Forall isByte bytes ->
  forall pre,
    snd (decodeLoop (List.length pre + List.length bytes) (encodeBase64 bytes)
           (List.length pre, (pre ++ repeat 0%Z (List.length bytes))%list))
    = (pre ++ bytes)%list.
Proof.
  assert (Z0 : isByte 0) by (unfold isByte; lia).
  assert (Eq0 : lookup (Some "="%char) = 0%Z) by reflexivity.
  induction bytes as [|a|a b|a b c l IH] using list_ind3; intros H pre.
  - reflexivity.
  - inversion H as [|? ? Ha _]; subst.
    destruct (group_facts Ha Z0 Z0) as ((R1 & R2 & _) & B1 & _).
    cbn [encodeBase64 decodeLoop repeat List.length].
    rewrite !lookup_sextet by assumption. rewrite ?Eq0.
    unfold decodeRound. rewrite writeByte_at, B1.
    repeat ltb_false. reflexivity.
  - inversion H as [|? ? Ha H']; subst. inversion H' as [|? ? Hb _]; subst.
    destruct (group_facts Ha Hb Z0) as ((R1 & R2 & R3 & _) & B1 & B2 & _).
    cbn [encodeBase64 decodeLoop repeat List.length].
    rewrite !lookup_sextet by assumption. rewrite ?Eq0.
    unfold decodeRound. rewrite writeByte_at, B1.
    ltb_true. rewrite (snoc_app pre a).
    rewrite (@writeByte_after (pre ++ [a])%list 0%Z [] (S (List.length pre)))
      by (rewrite length_app; cbn; lia).
    rewrite B2. ltb_false. cbn [snd].
    rewrite <- app_assoc. reflexivity.
  - inversion H as [|? ? Ha H']; subst. inversion H' as [|? ? Hb H'']; subst.
    inversion H'' as [|? ? Hc Hl]; subst.
    destruct (group_facts Ha Hb Hc) as ((R1 & R2 & R3 & R4) & B1 & B2 & B3).
    cbn [encodeBase64 decodeLoop repeat List.length].
    rewrite !lookup_sextet by assumption.
    unfold decodeRound. rewrite writeByte_at, B1.
    ltb_true. rewrite (snoc_app pre a).
    rewrite (@writeByte_after (pre ++ [a])%list 0%Z
               (0%Z :: repeat 0%Z (List.length l)) (S (List.length pre)))
      by (rewrite length_app; cbn; lia).
    rewrite B2. ltb_true. rewrite (snoc_app (pre ++ [a]) b).
    rewrite (@writeByte_after ((pre ++ [a]) ++ [b])%list 0%Z
               (repeat 0%Z (List.length l)) (S (S (List.length pre))))
      by (rewrite !length_app; cbn; lia).
    rewrite B3. rewrite (snoc_app ((pre ++ [a]) ++ [b]) c).
    replace (S (S (S (List.length pre))))
      with (List.length (((pre ++ [a]) ++ [b]) ++ [c])%list)
      by (rewrite !length_app; cbn; lia).
    replace (List.length pre + S (S (S (List.length l))))
      with (List.length (((pre ++ [a]) ++ [b]) ++ [c])%list + List.length l)
      by (rewrite !length_app; cbn; lia).
    rewrite (IH Hl (((pre ++ [a]) ++ [b]) ++ [c])%list).
    rewrite <- !app_assoc. reflexivity.
Qed.

(** X18.  [decodeBase64ToUint8Array] applied to the padded base64
    encoding (RFC 4648) of a list of bytes returns that list. *)
Theorem base64_decodes_its_encoding (bytes : list Z) :
  Forall isByte bytes ->
  decodeBase64ToUint8Array (encodeBase64 bytes) = bytes.
Proof.
  intros H. unfold decodeBase64ToUint8Array.
  rewrite (unpadded_encode H), encodedLength_bytes.
  apply (@decodeLoop_encode bytes H []).
Qed.

(** Two bytes, one padding character. *)
Lemma base64_decodes_its_encoding_witness :
  encodeBase64 [77; 97]%Z = "TWE="
  /\ decodeBase64ToUint8Array "TWE=" = [77; 97]%Z.
Proof.
  split; [reflexivity|].
  apply (@base64_decodes_its_encoding [77; 97]%Z).
  repeat constructor; unfold isByte; lia.
Defined.

Lemma writeByte_shape (bytes : list Z) (p : nat) (v : Z) :
  List.length (writeByte bytes p v) = List.length bytes
  /\ (Forall isByte bytes -> Forall isByte (writeByte bytes p v)).
Proof.
  revert p. induction bytes as [|h t IH]; intros p; [simpl; auto|].
  destruct p as [|p]; cbn [writeByte List.length].
  - split; [reflexivity|]. intros H. inversion H; subst.
    constructor; [|assumption]. unfold isByte. apply Z.mod_pos_bound. lia.
  - destruct (IH p) as [L F]. split; [congruence|].
    intros H. inversion H; subst. constructor; auto.
Qed.


Lemma writeByte_ok (n : nat) (p q : nat) (bytes : list Z) (v : Z) :
  arrayOk n (p, bytes) -> arrayOk n (q, writeByte bytes p v).
Proof.
  unfold arrayOk. cbn [snd]. intros [L F].
  destruct (writeByte_shape bytes p v) as [L' F']. split; [congruence|auto].
Qed.

Lemma decodeRound_ok (n bufferLength : nat) (e1 e2 e3 e4 : Z) (st : nat * list Z) :
  arrayOk n st -> arrayOk n (decodeRound bufferLength e1 e2 e3 e4 st).
Proof.
  destruct st as [p bytes]. intros H. unfold decodeRound.
  repeat match goal with
         | |- context [if ?c then _ else _] => destruct c
         end;
    repeat (eapply writeByte_ok); exact H.
Qed.

Lemma decodeLoop_ok (n bufferLength : nat) (base64 : string) :
  forall st, arrayOk n st -> arrayOk n (decodeLoop bufferLength base64 st).
Proof.
  assert (G : forall s st, arrayOk n st ->
            arrayOk n (decodeLoop bufferLength s st)
            /\ (forall c, arrayOk n (decodeLoop bufferLength (String c s) st))
            /\ (forall c d, arrayOk n (decodeLoop bufferLength (String c (String d s)) st))
            /\ (forall c d e, arrayOk n
                  (decodeLoop bufferLength (String c (String d (String e s))) st))).
  { induction s as [|c0 s IH]; intros st Hst.
    - cbn [decodeLoop].
      split; [|split; [|split]]; intros; try apply decodeRound_ok; exact Hst.
    - destruct (IH st Hst) as (I0 & I1 & I2 & I3).
      split; [|split; [|split]]; auto.
      intros c d e. cbn [decodeLoop]. apply IH. apply decodeRound_ok. exact Hst. }
  intros st Hst. apply G. exact Hst.
Qed.

(** X19.  For every text, well formed or not, the array
    [decodeBase64ToUint8Array] returns has floor(3 n / 4) entries, [n] the
    length of the text without its trailing [=] characters, and every
    entry is a byte. *)
Theorem base64_output_shape (base64 : string) :
  List.length (decodeBase64ToUint8Array base64) = unpaddedLength base64 * 3 / 4
  /\ Forall isByte (decodeBase64ToUint8Array base64).
Proof.
  unfold decodeBase64ToUint8Array.
  apply (@decodeLoop_ok (unpaddedLength base64 * 3 / 4)).
  split; cbn [snd]; [apply repeat_length|].
  apply Forall_forall. intros x Hx. apply repeat_spec in Hx. subst.
  unfold isByte. lia.
Qed.

(** ** Depth of the returned tree *)

Lemma levels_eq (l : LayerMeta) :
  levels l = 1 + list_max (map levels (children l)).
Proof. destruct l. reflexivity. Qed.

Lemma levels_leaf (l : LayerMeta) : children l = [] -> levels l = 1.
Proof. intros H. rewrite levels_eq, H. reflexivity. Qed.

Lemma levels_setGeometry (l : LayerMeta) (a b c d : num) :
  levels (setGeometry l a b c d) = levels l.
Proof. rewrite !levels_eq. reflexivity. Qed.

Lemma levels_adjust (f : num) (l : LayerMeta) :
  levels (adjustForFixedHeader f l) = levels l.
Proof.
  unfold adjustForFixedHeader, setY.
  repeat match goal with |- context [if ?c then _ else _] => destruct c end;
    auto using levels_setGeometry.
Qed.

(** A wrapper adds a level above the child it wraps. *)
Lemma levels_wrapper (ca : CounterAlign) (v : bool) (c : LayerMeta) (g : num) :
  levels (wrapper ca v c g) = S (levels c).
Proof.
  rewrite (levels_eq (wrapper ca v c g)). cbn [wrapper children map].
  rewrite levels_setGeometry. unfold list_max. cbn [fold_right].
  rewrite Nat.max_0_r. reflexivity.
Qed.

Lemma levels_node (l : LayerMeta) (k : nat) :
  Forall (fun c => levels c <= k) (children l) -> levels l <= S k.
Proof.
  intros H. rewrite levels_eq.
  assert (list_max (map levels (children l)) <= k).
  { apply list_max_le. apply Forall_map. exact H. }
  lia.
Qed.

Lemma wrapChildren_levels (k : nat) (ca : CounterAlign) (v : bool) (m : num)
  (cs : list LayerMeta) (gaps : list num) :
  Forall (fun c => levels c <= k) cs ->
  Forall (fun c => levels c <= S k) (wrapChildren ca v m cs gaps).
Proof.
  intros Hcs. revert gaps.
  induction Hcs as [|c cs Hc Hcs IH]; intros gaps; simpl.
  - constructor.
  - destruct (isFlow c).
    + destruct gaps as [|g gaps']; constructor; auto.
      destruct (g >? m + GAP_TOLERANCE)%num; [rewrite levels_wrapper|]; lia.
    + constructor; auto.
Qed.

Lemma ofNat_gtb (a b : nat) : (Num.ofNat a >? Num.ofNat b)%num = (b <? a).
Proof.
  unfold Num.gtb, Num.ltb, Num.ofNat, Num.ofZ.
  destruct (b <? a) eqn:E.
  - apply Nat.ltb_lt in E. apply negb_true_iff.
    destruct (Qle_bool _ _) eqn:L; [|reflexivity].
    apply Qle_bool_iff in L. rewrite <- Zle_Qle in L. lia.
  - apply Nat.ltb_ge in E. apply negb_false_iff.
    apply Qle_bool_iff. rewrite <- Zle_Qle. lia.
Qed.

Section DepthBound.
Variable resolveURL : string -> option string.
Variable limit : nat.

(** Over children of at most [k] levels, the finished layer has at most
    [k + 2]: its own, and the one a wrapper may add. *)
Lemma finished_levels (info : ElementInfo) (kids : list ChildNode)
  (l0 : LayerMeta) (cs : list LayerMeta) (l : LayerMeta) (k : nat) :
  1 <= k ->
  Forall (fun c => levels c <= k) cs ->
  finishChildren resolveURL info kids l0 cs = Ok l ->
  levels l <= S (S k).
Proof.
  intros Hk Hcs H.
  apply finishChildren_inv in H
    as (b & a & al & cs' & Hb & Ha & -> & Hshape).
  apply levels_node. simpl children.
  assert (Hbase : Forall (fun c => levels c <= k)
            (optList b ++ sortByZIndex (snd (withTextChild info kids l0 cs))
             ++ optList a)).
  { apply Forall_app; split; [|apply Forall_app; split].
    - destruct b as [b|]; simpl; constructor; [|constructor].
      apply capturePseudoElement_fields in Hb as (Hc & _ & _).
      apply levels_leaf in Hc. lia.
    - apply Forall_sortByZIndex.
      destruct (withTextChild_fields info kids l0 cs)
        as (_ & _ & [-> | (x1 & x2 & x3 & x4 & ->)]).
      + exact Hcs.
      + apply Forall_app. split; [exact Hcs|].
        constructor; [|constructor]. cbn. lia.
    - destruct a as [a|]; simpl; constructor; [|constructor].
      apply capturePseudoElement_fields in Ha as (Hc & _ & _).
      apply levels_leaf in Hc. lia. }
  destruct Hshape as [-> | (ca & v & m & gaps & ->)].
  - eapply Forall_impl; [|exact Hbase]. intros c Hc. cbv beta in Hc. lia.
  - apply wrapChildren_levels. exact Hbase.
Qed.

Lemma convertChildren_levels (convert : Element -> result (option LayerMeta))
  (f : num) (kids : list ChildNode) (cs : list LayerMeta) (k : nat) :
  Forall (fun child => forall c, convert child = Ok (Some c) -> levels c <= k)
         (elementChildren kids) ->
  convertChildrenWith convert f kids = Ok cs ->
  Forall (fun c => levels c <= k) cs.
Proof.
  revert cs. induction kids as [|n kids IH]; intros cs Hall; simpl.
  - intros H. injection H as <-. constructor.
  - destruct n as [d r|child].
    + simpl in Hall. apply IH. exact Hall.
    + simpl in Hall. inversion Hall as [|? ? Hchild Hrest]; subst.
      destruct (convert child) as [o|] eqn:Ec; [|discriminate]. simpl.
      destruct (convertChildrenWith convert f kids) as [rest|] eqn:Er;
        [|discriminate]. simpl.
      intros H. injection H as <-.
      specialize (IH rest Hrest eq_refl).
      destruct o as [c|]; [|exact IH].
      constructor; [|exact IH]. rewrite levels_adjust. apply Hchild. reflexivity.
Qed.

(** An element converted at [depth] gives a tree of at most
    [2 * (limit - depth) + 3] levels: two for each depth still open, the
    element and the wrapper that may stand above its child, and at the
    last depth the element, a wrapper and a text or pseudo-element
    leaf. *)
Lemma convertElement_levels (element : Element) :
  forall options depth l,
    maxDepth' options = Num.ofNat limit ->
    convertElement resolveURL element options depth = Ok (Some l) ->
    depth <= limit /\ levels l + 2 * depth <= 2 * limit + 3.
Proof.
  induction element as [info kids IH] using Element_children_ind.
  intros options depth l Hmax. rewrite convertElement_eq.
  unfold skipped. rewrite Hmax, ofNat_gtb.
  destruct (limit <? depth) eqn:Ed; [discriminate|].
  apply Nat.ltb_ge in Ed. cbn [orb].
  destruct (_ || _); [discriminate|].
  destruct (prepareLayer resolveURL info kids options) as [done|l0] eqn:Ep.
  - intros H. injection H as <-. split; [exact Ed|].
    assert (Hc : children done = []) by (eapply prepared_fields; eauto).
    apply levels_leaf in Hc. lia.
  - assert (Hc : children l0 = []) by (eapply prepared_fields; eauto).
    apply levels_leaf in Hc.
    destruct (type l0) eqn:Et;
      try (intros H; injection H as <-; split; [exact Ed|lia]);
      (destruct (convertChildrenWith _ (fixedTopHeight kids) kids)
         as [cs|] eqn:Ec; [|discriminate];
       cbn [bind];
       destruct (finishChildren resolveURL info kids l0 cs) as [lf|] eqn:Ef;
         [|discriminate];
       cbn [bind]; intros H; injection H as <-;
       split; [exact Ed|];
       assert (Hl : levels lf <= S (S (2 * limit + 1 - 2 * depth)));
       [ eapply finished_levels; [lia| |exact Ef];
         eapply convertChildren_levels; [|exact Ec];
         eapply Forall_impl; [|exact IH];
         intros child Hch c Hconv;
         destruct (Hch (childOptionsOf info options) (S depth) c Hmax Hconv); lia
       | lia ]).
Qed.
End DepthBound.

(** X20.  With a maximum depth of [limit], a tree [domToLayer] returns has
    at most [2 * limit + 3] levels, gap wrappers counted: an element and
    the wrapper that may stand above it for each depth from 1 to
    [limit], the root, and below the deepest element a wrapper and a
    text or pseudo-element leaf. *)
Theorem tree_depth_is_bounded (resolveURL : string -> option string)
  (element : Element) (options : ConversionOptions) (limit : nat)
  (l : LayerMeta) :
  maxDepth' (mergeOptions options) = Num.ofNat limit ->
  domToLayer resolveURL element options = Ok (Some l) ->
  levels l <= 2 * limit + 3.
Proof.
  unfold domToLayer. intros Hmax H.
  destruct (@convertElement_levels resolveURL limit element _ 0 l Hmax H). lia.
Qed.

(** Three padded lines of text at y = 0, 20, 60, converted with a maximum
    depth of 1: the second line is wrapped, and the tree is root, wrapper,
    line, text, four levels. *)
Lemma tree_depth_is_bounded_witness :
  exists l, domToLayer noURL paddedLines oneLevelDown = Ok (Some l)
            /\ map isWrapperLayer (children l) = [false; true; false]
            /\ map levels (children l) = [2; 3; 2]
            /\ levels l = 4 /\ levels l <= 2 * 1 + 3.
Proof.
  eexists. split; [vm_compute; reflexivity|]. split; [reflexivity|].
  split; [reflexivity|]. split; [reflexivity|].
  apply (@tree_depth_is_bounded noURL paddedLines oneLevelDown 1);
    vm_compute; reflexivity.
Defined.

(** ** [determineLayerType] *)

(** X21.  [determineLayerType] answers TEXT only for an element without
    a background colour, without block children and without a padding
    above 2, that is a text element or holds text of its own; such an
    element gets no solid paint from its background colour. *)
Theorem text_type_conditions (info : ElementInfo) (kids : list ChildNode) :
  determineLayerType info kids = TEXT ->
  hasBackground (computedStyle info) = false
  /\ hasBlockChildren kids = false
  /\ hasPadding (computedStyle info) = false
  /\ (isTextElement (toLowerCase (tagName info)) = true
      \/ hasRealTextNodes kids = true)
  /\ backgroundColorFills (computedStyle info) = [].
Proof.
  intros H.
  assert (G : hasBackground (computedStyle info) = false
              /\ hasBlockChildren kids = false
              /\ hasPadding (computedStyle info) = false
              /\ (isTextElement (toLowerCase (tagName info)) = true
                  \/ hasRealTextNodes kids = true)).
  2:{ destruct G as (G1 & G2 & G3 & G4). repeat split; try assumption.
      unfold hasBackground in G1. cbv zeta in G1. unfold backgroundColorFills.
      cbv zeta.
      destruct (truthy (computedStyle info "backgroundColor")) eqn:T; [|reflexivity].
      cbn [andb] in *.
      destruct (String.eqb (computedStyle info "backgroundColor") "transparent") eqn:E1.
      - apply String.eqb_eq in E1. rewrite E1. reflexivity.
      - cbn [negb andb] in G1. apply negb_false_iff in G1.
        apply String.eqb_eq in G1. rewrite G1. reflexivity. }
  revert H.
  unfold determineLayerType, hasBackground, hasPadding. cbv zeta.
  repeat match goal with
         | |- context [if ?c then _ else _] =>
             lazymatch c with
             | context [if _ then _ else _] => fail
             | _ => destruct c eqn:?
             end
         end; try discriminate; intros _.
  all: repeat match goal with
         | H : (_ && _) = true |- _ => apply andb_true_iff in H; destruct H
         | H : negb _ = true |- _ => apply negb_true_iff in H
         | H : (_ || _) = true |- _ => apply orb_true_iff in H
         end.
  all: repeat split; try assumption; tauto.
Qed.

(** The paragraph holding "hello". *)
Lemma text_type_conditions_witness :
  determineLayerType (infoOf paragraph) [Txt "hello" (box 30 40 40 20)] = TEXT
  /\ hasBlockChildren [Txt "hello" (box 30 40 40 20)] = false
  /\ hasRealTextNodes [Txt "hello" (box 30 40 40 20)] = true.
Proof.
  split; [reflexivity|]. split; [|reflexivity].
  apply (@text_type_conditions (infoOf paragraph) [Txt "hello" (box 30 40 40 20)]).
  reflexivity.
Defined.


(** ** The z-index sort is stable *)

Lemma insertByZ_filter (k : Z) (a : LayerMeta) (l : list LayerMeta) :
  filter (hasZ k) (insertByZ a l) = filter (hasZ k) (a :: l).
Proof.
  induction l as [|b l IH]; [reflexivity|].
  cbn [insertByZ]. destruct (zKey a <=? zKey b)%Z eqn:E; [reflexivity|].
  apply Z.leb_gt in E. cbn [filter] in *. rewrite IH.
  unfold hasZ. destruct (zKey a =? k)%Z eqn:Ea, (zKey b =? k)%Z eqn:Eb;
    try reflexivity.
  apply Z.eqb_eq in Ea, Eb. lia.
Qed.

Lemma sortByZIndex_filter (k : Z) (l : list LayerMeta) :
  filter (hasZ k) (sortByZIndex l) = filter (hasZ k) l.
Proof.
  induction l as [|a l IH]; [reflexivity|].
  cbn [sortByZIndex fold_right]. fold (sortByZIndex l).
  rewrite insertByZ_filter. cbn [filter]. rewrite IH. reflexivity.
Qed.

(** X22.  [sortByZIndex] returns a permutation of its input in
    non-decreasing order of resolved z-index, and keeps the layers of one
    z-index in the order they had: the sort is stable. *)
Theorem z_sort_is_stable (l : list LayerMeta) :
  zSorted (sortByZIndex l)
  /\ Permutation l (sortByZIndex l)
  /\ forall k, filter (hasZ k) (sortByZIndex l) = filter (hasZ k) l.
Proof.
  split; [apply sortByZIndex_sorted|]. split; [apply sortByZIndex_perm|].
  intros k. apply sortByZIndex_filter.
Qed.


(** ** [mapFontFamily] *)

Lemma ownFont_in (k v : string) (t : list (string * string)) :
  ownFont k t = Some v -> In v (map snd t).
Proof.
  induction t as [|[k' v'] t IH]; simpl; [discriminate|].
  destruct (String.eqb k k'); [intros H; injection H as <-; auto|auto].
Qed.

Lemma tableGet_in (t : list (string * string)) (k g : string) :
  tableGet t k = Some (Font g) -> In g (map snd t).
Proof.
  unfold tableGet. destruct (ownFont k t) eqn:E.
  - intros H. injection H as <-. eapply ownFont_in; eauto.
  - destruct (inList k objectPrototypeKeys); discriminate.
Qed.

Lemma mapped_or_same (webFont g : string) :
  mapFontFamily webFont = Font g -> g = webFont \/ In g mappedNames.
Proof.
  unfold mapFontFamily, mappedNames. cbv zeta.
  destruct (tableGet sansSerifMap _) as [v|] eqn:E1.
  { intros ->. right. apply in_or_app. left. eapply tableGet_in; eauto. }
  destruct (tableGet serifMap _) as [v|] eqn:E2.
  { intros ->. right. apply in_or_app. right. apply in_or_app. left.
    eapply tableGet_in; eauto. }
  destruct (tableGet monoMap _) as [v|] eqn:E3.
  { intros ->. right. apply in_or_app. right. apply in_or_app. right.
    apply in_or_app. left. eapply tableGet_in; eauto. }
  repeat match goal with
         | |- context [if ?c then _ else _] => destruct c
         end;
    intros H; injection H as <-; auto;
    right; do 3 (apply in_or_app; right); simpl; auto.
Qed.


(** X23.  A font name [mapFontFamily] returns is mapped to itself:
    mapping twice changes nothing. *)
Theorem font_mapping_is_idempotent (webFont g : string) :
  mapFontFamily webFont = Font g -> mapFontFamily g = Font g.
Proof.
  intros H. destruct (mapped_or_same _ H) as [-> | Hin]; [exact H|].
  assert (A : forallb mapsToItself mappedNames = true) by (vm_compute; reflexivity).
  rewrite forallb_forall in A. specialize (A g Hin). unfold mapsToItself in A.
  destruct (mapFontFamily g) as [g'|]; [|discriminate].
  apply String.eqb_eq in A. congruence.
Qed.

Lemma font_mapping_is_idempotent_witness :
  mapFontFamily "Helvetica Neue" = Font "Inter"
  /\ mapFontFamily "Inter" = Font "Inter".
Proof.
  split; [reflexivity|].
  apply (@font_mapping_is_idempotent "Helvetica Neue" "Inter"). reflexivity.
Defined.

(** ** Gradient stops *)

(** Three stops, the second at 0.3: the third, without a position, is
    placed at 2/2 = 1. *)
Lemma normalizeStops_nth_witness :
  nth_error
    (normalizeStops [ (None, opaqueBlack); (Some (Num.frac 3 10), opaqueBlack);
                      (None, opaqueBlack) ]) 2
  = Some (mkStop (Num.ofZ 1) opaqueBlack).
Proof.
  apply (@normalizeStops_nth
           [ (None, opaqueBlack); (Some (Num.frac 3 10), opaqueBlack);
             (None, opaqueBlack) ] 2 None opaqueBlack);
    [simpl; lia|reflexivity].
Defined.

(** ** The import frame *)

Lemma from_origin_covers (w : num) :
  isFinite w -> (w <=? (Num.ofZ 0 + Num.ofZ 0) + w)%num = true.
Proof.
  destruct w as [q| | |]; cbn [isFinite]; try tauto. intros _.
  cbn [Num.ofZ Num.add Num.leb]. apply Qle_bool_iff.
  rewrite !Qred_correct. change (inject_Z 0) with 0%Q. lra.
Qed.

(** X25.  For a tree whose boxes are all finite, the bounds measured
    after [transformToFrameCoordinates] are at least the width and the
    height of the root, wherever the root was. *)
Theorem frame_bounds_hold_the_root (layer : LayerMeta) :
  allNodes finiteBox layer ->
  within2 (measureLayerBounds (transformToFrameCoordinates layer))
          (width layer, height layer).
Proof.
  intros H. inversion H as [? Hbox Hkids]; subst.
  destruct Hbox as (Fx & Fy & Fw & Fh).
  assert (H' : allNodes finiteBox (transformToFrameCoordinates layer)).
  { constructor; [|exact Hkids]. repeat split; try exact I; assumption. }
  unfold measureLayerBounds.
  destruct (@traverse_spec _ H' (Num.ofZ 0) (Num.ofZ 0) (Num.ofZ 0, Num.ofZ 0))
    as (_ & _ & E); try exact I; [split; exact I|].
  unfold transformToFrameCoordinates, setGeometry in E |- *.
  cbn [edges] in E. cbv zeta in E. inversion E as [|? ? [E1 E2] _]; subst.
  cbn [fst snd] in E1, E2.
  split; cbn [fst snd]; (eapply leb_trans; [apply from_origin_covers; assumption|]); assumption.
Qed.

(** A root at (30, 40): measured as it is, the bounds are (130, 110);
    moved to the origin first, they are (100, 70), not less than the
    root's 100 by 50. *)
Lemma frame_bounds_hold_the_root_witness :
  measureLayerBounds
    (mk FRAME (Num.ofZ 30) (Num.ofZ 40) (Num.ofZ 100) (Num.ofZ 50) []
        None (Num.ofZ 1) true None false None (rows 0 20 60) None (Some "DIV"))
  = (Num.ofZ 130, Num.ofZ 110)
  /\ measureLayerBounds
       (transformToFrameCoordinates
          (mk FRAME (Num.ofZ 30) (Num.ofZ 40) (Num.ofZ 100) (Num.ofZ 50) []
              None (Num.ofZ 1) true None false None (rows 0 20 60) None
              (Some "DIV")))
     = (Num.ofZ 100, Num.ofZ 70)
  /\ within2
       (measureLayerBounds
          (transformToFrameCoordinates
             (mk FRAME (Num.ofZ 30) (Num.ofZ 40) (Num.ofZ 100) (Num.ofZ 50) []
                 None (Num.ofZ 1) true None false None (rows 0 20 60) None
                 (Some "DIV"))))
       (Num.ofZ 100, Num.ofZ 50).
Proof.
  split; [vm_compute; reflexivity|]. split; [vm_compute; reflexivity|].
  apply (@frame_bounds_hold_the_root
           (mk FRAME (Num.ofZ 30) (Num.ofZ 40) (Num.ofZ 100) (Num.ofZ 50) []
               None (Num.ofZ 1) true None false None (rows 0 20 60) None
               (Some "DIV"))).
  repeat (constructor; simpl; try exact I).
Defined.

(** ** [getBounds], [calculatePosition] *)

Lemma min_cases (x y : num) :
  x <> NaN -> y <> NaN ->
  (Num.min x y = x \/ Num.min x y = y)
  /\ (Num.min x y <=? x)%num = true /\ (Num.min x y <=? y)%num = true.
Proof.
  intros Hx Hy.
  assert (E : Num.min x y = if (x <=? y)%num then x else y).
  { destruct x, y; try congruence; reflexivity. }
  rewrite E. destruct (x <=? y)%num eqn:L.
  - repeat split; auto using leb_refl.
  - repeat split; auto using leb_refl, leb_total.
Qed.

Lemma fold_min_spec (l : list num) :
  forall acc, acc <> NaN -> Forall (fun x => x <> NaN) l ->
    let m := fold_left Num.min l acc in
    m <> NaN /\ (m <=? acc)%num = true
    /\ Forall (fun x => (m <=? x)%num = true) l
    /\ (m = acc \/ In m l).
Proof.
  induction l as [|a l IH]; intros acc Hacc Hl; cbn [fold_left].
  - repeat split; auto using leb_refl.
  - inversion Hl as [|? ? Ha Hl']; subst.
    destruct (min_cases Hacc Ha) as (Hc & L1 & L2).
    assert (Hm : Num.min acc a <> NaN) by (destruct Hc as [-> | ->]; assumption).
    destruct (IH (Num.min acc a) Hm Hl') as (N & B & F & I).
    repeat split.
    + exact N.
    + eapply leb_trans; eassumption.
    + constructor; [eapply leb_trans; eassumption|exact F].
    + destruct I as [I|I]; [|right; right; exact I].
      destruct Hc as [Hc|Hc]; rewrite Hc in I; [left|right; left]; congruence.
Qed.

(** The least of a list of finite numbers that is not empty. *)
Lemma minList_least (l : list num) :
  l <> [] -> Forall isFinite l -> least (fold_left Num.min l PInf) l.
Proof.
  intros Hne Hf.
  assert (Hn : Forall (fun x => x <> NaN) l).
  { eapply Forall_impl; [|exact Hf]. intros x. apply isFinite_not_NaN. }
  assert (HP : PInf <> NaN) by discriminate.
  destruct (fold_min_spec HP Hn) as (_ & _ & F & I).
  split; [|exact F].
  destruct I as [I|I]; [|exact I].
  destruct l as [|a l]; [congruence|].
  inversion F as [|? ? Fa _]; subst. inversion Hf as [|? ? Ha _]; subst.
  rewrite I in Fa. destruct a; cbn in Ha, Fa; try tauto; discriminate.
Qed.

Lemma maxList_greatest (l : list num) :
  l <> [] -> Forall isFinite l -> greatest (fold_left Num.max l NInf) l.
Proof.
  intros Hne Hf.
  assert (Hn : Forall (fun x => x <> NaN) l).
  { eapply Forall_impl; [|exact Hf]. intros x. apply isFinite_not_NaN. }
  assert (HN : NInf <> NaN) by discriminate.
  destruct (fold_max_spec HN Hn) as (_ & _ & F & I).
  split; [|exact F].
  destruct I as [I|I]; [|exact I].
  destruct l as [|a l]; [congruence|].
  inversion F as [|? ? Fa _]; subst. inversion Hf as [|? ? Ha _]; subst.
  rewrite I in Fa. destruct a; cbn in Ha, Fa; try tauto; discriminate.
Qed.

(** The loop of [getBounds] keeps four independent running values. *)
Lemma fold_extend_split (nodes : list Placement.SceneNode) :
  forall a b c d,
    fold_left Placement.extend nodes (a, b, c, d)
    = (fold_left Num.min (map Placement.x nodes) a,
       fold_left Num.min (map Placement.y nodes) b,
       fold_left Num.max (map rightEdge nodes) c,
       fold_left Num.max (map bottomEdge nodes) d).
Proof.
  induction nodes as [|n nodes IH]; intros a b c d; [reflexivity|].
  cbn [fold_left map Placement.extend]. apply IH.
Qed.

Lemma finite_fields (nodes : list Placement.SceneNode) :
  Forall finiteNode nodes ->
  Forall isFinite (map Placement.x nodes)
  /\ Forall isFinite (map Placement.y nodes)
  /\ Forall isFinite (map rightEdge nodes)
  /\ Forall isFinite (map bottomEdge nodes).
Proof.
  intros H. repeat split; apply Forall_map; (eapply Forall_impl; [|exact H]);
    intros n (Fx & Fy & Fw & Fh); try assumption;
    apply isFinite_add; assumption.
Qed.

Lemma map_not_nil {A B : Type} (f : A -> B) (l : list A) : l <> [] -> map f l <> [].
Proof. destruct l; [congruence|discriminate]. Qed.

(** X26.  For a list of nodes that is not empty and whose numbers are
    finite, the box [getBounds] returns has as [x] and [y] the least [x]
    and the least [y] of the nodes, and as [width] and [height] the
    greatest right edge [x + width] minus that [x], and the greatest
    bottom edge [y + height] minus that [y]. *)
Theorem bounds_hold_every_node (nodes : list Placement.SceneNode) :
  nodes <> [] -> Forall finiteNode nodes ->
  least (Placement.x (Placement.getBounds nodes)) (map Placement.x nodes)
  /\ least (Placement.y (Placement.getBounds nodes)) (map Placement.y nodes)
  /\ exists right bottom,
       greatest right (map rightEdge nodes)
       /\ greatest bottom (map bottomEdge nodes)
       /\ Placement.width (Placement.getBounds nodes)
          = (right - Placement.x (Placement.getBounds nodes))%num
       /\ Placement.height (Placement.getBounds nodes)
          = (bottom - Placement.y (Placement.getBounds nodes))%num.
Proof.
  intros Hne Hf. unfold Placement.getBounds. rewrite fold_extend_split.
  destruct (finite_fields Hf) as (Fx & Fy & Fr & Fb).
  cbn [Placement.x Placement.y Placement.width Placement.height].
  split; [apply minList_least; [apply map_not_nil; exact Hne|exact Fx]|].
  split; [apply minList_least; [apply map_not_nil; exact Hne|exact Fy]|].
  exists (fold_left Num.max (map rightEdge nodes) NInf),
         (fold_left Num.max (map bottomEdge nodes) NInf).
  split; [apply maxList_greatest; [apply map_not_nil; exact Hne|exact Fr]|].
  split; [apply maxList_greatest; [apply map_not_nil; exact Hne|exact Fb]|].
  split; reflexivity.
Qed.

(** The two nodes: the box is 80 by 25 at (0, 0). *)
Lemma bounds_hold_every_node_witness :
  Placement.getBounds twoNodes
  = Placement.mkBox (Num.ofZ 0) (Num.ofZ 0) (Num.ofZ 80) (Num.ofZ 25)
  /\ least (Placement.x (Placement.getBounds twoNodes))
           (map Placement.x twoNodes)
  /\ greatest (Num.ofZ 80) (map rightEdge twoNodes).
Proof.
  split; [vm_compute; reflexivity|].
  split.
  - apply (@bounds_hold_every_node twoNodes);
      [discriminate|repeat (constructor; simpl; try exact I)].
  - split; [right; left; vm_compute; reflexivity|].
    repeat constructor.
Defined.

Lemma least_finite (v : num) (l : list num) :
  Forall isFinite l -> least v l -> isFinite v.
Proof. intros Hf [Hin _]. rewrite Forall_forall in Hf. auto. Qed.

Lemma greatest_finite (v : num) (l : list num) :
  Forall isFinite l -> greatest v l -> isFinite v.
Proof. intros Hf [Hin _]. rewrite Forall_forall in Hf. auto. Qed.

(** Adding a span that is not negative and then 100 gives no less than
    adding 100. *)
Lemma beyond_left (a c : num) :
  isFinite a -> isFinite c -> (a <=? c)%num = true ->
  (a + Num.ofZ 100 <=? a + (c - a) + Num.ofZ 100)%num = true.
Proof.
  destruct a as [p| | |], c as [q| | |]; cbn [isFinite]; try tauto. intros _ _.
  cbn [Num.leb Num.add Num.sub Num.neg Num.ofZ].
  rewrite !Qle_bool_iff, !Qred_correct. intros H. lra.
Qed.

Lemma right_of_left (n : Placement.SceneNode) :
  finiteNode n -> (Num.ofZ 0 <=? Placement.width n)%num = true ->
  (Placement.x n <=? rightEdge n)%num = true.
Proof.
  intros (Fx & _ & Fw & _). unfold rightEdge.
  destruct (Placement.x n) as [p| | |], (Placement.width n) as [q| | |];
    cbn [isFinite] in *; try tauto.
  cbn [Num.leb Num.add Num.ofZ]. rewrite !Qle_bool_iff, Qred_correct.
  change (inject_Z 0) with 0%Q. intros H. lra.
Qed.

(** X27.  With a selection that is not empty, whose nodes have finite
    numbers and widths that are not negative, the position
    [calculatePosition] returns has as [y] the least [y] of the
    selection, and an [x] that is at least 100 beyond the least [x] of
    the selection. *)
Theorem new_import_is_placed_by_the_selection
  (selection : list Placement.SceneNode) (center : num * num) :
  selection <> [] -> Forall finiteNode selection ->
  Forall (fun n => (Num.ofZ 0 <=? Placement.width n)%num = true) selection ->
  least (snd (Placement.calculatePosition selection center))
        (map Placement.y selection)
  /\ exists left,
       least left (map Placement.x selection)
       /\ (left + Num.ofZ 100
           <=? fst (Placement.calculatePosition selection center))%num = true.
Proof.
  intros Hne Hf Hw. unfold Placement.calculatePosition.
  assert (Hl : (0 <? List.length selection) = true).
  { destruct selection; [congruence|reflexivity]. }
  rewrite Hl. cbn [fst snd].
  unfold Placement.getBounds. rewrite fold_extend_split.
  destruct (finite_fields Hf) as (Fx & Fy & Fr & Fb).
  cbn [Placement.x Placement.y Placement.width Placement.height].
  pose proof (minList_least (map_not_nil Placement.x Hne) Fx) as Lx.
  pose proof (minList_least (map_not_nil Placement.y Hne) Fy) as Ly.
  pose proof (maxList_greatest (map_not_nil rightEdge Hne) Fr) as Gr.
  split; [exact Ly|].
  exists (fold_left Num.min (map Placement.x selection) PInf).
  split; [exact Lx|].
  set (a := fold_left Num.min (map Placement.x selection) PInf) in *.
  set (c := fold_left Num.max (map rightEdge selection) NInf) in *.
  apply beyond_left;
    [exact (@least_finite _ _ Fx Lx)|exact (@greatest_finite _ _ Fr Gr)|].
  destruct selection as [|n rest]; [congruence|].
  destruct Lx as [_ Lx]. destruct Gr as [_ Gr]. cbn [map] in Lx, Gr.
  inversion Lx as [|? ? L1 _]; subst. inversion Gr as [|? ? G1 _]; subst.
  inversion Hf as [|? ? Hn _]; subst. inversion Hw as [|? ? Hwn _]; subst.
  eapply leb_trans; [exact L1|]. eapply leb_trans; [|exact G1].
  apply right_of_left; assumption.
Qed.

(** The two nodes: the new import goes to (180, 0). *)
Lemma new_import_is_placed_by_the_selection_witness :
  Placement.calculatePosition twoNodes (Num.ofZ 0, Num.ofZ 0)
  = (Num.ofZ 180, Num.ofZ 0)
  /\ least (snd (Placement.calculatePosition twoNodes (Num.ofZ 0, Num.ofZ 0)))
           (map Placement.y twoNodes).
Proof.
  split; [vm_compute; reflexivity|].
  apply (@new_import_is_placed_by_the_selection twoNodes
           (Num.ofZ 0, Num.ofZ 0));
    [discriminate|repeat (constructor; simpl; try exact I)
    |repeat constructor].
Defined.
